(** * beehiiv-importer: the post extraction and rendering pipeline

    A shallow embedding of [beehiiv-retrieve-posts.py]: JSON-LD and
    client-state extraction, metadata resolution, the boilerplate filter
    [clean_content], image rewriting and the front matter of
    [post_to_markdown]; then the sitemap functions [parse_sitemap_urls] and
    [discover_post_urls], and the image functions [collect_image_urls] and
    [download_images].

    Conventions.
    - Python [str] is [string]; a character is a code point below 256.
    - A Python value coming out of [json.loads] (or a DOM string, or [None])
      is a [value].
    - A computation that may raise is a [result]; [try/except] is written out.
    - A BeautifulSoup tree is a forest of [node]s carrying object identities
      ([ref]); a Python variable holding a tag or a string holds its [ref],
      and every operation reads the current tree, so that [decompose] in one
      loop iteration is seen by the following ones.
    - Library functions whose text is not part of the repository
      ([json.loads], [urlparse], [unquote], [yaml.dump], [html2text],
      [ET.fromstring]) are Section variables, and so is what the outside
      world answers (which files exist, what a request comes to). *)

From Stdlib Require Import List String Ascii Bool Arith ZArith Lia.
From Stdlib Require Import Permutation Sorted DecimalString DecimalNat.
Import ListNotations.
Local Open Scope string_scope.
Local Open Scope list_scope.
Local Open Scope nat_scope.

Set Implicit Arguments.

(* ------------------------------------------------------------------ *)
(** ** Python results and exceptions *)

Inductive exn : Type :=
| AttributeError
| TypeError
| KeyError
| JSONDecodeError.

Inductive result (A : Type) : Type :=
| Ok (a : A)
| Raise (e : exn).
Arguments Ok {A} a.
Arguments Raise {A} e.

Definition bind {A B} (m : result A) (k : A -> result B) : result B :=
  match m with
  | Ok a => k a
  | Raise e => Raise e
  end.

Notation "x <- m ;; k" := (bind m (fun x => k))
  (at level 61, m at next level, right associativity).

Definition exn_eqb (a b : exn) : bool :=
  match a, b with
  | AttributeError, AttributeError | TypeError, TypeError
  | KeyError, KeyError | JSONDecodeError, JSONDecodeError => true
  | _, _ => false
  end.

(** [for x in xs: s = body(x, s)], stopping at the first exception. *)
Fixpoint for_each {A S} (xs : list A) (body : A -> S -> result S) (s : S)
  : result S :=
  match xs with
  | [] => Ok s
  | x :: rest => s' <- body x s ;; for_each rest body s'
  end.

(* ------------------------------------------------------------------ *)
(** ** Strings *)

Module Str.

Definition code (c : ascii) : nat := nat_of_ascii c.

(** [str.isspace] on code points below 256; also the class [\s] of [re]. *)
Definition is_space (c : ascii) : bool :=
  let n := code c in
  ((9 <=? n) && (n <=? 13)) || ((28 <=? n) && (n <=? 32))
  || (n =? 133) || (n =? 160).

Definition is_digit (c : ascii) : bool :=
  let n := code c in (48 <=? n) && (n <=? 57).

Definition lower (c : ascii) : ascii :=
  let n := code c in
  if (65 <=? n) && (n <=? 90) then ascii_of_nat (n + 32) else c.

Fixpoint startswith (p s : string) : bool :=
  match p, s with
  | EmptyString, _ => true
  | String a p', String b s' => Ascii.eqb a b && startswith p' s'
  | String _ _, EmptyString => false
  end.

(** [sub in s] *)
Fixpoint contains (sub s : string) : bool :=
  startswith sub s
  || match s with
     | EmptyString => false
     | String _ s' => contains sub s'
     end.

Fixpoint lstrip (s : string) : string :=
  match s with
  | String c s' => if is_space c then lstrip s' else s
  | EmptyString => EmptyString
  end.

Fixpoint rstrip (s : string) : string :=
  match s with
  | EmptyString => EmptyString
  | String c s' =>
      match rstrip s' with
      | EmptyString => if is_space c then EmptyString else String c EmptyString
      | r => String c r
      end
  end.

Definition strip (s : string) : string := rstrip (lstrip s).

Definition is_empty (s : string) : bool :=
  match s with EmptyString => true | _ => false end.

(** [s[:n]] *)
Fixpoint take (n : nat) (s : string) : string :=
  match n, s with
  | S n', String c s' => String c (take n' s')
  | _, _ => EmptyString
  end.

Fixpoint drop (n : nat) (s : string) : string :=
  match n, s with
  | S n', String _ s' => drop n' s'
  | _, _ => s
  end.

Fixpoint take_while (p : ascii -> bool) (s : string) : string :=
  match s with
  | String c s' => if p c then String c (take_while p s') else EmptyString
  | EmptyString => EmptyString
  end.

(** [s.rsplit(sep, 1)[-1]] for a one-character separator: what follows the
    last separator, or all of [s] when there is none. *)
Fixpoint rsplit_last (sep : ascii) (s : string) : string :=
  match s with
  | EmptyString => EmptyString
  | String c s' =>
      if existsb (Ascii.eqb sep) (list_ascii_of_string s') then rsplit_last sep s'
      else if Ascii.eqb c sep then s' else s
  end.

(** What comes before the last occurrence of [c], and what comes after it. *)
Fixpoint rpartition (c : ascii) (s : string) : option (string * string) :=
  match s with
  | EmptyString => None
  | String a s' =>
      match rpartition c s' with
      | Some (l, r) => Some (String a l, r)
      | None => if Ascii.eqb a c then Some (EmptyString, s') else None
      end
  end.

(** The suffixes of [s], longest first. *)
Fixpoint suffixes (s : string) : list string :=
  s :: match s with
       | EmptyString => []
       | String _ s' => suffixes s'
       end.

End Str.

(* ------------------------------------------------------------------ *)
(** ** Regular expressions

    The patterns of the source use literals, classes, concatenation,
    alternation, [?], [*] and [+]; they are matched by derivatives.
    [search] is [re.search] as a truth value. *)

Module Re.

Inductive regex : Type :=
| Void
| Eps
| Class (p : ascii -> bool)
| Cat (r1 r2 : regex)
| Alt (r1 r2 : regex)
| Star (r : regex).

Fixpoint nullable (r : regex) : bool :=
  match r with
  | Void => false
  | Eps => true
  | Class _ => false
  | Cat r1 r2 => nullable r1 && nullable r2
  | Alt r1 r2 => nullable r1 || nullable r2
  | Star _ => true
  end.

(** Constructors that drop [Void] and [Eps] units, to keep derivatives small. *)
Definition cat (r1 r2 : regex) : regex :=
  match r1, r2 with
  | Void, _ => Void
  | _, Void => Void
  | Eps, _ => r2
  | _, Eps => r1
  | _, _ => Cat r1 r2
  end.

Definition alt (r1 r2 : regex) : regex :=
  match r1, r2 with
  | Void, _ => r2
  | _, Void => r1
  | _, _ => Alt r1 r2
  end.

Fixpoint deriv (c : ascii) (r : regex) : regex :=
  match r with
  | Void => Void
  | Eps => Void
  | Class p => if p c then Eps else Void
  | Cat r1 r2 =>
      if nullable r1 then alt (cat (deriv c r1) r2) (deriv c r2)
      else cat (deriv c r1) r2
  | Alt r1 r2 => alt (deriv c r1) (deriv c r2)
  | Star r1 => cat (deriv c r1) (Star r1)
  end.

(** The strings a pattern denotes. *)
Inductive lang : regex -> string -> Prop :=
| lang_eps : lang Eps EmptyString
| lang_class (p : ascii -> bool) (c : ascii) :
    p c = true -> lang (Class p) (String c EmptyString)
| lang_cat (r1 r2 : regex) (s1 s2 : string) :
    lang r1 s1 -> lang r2 s2 -> lang (Cat r1 r2) (String.append s1 s2)
| lang_alt_l (r1 r2 : regex) (s : string) : lang r1 s -> lang (Alt r1 r2) s
| lang_alt_r (r1 r2 : regex) (s : string) : lang r2 s -> lang (Alt r1 r2) s
| lang_star_nil (r : regex) : lang (Star r) EmptyString
| lang_star_cons (r : regex) (s1 s2 : string) :
    lang r s1 -> lang (Star r) s2 -> lang (Star r) (String.append s1 s2).

(** [re.fullmatch(r, s) is not None] *)
Fixpoint fullmatch (r : regex) (s : string) : bool :=
  match s with
  | EmptyString => nullable r
  | String c s' => fullmatch (deriv c r) s'
  end.

Definition anychar : regex := Class (fun _ => true).

(** [re.search(r, s) is not None] *)
Definition search (r : regex) (s : string) : bool :=
  fullmatch (Cat (Star anychar) (Cat r (Star anychar))) s.

(** Pattern syntax. *)
Definition chr (c : ascii) : regex := Class (Ascii.eqb c).
(** a literal character under [re.I] *)
Definition chr_i (c : ascii) : regex :=
  Class (fun x => Ascii.eqb (Str.lower x) (Str.lower c)).
Fixpoint lit (s : string) : regex :=
  match s with
  | EmptyString => Eps
  | String c s' => Cat (chr c) (lit s')
  end.
Fixpoint lit_i (s : string) : regex :=
  match s with
  | EmptyString => Eps
  | String c s' => Cat (chr_i c) (lit_i s')
  end.
(** [.] without [re.DOTALL] *)
Definition dot : regex := Class (fun c => negb (Ascii.eqb c "010"%char)).
Definition space : regex := Class Str.is_space.
Definition digit : regex := Class Str.is_digit.
Definition opt (r : regex) : regex := Alt r Eps.
Definition plus (r : regex) : regex := Cat r (Star r).
Fixpoint seq (rs : list regex) : regex :=
  match rs with
  | [] => Eps
  | r :: rest => Cat r (seq rest)
  end.
Fixpoint alts (rs : list regex) : regex :=
  match rs with
  | [] => Void
  | [r] => r
  | r :: rest => Alt r (alts rest)
  end.

End Re.

(* ------------------------------------------------------------------ *)
(** ** Python values

    What [json.loads] returns, what a DOM attribute or string holds, and
    [None].  A dict is its items in insertion order (keys unique, as in
    Python).  A float keeps its literal and whether it equals zero, which is
    all the program asks of it (truth value). *)

#[warnings="-register-all"] Inductive value : Type :=
| VNone
| VBool (b : bool)
| VInt (z : Z)
| VFloat (is_zero : bool) (literal : string)
| VStr (s : string)
| VList (xs : list value)
| VDict (items : list (string * value)).

Module Py.

(** [bool(v)] *)
Definition truthy (v : value) : bool :=
  match v with
  | VNone => false
  | VBool b => b
  | VInt z => negb (Z.eqb z 0)
  | VFloat is_zero _ => negb is_zero
  | VStr s => negb (Str.is_empty s)
  | VList xs => match xs with [] => false | _ => true end
  | VDict items => match items with [] => false | _ => true end
  end.

(** [a or b] *)
Definition or_else (a b : value) : value := if truthy a then a else b.

Definition in_strs (s : string) (l : list string) : bool :=
  existsb (String.eqb s) l.

Fixpoint assoc {A} (k : string) (items : list (string * A)) : option A :=
  match items with
  | [] => None
  | (k', v) :: rest => if String.eqb k k' then Some v else assoc k rest
  end.

Definition is_dict (v : value) : bool :=
  match v with VDict _ => true | _ => false end.

(** [v.get(k, default)]: only a dict has [get]. *)
Definition get (v : value) (k : string) (default : value) : result value :=
  match v with
  | VDict items =>
      Ok (match assoc k items with Some x => x | None => default end)
  | _ => Raise AttributeError
  end.

(** [for x in v]: the sequence a [for] loop walks. *)
Definition iter (v : value) : result (list value) :=
  match v with
  | VDict items => Ok (map (fun kv => VStr (fst kv)) items)
  | VList xs => Ok xs
  | VStr s => Ok (map (fun c => VStr (String c EmptyString)) (list_ascii_of_string s))
  | _ => Raise TypeError
  end.

(** [needle in v] for a string [needle]. *)
Definition str_in (needle : string) (v : value) : result bool :=
  match v with
  | VStr s => Ok (Str.contains needle s)
  | VList xs =>
      Ok (existsb (fun x => match x with VStr s => String.eqb needle s | _ => false end) xs)
  | VDict items => Ok (existsb (fun kv => String.eqb needle (fst kv)) items)
  | _ => Raise TypeError
  end.

(** [v[key]] *)
Definition getitem (v key : value) : result value :=
  match v, key with
  | VDict items, VStr k =>
      match assoc k items with Some x => Ok x | None => Raise KeyError end
  | VDict _, (VList _ | VDict _) => Raise TypeError
  | VDict _, _ => Raise KeyError
  | _, _ => Raise TypeError
  end.

(** [v[:n]]; a dict or a number cannot be sliced. *)
Definition slice_to (n : nat) (v : value) : result value :=
  match v with
  | VStr s => Ok (VStr (Str.take n s))
  | VList xs => Ok (VList (firstn n xs))
  | _ => Raise TypeError
  end.

(** [except (caught...)] around a body that filled [acc] before raising. *)
Definition except {A} (caught : list exn) (body : A * option exn) : result A :=
  match body with
  | (acc, None) => Ok acc
  | (acc, Some e) => if existsb (exn_eqb e) caught then Ok acc else Raise e
  end.

End Py.

(* ------------------------------------------------------------------ *)
(** ** The BeautifulSoup tree

    A [Tag] is an [Elem], a [NavigableString] (or one of its subclasses) a
    [Text].  Each object has an identity, its [ref]; Python variables hold
    refs.  The tree a program works on is a forest: the document root, and
    nothing once the root itself has been decomposed.

    Attribute values are strings.  Multi-valued attributes ([class]) are
    kept as the attribute text: the class patterns of the source contain no
    white space, so they match one class token exactly when they match
    inside the text.

    [decompose] (bs4 4.13 and later, where every [PageElement] has it)
    unlinks an object and wipes it and everything below it.  A wiped tag has
    no parent, no contents and no attribute dictionary: [get_text] gives the
    empty string, [find_all] nothing, [decompose] does nothing, and reading
    an attribute with [get] raises [AttributeError]; a wiped string raises
    [AttributeError] when asked for its [parent].  An object is wiped exactly
    when it is no longer found in the forest. *)

Module Bs4.

Definition ref := nat.

Inductive string_kind : Type :=
| NavigableString
| CData
| Comment
| Script
| Stylesheet
| OtherString.

#[warnings="-register-all"] Inductive node : Type :=
| Text (r : ref) (k : string_kind) (s : string)
| Elem (r : ref) (name : string) (attrs : list (string * string)) (contents : list node).

Definition forest := list node.

Definition node_ref (n : node) : ref :=
  match n with
  | Text r _ _ => r
  | Elem r _ _ _ => r
  end.

Definition contents (n : node) : list node :=
  match n with
  | Text _ _ _ => []
  | Elem _ _ _ cs => cs
  end.

Definition is_elem (n : node) : bool :=
  match n with Elem _ _ _ _ => true | Text _ _ _ => false end.

Definition has_ref (r : ref) (n : node) : bool := node_ref n =? r.

(** Document order. *)
Fixpoint preorder (n : node) : list node :=
  n :: match n with
       | Text _ _ _ => []
       | Elem _ _ _ cs => flat_map preorder cs
       end.

Definition nodes (f : forest) : list node := flat_map preorder f.

(** [tag.descendants] *)
Definition descendants (n : node) : list node := nodes (contents n).

Definition refs (f : forest) : list ref := map node_ref (nodes f).

(** The object behind a ref, as it stands in the current tree. *)
Definition lookup (f : forest) (r : ref) : option node :=
  find (has_ref r) (nodes f).

Definition attached (f : forest) (r : ref) : bool :=
  match lookup f r with Some _ => true | None => false end.

Definition parent_node (f : forest) (r : ref) : option node :=
  find (fun n => existsb (has_ref r) (contents n)) (nodes f).

(** [x.decompose()] *)
Fixpoint prune (r : ref) (n : node) : node :=
  match n with
  | Text _ _ _ => n
  | Elem r' name attrs cs =>
      Elem r' name attrs (filter (fun c => negb (has_ref r c)) (map (prune r) cs))
  end.

Definition decompose (r : ref) (f : forest) : forest :=
  filter (fun c => negb (has_ref r c)) (map (prune r) f).

(** [tag.attrs.get(key)] on a tag object. *)
Definition node_attr (key : string) (n : node) : option string :=
  match n with
  | Elem _ _ attrs _ => Py.assoc key attrs
  | Text _ _ _ => None
  end.

Definition named (name : string) (n : node) : bool :=
  match n with
  | Elem _ name' _ _ => String.eqb name name'
  | Text _ _ _ => false
  end.

Definition attr_is (key v : string) (n : node) : bool :=
  match node_attr key n with
  | Some v' => String.eqb v v'
  | None => false
  end.

Definition attr_matches (key : string) (p : Re.regex) (n : node) : bool :=
  match node_attr key n with
  | Some v => Re.search p v
  | None => false
  end.

(** [find_all(string=pattern)] *)
Definition string_matches (p : Re.regex) (n : node) : bool :=
  match n with
  | Text _ _ s => Re.search p s
  | Elem _ _ _ _ => false
  end.

(** The string classes [get_text] reads by default. *)
Definition interesting (k : string_kind) : bool :=
  match k with
  | NavigableString | CData => true
  | _ => false
  end.

Definition stripped (n : node) : list string :=
  match n with
  | Text _ k s =>
      if interesting k
      then (let t := Str.strip s in if Str.is_empty t then [] else [t])
      else []
  | Elem _ _ _ _ => []
  end.

(** [tag.get_text(strip=True)] *)
Definition get_text (n : node) : string :=
  String.concat "" (flat_map stripped (descendants n)).

(** [tag.string] *)
Fixpoint tag_string (n : node) : option string :=
  match n with
  | Text _ _ s => Some s
  | Elem _ _ _ cs =>
      match cs with
      | c :: nil => tag_string c
      | _ => None
      end
  end.

(** [soup.find(...)] and [soup.find_all(...)] on a tag object. *)
Definition find_in (n : node) (p : node -> bool) : option node :=
  find p (descendants n).

Definition find_all_in (n : node) (p : node -> bool) : list node :=
  filter p (descendants n).

(** The same through a ref; a wiped tag has no contents. *)
Definition find_all (f : forest) (r : ref) (p : node -> bool) : list ref :=
  match lookup f r with
  | Some n => map node_ref (find_all_in n p)
  | None => []
  end.

(** [tag.get(key, default)] *)
Definition tag_get (f : forest) (r : ref) (key default : string) : result string :=
  match lookup f r with
  | Some n => Ok (match node_attr key n with Some v => v | None => default end)
  | None => Raise AttributeError
  end.

Definition tag_get_text (f : forest) (r : ref) : string :=
  match lookup f r with
  | Some n => get_text n
  | None => EmptyString
  end.

(** [tag.parent]: [None] at the root and on a wiped tag. *)
Definition tag_parent (f : forest) (r : ref) : option ref :=
  option_map node_ref (parent_node f r).

(** [string.parent] *)
Definition string_parent (f : forest) (r : ref) : result (option ref) :=
  if attached f r then Ok (tag_parent f r) else Raise AttributeError.

(** [bool(x)] for a tree object: a tag is always true, a string when not
    empty. *)
Definition node_truthy (n : node) : bool :=
  match n with
  | Elem _ _ _ _ => true
  | Text _ _ s => negb (Str.is_empty s)
  end.

Fixpoint after (r : ref) (cs : list node) : list node :=
  match cs with
  | [] => []
  | c :: rest => if has_ref r c then rest else after r rest
  end.

Fixpoint before (r : ref) (cs : list node) : list node :=
  match cs with
  | [] => []
  | c :: rest => if has_ref r c then [] else c :: before r rest
  end.

(** The chain [x.next_sibling, x.next_sibling.next_sibling, ...] *)
Definition next_siblings (f : forest) (r : ref) : list node :=
  match parent_node f r with
  | Some p => after r (contents p)
  | None => []
  end.

(** What [while sibling: ...; sibling = sibling.next_sibling] walks. *)
Fixpoint while_truthy (ns : list node) : list node :=
  match ns with
  | [] => []
  | n :: rest => if node_truthy n then n :: while_truthy rest else []
  end.

(** [str(tag)]: the markup of a tag is the tag as it stands; a wiped tag
    prints as an element without name, attributes or contents. *)
Definition markup := list node.

Definition str_of (f : forest) (r : ref) : markup :=
  match lookup f r with
  | Some n => [n]
  | None => [Elem r EmptyString [] []]
  end.

End Bs4.

Import Bs4.

(* ------------------------------------------------------------------ *)
(** ** [clean_content]: the boilerplate filter

    Each pass is the source's loop: the list of matches is taken once, by
    [find_all] on the tree as it stands when the pass starts, and the loop
    body runs on each match against the tree as the earlier iterations left
    it.  Comparisons of tags with [soup_content] are comparisons of refs:
    bs4 compares tags by structure, and a tag on the ancestor chain of
    [soup_content] (or below it) has the structure of [soup_content] only
    when it is [soup_content]. *)

Definition newline : ascii := "010"%char.
Definition nbsp : string := String (ascii_of_nat 160) EmptyString.

(** [re.compile(r"display\s*:\s*none", re.I)] *)
Definition display_none : Re.regex :=
  Re.seq [Re.lit_i "display"; Re.Star Re.space; Re.chr ":"; Re.Star Re.space;
          Re.lit_i "none"].

Definition hidden_pass (soup_content : ref) (f : forest) : result forest :=
  for_each (find_all f soup_content (attr_matches "style" display_none))
    (fun el f => Ok (decompose el f)) f.

Definition tracking_markers : list string :=
  ["open.substack.com"; "pixel"; "track"; "beacon";
   "email-analytics"; "/o/"; "sp.beehiiv.com"].

Definition tiny (width height : string) : bool :=
  Py.in_strs width ["0"; "1"] || Py.in_strs height ["0"; "1"].

Definition tracked (src : string) : bool :=
  existsb (fun t => Str.contains t src) tracking_markers.

Definition tracking_step (img : ref) (f : forest) : result forest :=
  src <- tag_get f img "src" "" ;;
  width <- tag_get f img "width" "" ;;
  height <- tag_get f img "height" "" ;;
  if tiny width height then Ok (decompose img f)
  else if tracked src then Ok (decompose img f)
  else Ok f.

Definition tracking_pass (soup_content : ref) (f : forest) : result forest :=
  for_each (find_all f soup_content (named "img")) tracking_step f.

(** [re.compile(r"\{\{rp_")] *)
Definition rp_marker : Re.regex := Re.lit "{{rp_".

(** [for _ in range(n): if parent.parent and parent.parent != soup_content:
    parent = parent.parent else: break] *)
Fixpoint rp_ascend (n : nat) (f : forest) (soup_content parent : ref) : ref :=
  match n with
  | 0 => parent
  | S n' =>
      match tag_parent f parent with
      | Some g => if g =? soup_content then parent else rp_ascend n' f soup_content g
      | None => parent
      end
  end.

Definition rp_step (soup_content el : ref) (f : forest) : result forest :=
  parent <- string_parent f el ;;
  match parent with
  | None => Ok f
  | Some p =>
      let parent := rp_ascend 5 f soup_content p in
      if negb (parent =? soup_content) then Ok (decompose parent f) else Ok f
  end.

Definition rp_pass (soup_content : ref) (f : forest) : result forest :=
  for_each (find_all f soup_content (string_matches rp_marker))
    (rp_step soup_content) f.

Definition boilerplate_patterns : list Re.regex :=
  [ Re.lit_i "subscribe";
    Re.lit_i "unsubscribe";
    (* share\s+(this|post|article) *)
    Re.seq [Re.lit_i "share"; Re.plus Re.space;
            Re.alts [Re.lit_i "this"; Re.lit_i "post"; Re.lit_i "article"]];
    (* read\s+(this\s+)?(online|in\s+browser|in\s+your\s+browser) *)
    Re.seq [Re.lit_i "read"; Re.plus Re.space;
            Re.opt (Re.Cat (Re.lit_i "this") (Re.plus Re.space));
            Re.alts [Re.lit_i "online";
                     Re.seq [Re.lit_i "in"; Re.plus Re.space; Re.lit_i "browser"];
                     Re.seq [Re.lit_i "in"; Re.plus Re.space; Re.lit_i "your";
                             Re.plus Re.space; Re.lit_i "browser"]]];
    (* forward(ed)?\s+this *)
    Re.seq [Re.lit_i "forward"; Re.opt (Re.lit_i "ed"); Re.plus Re.space;
            Re.lit_i "this"] ].

Definition is_boilerplate (text : string) : bool :=
  existsb (fun p => Re.search p text) boilerplate_patterns.

(** [for _ in range(n): if parent.parent and parent.parent != soup_content:
    if len(parent.get_text(strip=True)) < 200: parent = parent.parent
    else: break else: break] *)
Fixpoint link_ascend (n : nat) (f : forest) (soup_content parent : ref) : ref :=
  match n with
  | 0 => parent
  | S n' =>
      match tag_parent f parent with
      | Some g =>
          if g =? soup_content then parent
          else if String.length (tag_get_text f parent) <? 200
               then link_ascend n' f soup_content g
               else parent
      | None => parent
      end
  end.

Definition link_step (soup_content a : ref) (f : forest) : result forest :=
  let text := tag_get_text f a in
  href <- tag_get f a "href" "" ;;
  if is_boilerplate text then
    match tag_parent f a with
    | Some p =>
        let parent := link_ascend 3 f soup_content p in
        if negb (parent =? soup_content)
           && (String.length (tag_get_text f parent) <? 300)
        then Ok (decompose parent f)
        else Ok (decompose a f)
    | None => Ok (decompose a f)
    end
  else Ok f.

Definition link_pass (soup_content : ref) (f : forest) : result forest :=
  for_each (find_all f soup_content (named "a")) (link_step soup_content) f.

Definition boilerplate_classes : list string :=
  ["share-links"; "social-links"; "subscribe-cta"; "referral";
   "footer"; "email-footer"].

Definition class_pass (soup_content : ref) (f : forest) : result forest :=
  for_each boilerplate_classes
    (fun cls f =>
       for_each (find_all f soup_content (attr_matches "class" (Re.lit_i cls)))
         (fun el f => Ok (decompose el f)) f) f.

Definition footer_patterns : list Re.regex :=
  [ (* whenever you.re ready *)
    Re.seq [Re.lit_i "whenever you"; Re.dot; Re.lit_i "re ready"];
    (* ways? (we|I) can help you *)
    Re.seq [Re.lit_i "way"; Re.opt (Re.chr_i "s"); Re.chr " ";
            Re.alts [Re.lit_i "we"; Re.lit_i "I"]; Re.lit_i " can help you"];
    (* what did you think of (today|this) *)
    Re.seq [Re.lit_i "what did you think of ";
            Re.alts [Re.lit_i "today"; Re.lit_i "this"]];
    (* how did you like (today|this) *)
    Re.seq [Re.lit_i "how did you like ";
            Re.alts [Re.lit_i "today"; Re.lit_i "this"]];
    (* join \d[\d,]* (readers|subscribers|others) *)
    Re.seq [Re.lit_i "join "; Re.digit; Re.Star (Re.Alt Re.digit (Re.chr ","));
            Re.chr " ";
            Re.alts [Re.lit_i "readers"; Re.lit_i "subscribers"; Re.lit_i "others"]] ].

(** [[c for c in tag.children if hasattr(c, "name") and c.name]] *)
Definition element_children (n : node) : list node :=
  filter is_elem (contents n).

(** [for _ in range(n): if not node.parent or node.parent == soup_content:
    break; if len(parent_el_children) > 1: break; node = node.parent] *)
Fixpoint footer_ascend (n : nat) (f : forest) (soup_content node : ref) : ref :=
  match n with
  | 0 => node
  | S n' =>
      match parent_node f node with
      | None => node
      | Some p =>
          if node_ref p =? soup_content then node
          else if 1 <? List.length (element_children p) then node
          else footer_ascend n' f soup_content (node_ref p)
      end
  end.

(** [node] and the siblings after it, as the [while sibling] loop collects
    them. *)
Definition to_remove (f : forest) (node : ref) : list ref :=
  node :: map node_ref (while_truthy (next_siblings f node)).

Definition decompose_all (rs : list ref) (f : forest) : forest :=
  fold_left (fun f r => decompose r f) rs f.

Definition footer_step (soup_content el : ref) (f : forest) : result forest :=
  parent <- string_parent f el ;;
  match parent with
  | None => Ok f
  | Some p =>
      let node := footer_ascend 10 f soup_content p in
      if negb (node =? soup_content)
         && match tag_parent f node with
            | Some g => negb (g =? soup_content)
            | None => false
            end
      then Ok (decompose_all (to_remove f node) f)
      else Ok f
  end.

Definition footer_pass (soup_content : ref) (f : forest) : result forest :=
  for_each footer_patterns
    (fun pattern f =>
       for_each (find_all f soup_content (string_matches pattern))
         (footer_step soup_content) f) f.

(** [re.search(r"(cta|footer|divider).*\.(png|jpg|gif)", src, re.I)] *)
Definition cta_image : Re.regex :=
  Re.seq [Re.alts [Re.lit_i "cta"; Re.lit_i "footer"; Re.lit_i "divider"];
          Re.Star Re.dot; Re.chr ".";
          Re.alts [Re.lit_i "png"; Re.lit_i "jpg"; Re.lit_i "gif"]].

Definition cta_image_step (soup_content img : ref) (f : forest) : result forest :=
  src <- tag_get f img "src" "" ;;
  if Re.search cta_image src then
    match tag_parent f img with
    | Some p =>
        if negb (p =? soup_content) then
          if Str.is_empty (tag_get_text f p) then Ok (decompose p f)
          else Ok (decompose img f)
        else Ok (decompose img f)
    | None => Ok (decompose img f)
    end
  else Ok f.

Definition cta_image_pass (soup_content : ref) (f : forest) : result forest :=
  for_each (find_all f soup_content (named "img")) (cta_image_step soup_content) f.

Definition is_media (n : node) : bool :=
  named "img" n || named "video" n || named "iframe" n.

Definition empty_step (p : ref) (f : forest) : result forest :=
  let text := tag_get_text f p in
  if Str.is_empty text || Py.in_strs text [nbsp; "&nbsp;"] then
    match find_all f p is_media with
    | [] => Ok (decompose p f)
    | _ :: _ => Ok f
    end
  else Ok f.

Definition empty_pass (soup_content : ref) (f : forest) : result forest :=
  for_each (find_all f soup_content (fun n => named "p" n || named "td" n))
    empty_step f.

(** [clean_content(soup_content)], on the tree [f] that holds the container.
    [None] stands for Python's [None]. *)
Definition clean_content (soup_content : option ref) (f : forest) : result markup :=
  match soup_content with
  | None => Ok []
  | Some c =>
      f <- hidden_pass c f ;;
      f <- tracking_pass c f ;;
      f <- rp_pass c f ;;
      f <- link_pass c f ;;
      f <- class_pass c f ;;
      f <- footer_pass c f ;;
      f <- cta_image_pass c f ;;
      f <- empty_pass c f ;;
      Ok (str_of f c)
  end.

(* ------------------------------------------------------------------ *)
(** ** Metadata extraction and [fetch_post] *)

Record post : Type := {
  title : value;
  date : value;
  date_modified : value;
  description : value;
  featured_image : value;
  url : string;
  slug : string;
  authors : list value;
  tags : list value;
  content_html : markup
}.

Definition article_types : list string := ["Article"; "NewsArticle"; "BlogPosting"].

(** [isinstance(item, dict) and item.get("@type") in (...)] *)
Definition is_article (item : value) : bool :=
  match item with
  | VDict items =>
      match Py.assoc "@type" items with
      | Some (VStr t) => Py.in_strs t article_types
      | _ => false
      end
  | _ => false
  end.

(** [window\.__remixContext\s*=\s*(\{.+\})\s*;?\s*$] with [re.DOTALL]; the
    final [\s*] takes the newline that [$] may leave. *)
Definition remix_lhs : string := "window.__remixContext".

Definition remix_re : Re.regex :=
  Re.seq [Re.lit remix_lhs; Re.Star Re.space; Re.chr "="; Re.Star Re.space;
          Re.chr "{"; Re.plus Re.anychar; Re.chr "}";
          Re.Star Re.space; Re.opt (Re.chr ";"); Re.Star Re.space].

(** [match.group(1)] of [re.search]: the match starts at the leftmost
    suffix the pattern matches to the end; the group opens at the brace after
    the assignment and, [.+] being greedy, closes at the last closing brace. *)
Definition remix_group (s : string) : option string :=
  match find (Re.fullmatch remix_re) (Str.suffixes s) with
  | None => None
  | Some t =>
      let rhs :=
        Str.lstrip (Str.drop 1 (Str.lstrip (Str.drop (String.length remix_lhs) t))) in
      match Str.rpartition "}" rhs with
      | Some (l, _) => Some (String.append l "}")
      | None => None
      end
  end.

(** [re.search(r"/p/([^/]+)/?$", path)]: [$] matches at the end or before a
    final newline. *)
Definition not_slash (c : ascii) : bool := negb (Ascii.eqb c "/").

Definition slug_re : Re.regex :=
  Re.seq [Re.lit "/p/"; Re.plus (Re.Class not_slash); Re.opt (Re.chr "/");
          Re.opt (Re.chr newline)].

(** [slug_match.group(1) if slug_match else path.rsplit("/", 1)[-1]] *)
Definition slug_of_path (path : string) : string :=
  match find (Re.fullmatch slug_re) (Str.suffixes path) with
  | Some t => Str.take_while not_slash (Str.drop 3 t)
  | None => Str.rsplit_last "/" path
  end.

(** The name loops of [extract_authors] and [extract_tags]: append the name
    of each entry that has one, until an entry raises. *)
Fixpoint collect_names (name_of : value -> result value) (entries : list value)
  (acc : list value) : list value * option exn :=
  match entries with
  | [] => (acc, None)
  | entry :: rest =>
      match name_of entry with
      | Raise e => (acc, Some e)
      | Ok name =>
          collect_names name_of rest (if Py.truthy name then acc ++ [name] else acc)
      end
  end.

(** The body of the [for key in loader_data] loop at the first key that
    names a post route; the loop breaks after it. *)
Definition names_at_key (list_key : string) (name_of : value -> result value)
  (loader_data key : value) : list value * option exn :=
  match Py.getitem loader_data key with
  | Raise e => ([], Some e)
  | Ok post_data =>
      if Py.is_dict post_data then
        match Py.get post_data "post" post_data with
        | Raise e => ([], Some e)
        | Ok post_obj =>
            match Py.get post_obj list_key (VList []) with
            | Raise e => ([], Some e)
            | Ok entries =>
                match Py.iter entries with
                | Raise e => ([], Some e)
                | Ok entries => collect_names name_of entries []
                end
            end
        end
      else ([], None)
  end.

Fixpoint scan_keys (list_key : string) (name_of : value -> result value)
  (loader_data : value) (keys : list value) : list value * option exn :=
  match keys with
  | [] => ([], None)
  | key :: rest =>
      match Py.str_in "p/$slug" key with
      | Raise e => ([], Some e)
      | Ok true => names_at_key list_key name_of loader_data key
      | Ok false =>
          match Py.str_in "p/" key with
          | Raise e => ([], Some e)
          | Ok true => names_at_key list_key name_of loader_data key
          | Ok false => scan_keys list_key name_of loader_data rest
          end
      end
  end.

(** The [try] body shared by [extract_authors] and [extract_tags]. *)
Definition loader_names (list_key : string) (name_of : value -> result value)
  (remix_ctx : value) : list value * option exn :=
  match Py.get remix_ctx "state" (VDict []) with
  | Raise e => ([], Some e)
  | Ok state =>
      match Py.get state "loaderData" (VDict []) with
      | Raise e => ([], Some e)
      | Ok loader_data =>
          match Py.iter loader_data with
          | Raise e => ([], Some e)
          | Ok keys => scan_keys list_key name_of loader_data keys
          end
      end
  end.

(** [author.get("name") or author.get("display_name")] *)
Definition author_name (author : value) : result value :=
  name <- Py.get author "name" VNone ;;
  if Py.truthy name then Ok name else Py.get author "display_name" VNone.

Definition extract_authors (remix_ctx : value) : result (list value) :=
  Py.except [AttributeError; TypeError]
    (loader_names "authors" author_name remix_ctx).

Definition extract_tags (remix_ctx : value) : result (list value) :=
  Py.except [AttributeError; TypeError]
    (loader_names "content_tags" (fun tag => Py.get tag "name" VNone) remix_ctx).

Definition opt_str (o : option string) : value :=
  match o with
  | Some s => VStr s
  | None => VNone
  end.

(** [get_meta(soup, property_name=..., name=...)]; an argument left out is
    [None], written [""] here: both are false. *)
Definition get_meta (soup : node) (property_name name : string) : value :=
  let content_of tag :=
    match tag with
    | Some t => opt_str (node_attr "content" t)
    | None => VNone
    end in
  if negb (Str.is_empty property_name) then
    content_of (find_in soup (fun t => named "meta" t && attr_is "property" property_name t))
  else if negb (Str.is_empty name) then
    content_of (find_in soup (fun t => named "meta" t && attr_is "name" name t))
  else VNone.

Definition nl : string := String newline EmptyString.

(** [img["src"] = v] *)
Fixpoint set_attr (key v : string) (attrs : list (string * string))
  : list (string * string) :=
  match attrs with
  | [] => [(key, v)]
  | (k, x) :: rest =>
      if String.eqb key k then (k, v) :: rest else (k, x) :: set_attr key v rest
  end.

(** A Python [dict] from URL to local file name; [None] and the empty dict,
    which the program does not tell apart (both are false), are []. *)
Definition image_map_t := list (string * string).

(** [f"{images_prefix}/{image_map[src]}"] *)
Definition local_path (images_prefix file : string) : string :=
  String.append images_prefix (String.append "/" file).

(** The body of [for img in soup.find_all("img")] in
    [rewrite_content_images]. *)
Definition rewrite_img (image_map : image_map_t) (images_prefix : string)
  (img : node) : node :=
  match img with
  | Elem r name attrs cs =>
      match Py.assoc "src" attrs with
      | Some src =>
          if negb (Str.is_empty src) then
            match Py.assoc src image_map with
            | Some file => Elem r name (set_attr "src" (local_path images_prefix file) attrs) cs
            | None => img
            end
          else img
      | None => img
      end
  | Text _ _ _ => img
  end.

(** The loop over all [img] tags: each iteration reads and writes its own
    tag only, so the loop is a map over the tree. *)
Fixpoint rewrite_imgs (image_map : image_map_t) (images_prefix : string)
  (n : node) : node :=
  match n with
  | Text _ _ _ => n
  | Elem r name attrs cs =>
      let n' := Elem r name attrs (map (rewrite_imgs image_map images_prefix) cs) in
      if String.eqb "img" name then rewrite_img image_map images_prefix n' else n'
  end.

(** [rewrite_content_images]; markup is held as the tree it parses to, the
    empty string as the empty forest. *)
Definition rewrite_content_images (content_html : markup) (image_map : image_map_t)
  (images_prefix : string) : markup :=
  match content_html, image_map with
  | [], _ => content_html
  | _, [] => content_html
  | _, _ => map (rewrite_imgs image_map images_prefix) content_html
  end.

(** [fi in image_map]: an unhashable [fi] raises. *)
Definition key_in (fi : value) (image_map : image_map_t) : result (option string) :=
  match fi with
  | VStr s => Ok (Py.assoc s image_map)
  | VList _ | VDict _ => Raise TypeError
  | _ => Ok None
  end.

(** The [frontmatter] dict of [post_to_markdown], in insertion order. *)
Definition frontmatter (post_data : post) (image_map : image_map_t)
  (images_prefix : string) : result (list (string * value)) :=
  let fm := [("title", title post_data)] in
  fm <- (if Py.truthy (date post_data)
         then date_str <- Py.slice_to 10 (date post_data) ;;
              Ok (fm ++ [("date", date_str)])
         else Ok fm) ;;
  let fm := fm ++ [("url", VStr (url post_data)); ("slug", VStr (slug post_data))] in
  let fm := if Py.truthy (description post_data)
            then fm ++ [("description", description post_data)] else fm in
  fm <- (if Py.truthy (featured_image post_data)
         then let fi := featured_image post_data in
              fi <- match image_map with
                    | [] => Ok fi
                    | _ :: _ =>
                        hit <- key_in fi image_map ;;
                        match hit with
                        | Some file => Ok (VStr (local_path images_prefix file))
                        | None => Ok fi
                        end
                    end ;;
              Ok (fm ++ [("featured_image", fi)])
         else Ok fm) ;;
  let fm := if Py.truthy (VList (authors post_data))
            then fm ++ [("authors", VList (authors post_data))] else fm in
  let fm := if Py.truthy (VList (tags post_data))
            then fm ++ [("tags", VList (tags post_data))] else fm in
  Ok fm.

Section Pipeline.

(** [json.loads] on a string: [None] is [json.JSONDecodeError]. *)
Variable json_loads : string -> option value.
(** [urlparse(url).path] *)
Variable urlparse_path : string -> string.
(** [yaml.dump(frontmatter, sort_keys=False, ...)] *)
Variable yaml_dump : list (string * value) -> string.
(** [converter.handle] *)
Variable html2text : markup -> string.

(** The [try] body of [extract_json_ld] for one script block;
    [json.loads(None)] is a [TypeError]. *)
Definition json_ld_block (script : node) : result value :=
  match tag_string script with
  | None => Raise TypeError
  | Some s =>
      match json_loads s with
      | None => Raise JSONDecodeError
      | Some (VList data) =>
          match find is_article data with
          | Some item => Ok item
          | None => Ok (match data with item :: _ => item | [] => VDict [] end)
          end
      | Some data => Ok data
      end
  end.

Fixpoint json_ld_scan (scripts : list node) : result value :=
  match scripts with
  | [] => Ok (VDict [])
  | script :: rest =>
      match json_ld_block script with
      | Ok data => Ok data
      | Raise e =>
          if existsb (exn_eqb e) [JSONDecodeError; TypeError]
          then json_ld_scan rest
          else Raise e
      end
  end.

Definition is_json_ld_script (t : node) : bool :=
  named "script" t && attr_is "type" "application/ld+json" t.

Definition extract_json_ld (soup : node) : result value :=
  json_ld_scan (find_all_in soup is_json_ld_script).

Fixpoint remix_scan (scripts : list node) : value :=
  match scripts with
  | [] => VDict []
  | script :: rest =>
      match tag_string script with
      | Some s =>
          if negb (Str.is_empty s) && Str.contains remix_lhs s then
            match remix_group s with
            | Some group =>
                match json_loads group with
                | Some data => data
                | None => remix_scan rest
                end
            | None => remix_scan rest
            end
          else remix_scan rest
      | None => remix_scan rest
      end
  end.

Definition extract_remix_context (soup : node) : value :=
  remix_scan (find_all_in soup (named "script")).

Definition is_content_div (t : node) : bool :=
  named "div" t && attr_is "id" "content-blocks" t.

(** [fetch_post] from the parsed page on: [soup] is
    [BeautifulSoup(resp.text, "html.parser")]. *)
Definition fetch_post (url : string) (soup : node) : result post :=
  json_ld <- extract_json_ld soup ;;
  let remix_ctx := extract_remix_context soup in
  let path := urlparse_path url in
  let slug := slug_of_path path in
  headline <- Py.get json_ld "headline" VNone ;;
  let title :=
    Py.or_else headline
      (Py.or_else (get_meta soup "og:title" "")
         (match find_in soup (named "title") with
          | Some t => opt_str (tag_string t)
          | None => VStr slug
          end)) in
  date <- Py.get json_ld "datePublished" VNone ;;
  date_modified <- Py.get json_ld "dateModified" VNone ;;
  ld_description <- Py.get json_ld "description" VNone ;;
  let description :=
    Py.or_else ld_description
      (Py.or_else (get_meta soup "og:description" "") (get_meta soup "" "description")) in
  image_data <- Py.get json_ld "image" VNone ;;
  featured_image <- match image_data with
                    | VDict _ => Py.get image_data "url" VNone
                    | VStr _ => Ok image_data
                    | _ => Ok (get_meta soup "og:image" "")
                    end ;;
  authors <- extract_authors remix_ctx ;;
  authors <- match authors with
             | [] =>
                 publisher <- Py.get json_ld "publisher" (VDict []) ;;
                 pub_name <- (if Py.is_dict publisher
                              then Py.get publisher "name" VNone else Ok VNone) ;;
                 let pub_name := if Py.truthy pub_name then pub_name
                                 else get_meta soup "og:site_name" "" in
                 Ok (if Py.truthy pub_name then [pub_name] else authors)
             | _ :: _ => Ok authors
             end ;;
  tags <- extract_tags remix_ctx ;;
  content_html <- match find_in soup is_content_div with
                  | Some content_div => clean_content (Some (node_ref content_div)) [soup]
                  | None => Ok []
                  end ;;
  Ok {| title := title; date := date; date_modified := date_modified;
        description := description; featured_image := featured_image;
        url := url; slug := slug; authors := authors; tags := tags;
        content_html := content_html |}.

(** [post_to_markdown(post_data, image_map, images_prefix)] *)
Definition post_to_markdown (post_data : post) (image_map : image_map_t)
  (images_prefix : string) : result string :=
  fm <- frontmatter post_data image_map images_prefix ;;
  let content_html := content_html post_data in
  let content_html :=
    match image_map with
    | [] => content_html
    | _ :: _ => rewrite_content_images content_html image_map images_prefix
    end in
  let content_md :=
    match content_html with
    | [] => EmptyString
    | _ :: _ => Str.strip (html2text content_html)
    end in
  let fm_str := Str.rstrip (yaml_dump fm) in
  Ok (String.concat "" ["---"; nl; fm_str; nl; "---"; nl; nl; content_md]).

End Pipeline.

(* ------------------------------------------------------------------ *)
(** ** Reference library functions

    The theorems below hold for every [json_loads] and [urlparse_path].
    To run the pipeline on concrete pages, [Ref.json_loads] parses JSON
    whose strings stay below code point 256 and [Ref.urlparse_path] takes the
    path of a URL of the usual [scheme://host/path?query#fragment] shape. *)

Module Ref.

Definition dquote : ascii := ascii_of_nat 34.

Definition is_json_ws (c : ascii) : bool :=
  let n := Str.code c in (n =? 32) || (n =? 9) || (n =? 10) || (n =? 13).

Fixpoint skip_ws (s : string) : string :=
  match s with
  | String c s' => if is_json_ws c then skip_ws s' else s
  | EmptyString => s
  end.

Definition hex_digit (c : ascii) : option nat :=
  let n := Str.code c in
  if (48 <=? n) && (n <=? 57) then Some (n - 48)
  else if (65 <=? n) && (n <=? 70) then Some (n - 55)
  else if (97 <=? n) && (n <=? 102) then Some (n - 87)
  else None.

(** The character an escape letter stands for. *)
Definition escape (e : ascii) : option ascii :=
  if Ascii.eqb e dquote then Some dquote
  else if Ascii.eqb e "\" then Some "\"%char
  else if Ascii.eqb e "/" then Some "/"%char
  else if Ascii.eqb e "b" then Some (ascii_of_nat 8)
  else if Ascii.eqb e "f" then Some (ascii_of_nat 12)
  else if Ascii.eqb e "n" then Some (ascii_of_nat 10)
  else if Ascii.eqb e "r" then Some (ascii_of_nat 13)
  else if Ascii.eqb e "t" then Some (ascii_of_nat 9)
  else None.

Definition cons_body (c : ascii) (r : option (string * string))
  : option (string * string) :=
  match r with
  | Some (t, rest) => Some (String c t, rest)
  | None => None
  end.

(** The characters of a string literal after its opening quote, and what
    follows the closing quote. *)
Fixpoint string_body (s : string) : option (string * string) :=
  match s with
  | EmptyString => None
  | String c rest =>
      if Ascii.eqb c dquote then Some (EmptyString, rest)
      else if Ascii.eqb c "\" then
        match rest with
        | String e rest' =>
            if Ascii.eqb e "u" then
              match rest' with
              | String a (String b (String c1 (String d rest''))) =>
                  match hex_digit a, hex_digit b, hex_digit c1, hex_digit d with
                  | Some 0, Some 0, Some h, Some l =>
                      cons_body (ascii_of_nat (16 * h + l)) (string_body rest'')
                  | _, _, _, _ => None
                  end
              | _ => None
              end
            else
              match escape e with
              | Some x => cons_body x (string_body rest')
              | None => None
              end
        | EmptyString => None
        end
      else if Str.code c <? 32 then None
      else cons_body c (string_body rest)
  end.

Fixpoint digits_value (s : string) (acc : Z) : Z :=
  match s with
  | String c s' => digits_value s' (10 * acc + Z.of_nat (Str.code c - 48))%Z
  | EmptyString => acc
  end.

Definition all_zero (s : string) : bool :=
  forallb (fun c => Ascii.eqb c "0") (list_ascii_of_string s).

(** The digits of a [.digits] part, when there is one. *)
Definition fraction (s : string) : option string :=
  match s with
  | String c r => if Ascii.eqb c "." then Some (Str.take_while Str.is_digit r) else None
  | EmptyString => None
  end.

(** The length and digits of an [e[+-]digits] part, when there is one. *)
Definition exponent (s : string) : option (nat * string) :=
  match s with
  | String e r =>
      if Ascii.eqb (Str.lower e) "e" then
        let sign := match r with
                    | String c _ => if Ascii.eqb c "+" || Ascii.eqb c "-" then 1 else 0
                    | EmptyString => 0
                    end in
        let ds := Str.take_while Str.is_digit (Str.drop sign r) in
        Some (1 + sign + String.length ds, ds)
      else None
  | EmptyString => None
  end.

(** A number literal: [-? int frac? exp?], no leading zeros. *)
Definition number (s : string) : option (value * string) :=
  let neg := Str.startswith "-" s in
  let s1 := if neg then Str.drop 1 s else s in
  let int := Str.take_while Str.is_digit s1 in
  let s2 := Str.drop (String.length int) s1 in
  if Str.is_empty int then None
  else if (1 <? String.length int) && Str.startswith "0" int then None
  else
    let frac := fraction s2 in
    let s3 := match frac with
              | Some d => Str.drop (1 + String.length d) s2
              | None => s2
              end in
    let exp := exponent s3 in
    match frac, exp with
    | Some EmptyString, _ => None
    | _, Some (_, EmptyString) => None
    | None, None =>
        let z := digits_value int 0 in
        Some (VInt (if neg then Z.opp z else z), s3)
    | _, _ =>
        let s4 := match exp with Some (k, _) => Str.drop k s3 | None => s3 end in
        let literal := Str.take (String.length s - String.length s4) s in
        Some (VFloat (all_zero int && match frac with Some d => all_zero d | None => true end)
                literal, s4)
    end.

(** [d[k] = v] *)
Fixpoint dict_set (k : string) (v : value) (items : list (string * value))
  : list (string * value) :=
  match items with
  | [] => [(k, v)]
  | (k', x) :: rest =>
      if String.eqb k k' then (k', v) :: rest else (k', x) :: dict_set k v rest
  end.

Definition starts_with_char (c : ascii) (s : string) : bool :=
  match s with
  | String c' _ => Ascii.eqb c c'
  | EmptyString => false
  end.

Fixpoint parse_value (fuel : nat) (s : string) {struct fuel} : option (value * string) :=
  match fuel with
  | 0 => None
  | S fuel' =>
      match skip_ws s with
      | EmptyString => None
      | String c rest as s1 =>
          if Ascii.eqb c "n" then
            if Str.startswith "null" s1 then Some (VNone, Str.drop 4 s1) else None
          else if Ascii.eqb c "t" then
            if Str.startswith "true" s1 then Some (VBool true, Str.drop 4 s1) else None
          else if Ascii.eqb c "f" then
            if Str.startswith "false" s1 then Some (VBool false, Str.drop 5 s1) else None
          else if Ascii.eqb c dquote then
            match string_body rest with
            | Some (t, r) => Some (VStr t, r)
            | None => None
            end
          else if Ascii.eqb c "[" then
            if starts_with_char "]" (skip_ws rest)
            then Some (VList [], Str.drop 1 (skip_ws rest))
            else
              match parse_items fuel' rest with
              | Some (xs, r) => Some (VList xs, r)
              | None => None
              end
          else if Ascii.eqb c "{" then
            if starts_with_char "}" (skip_ws rest)
            then Some (VDict [], Str.drop 1 (skip_ws rest))
            else
              match parse_members fuel' rest [] with
              | Some (items, r) => Some (VDict items, r)
              | None => None
              end
          else number s1
      end
  end
with parse_items (fuel : nat) (s : string) {struct fuel} : option (list value * string) :=
  match fuel with
  | 0 => None
  | S fuel' =>
      match parse_value fuel' s with
      | None => None
      | Some (v, r) =>
          let r1 := skip_ws r in
          if starts_with_char "," r1 then
            match parse_items fuel' (Str.drop 1 r1) with
            | Some (vs, r2) => Some (v :: vs, r2)
            | None => None
            end
          else if starts_with_char "]" r1 then Some ([v], Str.drop 1 r1)
          else None
      end
  end
with parse_members (fuel : nat) (s : string) (acc : list (string * value)) {struct fuel}
  : option (list (string * value) * string) :=
  match fuel with
  | 0 => None
  | S fuel' =>
      let s1 := skip_ws s in
      if starts_with_char dquote s1 then
        match string_body (Str.drop 1 s1) with
        | None => None
        | Some (k, r) =>
            let r1 := skip_ws r in
            if starts_with_char ":" r1 then
              match parse_value fuel' (Str.drop 1 r1) with
              | None => None
              | Some (v, r2) =>
                  let acc := dict_set k v acc in
                  let r3 := skip_ws r2 in
                  if starts_with_char "," r3 then parse_members fuel' (Str.drop 1 r3) acc
                  else if starts_with_char "}" r3 then Some (acc, Str.drop 1 r3)
                  else None
              end
            else None
        end
      else None
  end.

Definition json_loads (s : string) : option value :=
  match parse_value (2 * String.length s + 2) s with
  | Some (v, r) => if Str.is_empty (skip_ws r) then Some v else None
  | None => None
  end.

Definition is_url_delim (c : ascii) : bool :=
  Ascii.eqb c "/" || Ascii.eqb c "?" || Ascii.eqb c "#".

Definition not_url_delim (c : ascii) : bool := negb (is_url_delim c).

Definition not_path_end (c : ascii) : bool :=
  negb (Ascii.eqb c "?" || Ascii.eqb c "#").

(** What follows [scheme://], when the URL starts with a scheme. *)
Fixpoint after_scheme (s : string) : option string :=
  match s with
  | String c s' =>
      if Ascii.eqb c ":" then
        if Str.startswith "//" s' then Some (Str.drop 2 s') else None
      else if is_url_delim c then None
      else after_scheme s'
  | EmptyString => None
  end.

Definition urlparse_path (url : string) : string :=
  match after_scheme url with
  | Some rest =>
      let no_host := Str.drop (String.length (Str.take_while not_url_delim rest)) rest in
      Str.take_while not_path_end no_host
  | None => Str.take_while not_path_end url
  end.

End Ref.

(* ------------------------------------------------------------------ *)
(** ** Pages and records used in the statements *)

(** A page none of whose elements is a script, a meta tag, a title or the
    content container: every metadata source and the body are absent. *)
Definition bare (soup : node) : bool :=
  forallb (fun n => negb (named "script" n || named "meta" n
                          || named "title" n || is_content_div n))
    (descendants soup).

(** The record that holds nothing but what the URL gives. *)
Definition minimal_post (url slug : string) : post :=
  {| title := VStr slug; date := VNone; date_modified := VNone;
     description := VNone; featured_image := VNone;
     url := url; slug := slug; authors := []; tags := [];
     content_html := [] |}.

(** The exceptions an [except (AttributeError, TypeError)] clause takes. *)
Definition caught (e : exn) : Prop := e = AttributeError \/ e = TypeError.

Module Sample.

(** [s] between double quotes. *)
Definition q (s : string) : string :=
  String Ref.dquote (String.append s (String Ref.dquote EmptyString)).

Definition cat (parts : list string) : string := String.concat "" parts.

(** [<script type="application/ld+json">text</script>] *)
Definition ld_script (r : ref) (text : string) : node :=
  Elem r "script" [("type", "application/ld+json")] [Text (S r) Script text].

(** [<html><head>head</head><body>body</body></html>] under the soup root. *)
Definition page (head body : list node) : node :=
  Elem 0 "[document]" []
    [Elem 1 "html" [] [Elem 2 "head" [] head; Elem 3 "body" [] body]].

Definition post_url : string := "https://example.com/p/hello".

(** A page whose only JSON-LD block is the number 42. *)
Definition scalar_page : node := page [ld_script 10 "42"] [].

(** A page with an empty [<title></title>] and no other source. *)
Definition empty_title_page : node := page [Elem 10 "title" [] []] [].

(** [[{"@type": "Person"}, {"@type": "BlogPosting", "headline": "Hello"}]] *)
Definition graph_text : string :=
  cat ["[{"; q "@type"; ": "; q "Person"; "}, {"; q "@type"; ": "; q "BlogPosting";
       ", "; q "headline"; ": "; q "Hello"; "}]"].

Definition person : value := VDict [("@type", VStr "Person")].

Definition blog_posting : value :=
  VDict [("@type", VStr "BlogPosting"); ("headline", VStr "Hello")].

(** A block that is not JSON, then the graph above. *)
Definition broken_script : node := ld_script 10 "{not json".
Definition graph_script : node := ld_script 12 graph_text.

End Sample.

Module Sample2.

(** A page whose JSON-LD block is the list [[1, 2]], with a paragraph and no
    content container. *)
Definition number_list_page : node :=
  Sample.page [Sample.ld_script 10 "[1, 2]"]
    [Elem 20 "p" [] [Text 21 NavigableString "Body"]].

(** A page without any metadata source and without a content container. *)
Definition bare_page : node :=
  Sample.page [] [Elem 20 "p" [] [Text 21 NavigableString "Body"]].

End Sample2.

(* ------------------------------------------------------------------ *)
(** ** The front matter and the image references, as the specification
    words them *)

(** A field of the data model that is a string or absent. *)
Definition text_or_absent (v : value) : Prop :=
  match v with
  | VNone | VStr _ => True
  | _ => False
  end.

(** A field is present when it holds something: not [None], not empty. *)
Definition present (v : value) : bool := Py.truthy v.

(** The calendar-date portion of a date string. *)
Definition first10 (v : value) : value :=
  match v with
  | VStr s => VStr (Str.take 10 s)
  | _ => v
  end.

(** An image URL rewritten through the mapping when it is a key of it. *)
Definition through_map (image_map : image_map_t) (images_prefix : string)
  (v : value) : value :=
  match v with
  | VStr s =>
      match Py.assoc s image_map with
      | Some file => VStr (local_path images_prefix file)
      | None => v
      end
  | _ => v
  end.

Definition key_order : list string :=
  ["title"; "date"; "url"; "slug"; "description"; "featured_image"; "authors"; "tags"].

Definition optional_keys : list string :=
  ["date"; "description"; "featured_image"; "authors"; "tags"].

(** Which keys the front matter of a record has. *)
Definition included (p : post) (key : string) : bool :=
  if String.eqb key "date" then present (date p)
  else if String.eqb key "description" then present (description p)
  else if String.eqb key "featured_image" then present (featured_image p)
  else if String.eqb key "authors" then present (VList (authors p))
  else if String.eqb key "tags" then present (VList (tags p))
  else true.

Definition spec_frontmatter (p : post) (image_map : image_map_t)
  (images_prefix : string) : list (string * value) :=
  [("title", title p)]
  ++ (if present (date p) then [("date", first10 (date p))] else [])
  ++ [("url", VStr (url p)); ("slug", VStr (slug p))]
  ++ (if present (description p) then [("description", description p)] else [])
  ++ (if present (featured_image p)
      then [("featured_image", through_map image_map images_prefix (featured_image p))]
      else [])
  ++ (if present (VList (authors p)) then [("authors", VList (authors p))] else [])
  ++ (if present (VList (tags p)) then [("tags", VList (tags p))] else []).

(** A node without what is below it. *)
Definition shallow (n : node) : node :=
  match n with
  | Text _ _ _ => n
  | Elem r name attrs _ => Elem r name attrs []
  end.

(** The [src] of every image of a body, in document order. *)
Definition src_of (n : node) : list string :=
  if named "img" n then
    match node_attr "src" n with
    | Some src => [src]
    | None => []
    end
  else [].

Definition image_srcs (body : markup) : list string :=
  flat_map src_of (nodes body).

(** The reference an image gets according to the specification: the local
    path when its source is a key of the mapping, else the source itself. *)
Definition claimed_src (image_map : image_map_t) (images_prefix src : string) : string :=
  match Py.assoc src image_map with
  | Some file => local_path images_prefix file
  | None => src
  end.

(** The same, an empty source being left alone. *)
Definition rewritten_src (image_map : image_map_t) (images_prefix src : string) : string :=
  if Str.is_empty src then src else claimed_src image_map images_prefix src.

(** What the loop of [rewrite_content_images] does to one node. *)
Definition rewritten_node (image_map : image_map_t) (images_prefix : string)
  (n : node) : node :=
  if named "img" n then rewrite_img image_map images_prefix n else n.

Module Sample3.

Definition hero : string := "https://cdn.example.com/hero.png".

Definition full_post : post :=
  {| title := VStr "Hello";
     date := VStr "2024-03-01T12:00:00Z";
     date_modified := VNone;
     description := VStr "A note";
     featured_image := VStr hero;
     url := Sample.post_url;
     slug := "hello";
     authors := [VStr "Ann"];
     tags := [VStr "news"];
     content_html := [] |}.

Definition image_map : image_map_t := [(hero, "hero.png")].

(** [<p>Hi</p><img src=hero><img src="https://other.example/x.png"><img src="">] *)
Definition body : markup :=
  [Elem 1 "div" []
     [Elem 2 "p" [] [Text 3 NavigableString "Hi"];
      Elem 4 "img" [("src", hero); ("alt", "hero")] [];
      Elem 5 "img" [("src", "https://other.example/x.png")] [];
      Elem 6 "img" [("src", "")] []]].

(** A mapping that has the empty string among its keys. *)
Definition odd_map : image_map_t := [("", "blank.png")].

End Sample3.

(* ------------------------------------------------------------------ *)
(** ** Markup as a token stream, and what a removal leaves *)

(** The markup of a tree, token by token: what [str] prints is determined
    by this stream. *)
Inductive token : Type :=
| Open (r : ref) (name : string) (attrs : list (string * string))
| Chars (r : ref) (k : string_kind) (s : string)
| Close (r : ref).

Fixpoint tokens (n : node) : list token :=
  match n with
  | Text r k s => [Chars r k s]
  | Elem r name attrs cs => Open r name attrs :: flat_map tokens cs ++ [Close r]
  end.

Definition markup_tokens (f : forest) : list token := flat_map tokens f.

(** The nodes of a tree without what is below them, in document order. *)
Definition labels (f : forest) : list node := map shallow (nodes f).

(** Removing several objects at once. *)
Definition kept (rs : list ref) (n : node) : bool :=
  negb (existsb (fun r => has_ref r n) rs).

Fixpoint prune_set (rs : list ref) (n : node) : node :=
  match n with
  | Text _ _ _ => n
  | Elem r name attrs cs => Elem r name attrs (filter (kept rs) (map (prune_set rs) cs))
  end.

Definition decompose_set (rs : list ref) (f : forest) : forest :=
  filter (kept rs) (map (prune_set rs) f).

(** [seg] is a run of consecutive siblings somewhere in [f]. *)
Inductive seg_at (seg : list node) : forest -> Prop :=
| seg_top (l1 l2 : list node) : seg_at seg (l1 ++ seg ++ l2)
| seg_under (l1 l2 : list node) (r : ref) (name : string)
    (attrs : list (string * string)) (cs : list node) :
    seg_at seg cs -> seg_at seg (l1 ++ Elem r name attrs cs :: l2).

(** [x.parent.parent...], [k] times. *)
Fixpoint ancestor (k : nat) (f : forest) (r : ref) : option ref :=
  match k with
  | 0 => Some r
  | S k' =>
      match tag_parent f r with
      | Some g => ancestor k' f g
      | None => None
      end
  end.

(** What the parser guarantees: objects are distinct, and an [img] tag,
    being a void element, has no contents. *)
Definition distinct_refs (f : forest) : Prop := NoDup (refs f).

Definition childless_imgs (f : forest) : Prop :=
  forall n, In n (nodes f) -> named "img" n = true -> contents n = [].

(** [tag.get(key, "")] on a tag object. *)
Definition attr_or_empty (key : string) (n : node) : string :=
  match node_attr key n with
  | Some v => v
  | None => EmptyString
  end.

(** The images the tracking-pixel pass deletes. *)
Definition is_tracking_pixel (n : node) : bool :=
  tiny (attr_or_empty "width" n) (attr_or_empty "height" n)
  || tracked (attr_or_empty "src" n).

(** The parser never builds an empty string object. *)
Definition no_empty_strings (f : forest) : Prop :=
  forall n, In n (nodes f) -> node_truthy n = true.

Fixpoint distinct (l : list nat) : bool :=
  match l with
  | [] => true
  | x :: rest => negb (existsb (Nat.eqb x) rest) && distinct rest
  end.

(** The boilerplate-link step as the specification words it: up to 3
    levels while the ancestor's text is under 200 characters, then the
    reached block goes if its text is under 300 characters, else the
    anchor. *)
Fixpoint spec_link_ascend (n : nat) (f : forest) (parent : ref) : ref :=
  match n with
  | 0 => parent
  | S n' =>
      match tag_parent f parent with
      | Some g =>
          if String.length (tag_get_text f parent) <? 200
          then spec_link_ascend n' f g
          else parent
      | None => parent
      end
  end.

Definition spec_link_step (a : ref) (f : forest) : forest :=
  match tag_parent f a with
  | Some p =>
      let block := spec_link_ascend 3 f p in
      if String.length (tag_get_text f block) <? 300
      then decompose block f
      else decompose a f
  | None => decompose a f
  end.

Module Sample4.

Definition footer_text : string :=
  "Whenever you're ready, there are 3 ways I can help you".

Definition container (r : ref) (cs : list node) : node :=
  Elem r "div" [("id", "content-blocks")] cs.

Definition para (r : ref) (s : string) : node :=
  Elem r "p" [] [Text (S r) NavigableString s].

(** [<div id="content-blocks"><p>Article</p><p>Whenever ...</p><p>More</p></div>] *)
Definition flat_doc : forest :=
  [Elem 0 "[document]" []
     [container 1 [para 2 "Article"; para 4 footer_text; para 6 "More"]]].

(** [<div id="content-blocks"><div><p>Article</p><div><p>Whenever ...</p></div>
    <p>More</p>tail</div></div>] *)
Definition nested_doc : forest :=
  [Elem 0 "[document]" []
     [container 1
        [Elem 2 "div" []
           [para 3 "Article";
            Elem 5 "div" [] [para 6 footer_text];
            para 8 "More";
            Text 10 NavigableString "tail"]]]].

Definition nested_doc_cleaned : forest :=
  [Elem 0 "[document]" [] [container 1 [Elem 2 "div" [] [para 3 "Article"]]]].

Fixpoint repeat_string (n : nat) (s : string) : string :=
  match n with
  | 0 => EmptyString
  | S n' => String.append s (repeat_string n' s)
  end.

(** 320 characters of prose. *)
Definition prose : string := repeat_string 40 "lorem ip".

Definition subscribe (r : ref) : node :=
  Elem r "a" [("href", "https://example.com/subscribe")]
    [Text (S r) NavigableString "Subscribe now"].

(** [<div id="content-blocks"><p>prose</p><p>Enjoying this? <a>Subscribe now</a>
    </p></div>] *)
Definition article_doc : forest :=
  [Elem 0 "[document]" []
     [container 1
        [para 2 prose;
         Elem 4 "p" [] [Text 7 NavigableString "Enjoying this? "; subscribe 5]]]].

(** [<div id="content-blocks"><div><p>prose <a>Subscribe now</a></p></div></div>] *)
Definition inline_doc : forest :=
  [Elem 0 "[document]" []
     [container 1
        [Elem 2 "div" []
           [Elem 3 "p" [] [Text 4 NavigableString prose; subscribe 5]]]]].

(** [<div id="content-blocks"><div><p>Hello</p><div><p><a>Subscribe now</a></p>
    </div></div></div>] *)
Definition promo_doc : forest :=
  [Elem 0 "[document]" []
     [container 1
        [Elem 2 "div" []
           [para 3 "Hello";
            Elem 7 "div" [] [Elem 8 "p" [] [subscribe 5]]]]]].

(** [<div id="content-blocks"><p>Photo</p><img src=".../o/photo.png" width="600"
    height="400"><img src="https://cdn.example.com/a.png"><img width="1"></div>] *)
Definition photo_doc : forest :=
  [Elem 0 "[document]" []
     [container 1
        [para 2 "Photo";
         Elem 4 "img" [("src", "https://cdn.example.com/o/photo.png");
                       ("width", "600"); ("height", "400")] [];
         Elem 5 "img" [("src", "https://cdn.example.com/a.png")] [];
         Elem 6 "img" [("width", "1")] []]]].

End Sample4.

(** The nodes a token stream opens, without their contents. *)
Definition opened (ts : list token) : list node :=
  flat_map (fun t => match t with
                     | Open r name attrs => [Elem r name attrs []]
                     | Chars r k s => [Text r k s]
                     | Close _ => []
                     end) ts.

(** Whether the tracking-pixel pass deletes the node: an image of the
    container that is tiny or whose source holds a tracking marker. *)
Definition tracking_deleted (imgs : list ref) (n : node) : bool :=
  existsb (fun r => has_ref r n) imgs && is_tracking_pixel n.

(** A path segment: not empty, without slash or newline. *)
Definition is_segment (seg : string) : bool :=
  negb (Str.is_empty seg)
  && forallb (fun c => not_slash c && negb (Ascii.eqb c newline))
       (list_ascii_of_string seg).

Definition no_slash (s : string) : bool :=
  forallb not_slash (list_ascii_of_string s).

(* ------------------------------------------------------------------ *)
(** ** The sitemap: [parse_sitemap_urls] and [discover_post_urls] *)

(** An [xml.etree.ElementTree.Element]: its tag, its text ([None] when the
    element has none) and its children, which is all the program reads. *)
#[warnings="-register-all"] Inductive xml : Type :=
| XElem (tag : string) (text : option string) (children : list xml).

Definition xml_tag (e : xml) : string :=
  match e with XElem tag _ _ => tag end.

Definition xml_text (e : xml) : option string :=
  match e with XElem _ text _ => text end.

Definition xml_children (e : xml) : list xml :=
  match e with XElem _ _ children => children end.

Fixpoint xml_preorder (e : xml) : list xml :=
  match e with
  | XElem _ _ children => e :: flat_map xml_preorder children
  end.

(** [root.iter(tag)]: the element itself and everything below it, in
    document order, that carries the tag. *)
Definition xml_iter (tag : string) (root : xml) : list xml :=
  filter (fun e => String.eqb tag (xml_tag e)) (xml_preorder root).

(** [elem.findtext(tag)]: the text of the first child with the tag, the
    empty string when that child has no text, [None] without such a child. *)
Definition findtext (tag : string) (e : xml) : option string :=
  match find (fun c => String.eqb tag (xml_tag c)) (xml_children e) with
  | Some c => Some (match xml_text c with Some t => t | None => EmptyString end)
  | None => None
  end.

(** The length of the longest prefix of [s] that the pattern matches. *)
Fixpoint match_prefix (r : Re.regex) (s : string) : option nat :=
  match s with
  | EmptyString => if Re.nullable r then Some 0 else None
  | String c s' =>
      match match_prefix (Re.deriv c r) s' with
      | Some n => Some (S n)
      | None => if Re.nullable r then Some 0 else None
      end
  end.

(** [re.sub(r, repl, s, count=1)] with the empty string for [repl], for a
    pattern that matches at most one prefix of any string and never the
    empty one: the leftmost match is cut out. *)
Fixpoint delete_first (r : Re.regex) (s : string) : string :=
  match match_prefix r s with
  | Some n => Str.drop n s
  | None =>
      match s with
      | EmptyString => EmptyString
      | String c s' => String c (delete_first r s')
      end
  end.

(** Whether the pattern matches some prefix of [s]. *)
Definition starts_match (r : Re.regex) (s : string) : bool :=
  match match_prefix r s with
  | Some _ => true
  | None => false
  end.

Definition not_dquote (c : ascii) : bool := negb (Ascii.eqb c Ref.dquote).

(** The pattern of the namespace declaration: white space, [xmlns=], and
    between double quotes one or more characters other than the quote. *)
Definition xmlns_re : Re.regex :=
  Re.seq [Re.plus Re.space; Re.lit "xmlns="; Re.chr Ref.dquote;
          Re.plus (Re.Class not_dquote); Re.chr Ref.dquote].

(** A tuple [(url, lastmod)]; the second component may be [None]. *)
Definition sitemap_entry : Type := string * option string.

(** The body of [for url_elem in root.iter("url")]. *)
Definition entry_of (url_elem : xml) : list sitemap_entry :=
  match findtext "loc" url_elem with
  | Some loc =>
      if negb (Str.is_empty loc) then
        [(Str.strip loc,
          match findtext "lastmod" url_elem with
          | Some lastmod =>
              if negb (Str.is_empty lastmod) then Some (Str.strip lastmod) else None
          | None => None
          end)]
      else []
  | None => []
  end.

Section Sitemap.

(** [ET.fromstring]: [None] is [ParseError]. *)
Variable fromstring : string -> option xml.

(** [parse_sitemap_urls]; [None] when the parser raises. *)
Definition parse_sitemap_urls (xml_text : string) : option (list sitemap_entry) :=
  match fromstring (delete_first xmlns_re xml_text) with
  | Some root => Some (flat_map entry_of (xml_iter "url" root))
  | None => None
  end.

End Sitemap.

Module Sample5.

(** [<urlset><url><loc> https://example.com/p/hello </loc>
    <lastmod>2024-03-01</lastmod></url>
    <url><loc>https://example.com/about</loc></url></urlset>] *)
Definition urlset : xml :=
  XElem "urlset" None
    [XElem "url" None
       [XElem "loc" (Some " https://example.com/p/hello ") [];
        XElem "lastmod" (Some "2024-03-01") []];
     XElem "url" None [XElem "loc" (Some "https://example.com/about") []]].

(** [<urlset xmlns="http://www.sitemaps.org/schemas/sitemap/0.9"
    xmlns:xhtml="http://www.w3.org/1999/xhtml">], in three parts. *)
Definition opening : string := "<urlset".

Definition declaration : string :=
  String.append " xmlns=" (Sample.q "http://www.sitemaps.org/schemas/sitemap/0.9").

Definition rest : string :=
  String.append " xmlns:xhtml=" (String.append (Sample.q "http://www.w3.org/1999/xhtml") ">").

End Sample5.

(** [re.search(r"/p/[^/]+/?$", url)]: the pattern of the slug, without its
    group. *)
Definition is_post_url (url : string) : bool :=
  existsb (Re.fullmatch slug_re) (Str.suffixes url).

(** [x[1] or "9999"] *)
Definition lastmod_key (e : sitemap_entry) : string :=
  match snd e with
  | Some lastmod => if Str.is_empty lastmod then "9999" else lastmod
  | None => "9999"
  end.

(** [key(a) < key(b)] for the key [(x[1] or "9999", x[0])]: tuples compare
    item by item, strings code point by code point. *)
Definition entry_lt (a b : sitemap_entry) : bool :=
  match String.compare (lastmod_key a) (lastmod_key b) with
  | Lt => true
  | Eq => String.ltb (fst a) (fst b)
  | Gt => false
  end.

(** [list.sort]: the stable sort.  An element goes before the first one of
    the sorted rest that is not smaller than it. *)
Fixpoint insert_sorted {A} (lt : A -> A -> bool) (x : A) (l : list A) : list A :=
  match l with
  | [] => [x]
  | y :: rest => if lt y x then y :: insert_sorted lt x rest else x :: l
  end.

Definition sort_by {A} (lt : A -> A -> bool) (l : list A) : list A :=
  fold_right (insert_sorted lt) [] l.

Definition discover_post_urls (sitemap_urls : list sitemap_entry) : list sitemap_entry :=
  sort_by entry_lt (filter (fun e => is_post_url (fst e)) sitemap_urls).

(** What may follow the last segment of a post URL: nothing, a slash, and
    after either a newline, before which [$] still matches. *)
Definition post_tails : list string :=
  [EmptyString; "/"; nl; String "/" nl].

(** [a] may stand before [b]: the key of [b] is not below the key of [a]. *)
Definition in_order (a b : sitemap_entry) : Prop := entry_lt b a = false.

(** An entry without a date: [lastmod] is [None] or empty. *)
Definition undated (e : sitemap_entry) : bool :=
  match snd e with
  | Some lastmod => Str.is_empty lastmod
  | None => true
  end.

(* ------------------------------------------------------------------ *)
(** ** Image handling: [collect_image_urls] and [download_images] *)

(** The [src] an inline image contributes: [src and src.startswith("http")]. *)
Definition remote_src (img : node) : list value :=
  match node_attr "src" img with
  | Some src =>
      if negb (Str.is_empty src) && Str.startswith "http" src then [VStr src] else []
  | None => []
  end.

Definition collect_image_urls (post_data : post) : list value :=
  let urls := if Py.truthy (featured_image post_data)
              then [featured_image post_data] else [] in
  match content_html post_data with
  | [] => urls
  | body => urls ++ flat_map remote_src (filter (named "img") (nodes body))
  end.

Module Sample6.

(** A record with the body of [Sample3], and a map that has every remote
    image of it. *)
Definition illustrated_post : post :=
  {| title := VStr "Hello";
     date := VStr "2024-03-01T12:00:00Z";
     date_modified := VNone;
     description := VNone;
     featured_image := VStr Sample3.hero;
     url := Sample.post_url;
     slug := "hello";
     authors := [];
     tags := [];
     content_html := Sample3.body |}.

Definition full_map : image_map_t :=
  [(Sample3.hero, "hero.png"); ("https://other.example/x.png", "x.png")].

End Sample6.

(** [os.path.splitext] of [posixpath]: the extension starts at the last dot
    of the last path component, unless only dots come before it there. *)
Definition splitext (p : string) : string * string :=
  let '(head, base) := match Str.rpartition "/" p with
                       | Some (dir, base) => (String.append dir "/", base)
                       | None => (EmptyString, p)
                       end in
  match Str.rpartition "." base with
  | Some (stem, e) =>
      if existsb (fun c => negb (Ascii.eqb c ".")) (list_ascii_of_string stem)
      then (String.append head stem, String "." e)
      else (p, EmptyString)
  | None => (p, EmptyString)
  end.

(** [os.path.join(a, b)] of [posixpath] *)
Definition path_join (a b : string) : string :=
  if Str.startswith "/" b then b
  else if Str.is_empty a || Str.startswith "/" (Str.drop (String.length a - 1) a)
       then String.append a b
       else String.append a (String.append "/" b).

(** [str(n)] *)
Definition str_of_nat (n : nat) : string :=
  NilEmpty.string_of_uint (Nat.to_uint n).

(** [f"{name}-{counter}{ext}"] *)
Definition numbered (name : string) (counter : nat) (ext : string) : string :=
  String.append name (String.append "-" (String.append (str_of_nat counter) ext)).

(** [while f"{name}-{counter}{ext}" in used_filenames: counter += 1], for at
    most [fuel] tests. *)
Fixpoint free_counter (fuel : nat) (used_filenames : list string)
  (name ext : string) (counter : nat) : option nat :=
  match fuel with
  | 0 => None
  | S fuel' =>
      if Py.in_strs (numbered name counter ext) used_filenames
      then free_counter fuel' used_filenames name ext (S counter)
      else Some counter
  end.

(** The collision handling: a name already used gets the first free
    counter.  One test more than there are used names is enough. *)
Definition unique_filename (used_filenames : list string) (filename : string)
  : option string :=
  if Py.in_strs filename used_filenames then
    let '(name, ext) := splitext filename in
    match free_counter (S (List.length used_filenames)) used_filenames name ext 1 with
    | Some counter => Some (numbered name counter ext)
    | None => None
    end
  else Some filename.

(** What a download attempt comes to: the file is written; the request
    raises a [RequestException] before the file is opened; or it raises one
    while the file is being written. *)
Variant response : Type := Saved | Refused | Broken.

(** The effects of [download_images], in the order they happen. *)
Variant event : Type :=
| Request (url : string)
| OpenFile (filepath : string)
| Sleep.

Record download_state : Type := {
  result_map : image_map_t;
  used_filenames : list string;
  log : list event
}.

Definition is_request (e : event) : bool :=
  match e with Request _ => true | _ => false end.

Definition opens (filepath : string) (e : event) : bool :=
  match e with OpenFile p => String.eqb filepath p | _ => false end.

(** The paths opened for writing. *)
Definition opened_paths (l : list event) : list string :=
  flat_map (fun e => match e with OpenFile p => [p] | _ => [] end) l.

Definition requested_urls (l : list event) : list string :=
  flat_map (fun e => match e with Request u => [u] | _ => [] end) l.

Section Download.

(** [unquote] of [urllib.parse] *)
Variable unquote : string -> string.
Variable urlparse_path : string -> string.
(** [os.path.exists] when the function is entered. *)
Variable exists_before : string -> bool.
(** What the n-th request of the run, for the given URL, comes to. *)
Variable get : nat -> string -> response.

(** The file name derived from the URL, with an extension. *)
Definition base_filename (url : string) : string :=
  let parsed_path := unquote (urlparse_path url) in
  let filename := Str.rsplit_last "/" parsed_path in
  let filename := if Str.is_empty filename || String.eqb filename "/"
                  then "image" else filename in
  if negb (Str.contains "." filename) then String.append filename ".jpg"
  else filename.

(** [os.path.exists(filepath)] during the run. *)
Definition path_exists (l : list event) (filepath : string) : bool :=
  exists_before filepath || existsb (opens filepath) l.

(** One iteration of [for url in image_urls]. *)
Definition download_one (images_dir url : string) (st : download_state)
  : option download_state :=
  match Py.assoc url (result_map st) with
  | Some _ => Some st
  | None =>
      match unique_filename (used_filenames st) (base_filename url) with
      | None => None
      | Some filename =>
          let used := filename :: used_filenames st in
          let filepath := path_join images_dir filename in
          let mapped := result_map st ++ [(url, filename)] in
          if path_exists (log st) filepath then
            Some {| result_map := mapped; used_filenames := used; log := log st |}
          else
            match get (List.length (filter is_request (log st))) url with
            | Saved =>
                Some {| result_map := mapped; used_filenames := used;
                        log := log st ++ [Request url; OpenFile filepath; Sleep] |}
            | Refused =>
                Some {| result_map := result_map st; used_filenames := used;
                        log := log st ++ [Request url; Sleep] |}
            | Broken =>
                Some {| result_map := result_map st; used_filenames := used;
                        log := log st ++ [Request url; OpenFile filepath; Sleep] |}
            end
      end
  end.

Fixpoint download_loop (images_dir : string) (image_urls : list string)
  (st : download_state) : option download_state :=
  match image_urls with
  | [] => Some st
  | url :: rest =>
      match download_one images_dir url st with
      | Some st' => download_loop images_dir rest st'
      | None => None
      end
  end.

(** [download_images(image_urls, images_dir, delay)]: the dict it returns is
    [result_map]; [None] stands for a renaming loop that has not ended
    within its bound.  The messages it prints and the creation of the
    directory are left out, and opening and writing a file are taken to
    succeed. *)
Definition download_images (image_urls : list string) (images_dir : string)
  : option download_state :=
  download_loop images_dir image_urls
    {| result_map := []; used_filenames := []; log := [] |}.

End Download.

(** [l1] is [l2] with some of its elements left out. *)
Inductive subseq {A : Type} : list A -> list A -> Prop :=
| subseq_nil : subseq [] []
| subseq_keep (x : A) (l1 l2 : list A) : subseq l1 l2 -> subseq (x :: l1) (x :: l2)
| subseq_drop (x : A) (l1 l2 : list A) : subseq l1 l2 -> subseq l1 (x :: l2).

Fixpoint all_different (l : list string) : bool :=
  match l with
  | [] => true
  | x :: rest => negb (Py.in_strs x rest) && all_different rest
  end.

(** What holds of the state of the loop of [download_images] once the URLs
    [seen] have been gone through. *)
Definition download_invariant (exists_before : string -> bool)
  (get : nat -> string -> response) (images_dir : string) (seen : list string)
  (st : download_state) : Prop :=
  NoDup (used_filenames st)
  /\ NoDup (map fst (result_map st))
  /\ NoDup (map snd (result_map st))
  /\ (forall u f, In (u, f) (result_map st) ->
                  In u seen /\ In f (used_filenames st)
                  /\ path_exists exists_before (log st) (path_join images_dir f) = true)
  /\ (forall f, In f (used_filenames st) ->
                no_slash f = true /\ Str.contains "." f = true)
  /\ NoDup (opened_paths (log st))
  /\ (forall p, In p (opened_paths (log st)) -> exists_before p = false)
  /\ incl (requested_urls (log st)) seen
  /\ (forall u, In u seen -> (forall n, get n u = Saved) ->
                In u (map fst (result_map st)))
  /\ subseq (requested_urls (log st)) seen.

(* ------------------------------------------------------------------ *)
(** ** Client state and values used in the statements *)

Definition blank (w : string) : bool :=
  forallb Str.is_space (list_ascii_of_string w).

(** [{body}] *)
Definition braces (body : string) : string :=
  String "{" (String.append body "}").

(** The text [window.__remixContext = {body};], with white space [w1], [w2],
    [w3], [w4] around the equals sign and the semicolon, which may be left
    out. *)
Definition assignment (w1 w2 body w3 semi w4 : string) : string :=
  String.append remix_lhs
    (String.append w1
       (String "="
          (String.append w2
             (String.append (braces body)
                (String.append w3 (String.append semi w4)))))).

(** [{"state": {"loaderData": {...}}}] *)
Definition with_loader_data (items : list (string * value)) : value :=
  VDict [("state", VDict [("loaderData", VDict items)])].

Definition route_key (kv : string * value) : bool := Str.contains "p/" (fst kv).

Module Sample7.

Definition loader_data : list (string * value) :=
  [("root", VDict [("post", VDict [("authors", VList [VDict [("name", VStr "Root")]])])]);
   ("routes/p/$slug",
    VDict [("post", VDict [("authors", VList [VDict [("name", VStr "Ann")];
                                              VDict [("display_name", VStr "Bob")];
                                              VDict [("name", VStr "")]]);
                           ("content_tags", VList [VDict [("name", VStr "news")]])])]);
   ("routes/p/other", VDict [("post", VDict [("authors", VList [VDict [("name", VStr "Eve")]])])])].

End Sample7.

(** Whether [value[:10]] can be taken: of a string and of a list. *)
Definition sliceable (v : value) : bool :=
  match v with
  | VStr _ | VList _ => true
  | _ => false
  end.

(** Whether a value can be a dict key: lists and dicts cannot. *)
Definition hashable (v : value) : bool :=
  match v with
  | VList _ | VDict _ => false
  | _ => true
  end.

(** The records [post_to_markdown] renders: the date, when there is one,
    can be cut, and the featured image, when there is one and a map is
    given, can be looked up. *)
Definition renderable (p : post) (image_map : image_map_t) : bool :=
  (negb (Py.truthy (date p)) || sliceable (date p))
  && (negb (Py.truthy (featured_image p))
      || match image_map with [] => true | _ :: _ => hashable (featured_image p) end).

Module Sample8.

(** A page whose only JSON-LD block does not parse. *)
Definition broken_page : node := Sample.page [Sample.broken_script] [].

(** A record whose date is the number 20240301. *)
Definition numeric_date_post : post :=
  {| title := VStr "Hello";
     date := VInt 20240301;
     date_modified := VNone;
     description := VNone;
     featured_image := VNone;
     url := Sample.post_url;
     slug := "hello";
     authors := [];
     tags := [];
     content_html := [] |}.

End Sample8.

(* ------------------------------------------------------------------ *)
(** ** What the boilerplate filter leaves *)

(** The elements a [find_all] on the container would give for a pattern on
    the [style] or on the [class] attribute. *)
Definition hidden : node -> bool := attr_matches "style" display_none.

Definition has_class (cls : string) : node -> bool :=
  attr_matches "class" (Re.lit_i cls).

Module Sample9.

(** [<div id="content-blocks"><div style="display: none">preview</div>
    <p>Story</p><img src="https://t.example/pixel.gif"><div class="email-Footer">
    <p>Sent by us</p></div><p> </p></div>] *)
Definition newsletter : forest :=
  [Elem 0 "[document]" []
     [Sample4.container 1
        [Elem 2 "div" [("style", "display: none")] [Text 3 NavigableString "preview"];
         Sample4.para 4 "Story";
         Elem 6 "img" [("src", "https://t.example/pixel.gif")] [];
         Elem 7 "div" [("class", "email-Footer")] [Sample4.para 8 "Sent by us"];
         Elem 10 "p" [] [Text 11 NavigableString " "]]]].

Definition newsletter_cleaned : markup :=
  [Sample4.container 1 [Sample4.para 4 "Story"]].

(** [<body><div id="content-blocks">{{rp_personalized_text}}<p>Story</p></div>
    <p>Outside</p></body>] *)
Definition referral_doc : forest :=
  [Elem 0 "[document]" []
     [Elem 1 "body" []
        [Sample4.container 2
           [Text 3 NavigableString "{{rp_personalized_text}}"; Sample4.para 4 "Story"];
         Sample4.para 6 "Outside"]]].

(** [<body><main><div id="content-blocks"><a>Subscribe now</a><p>Story</p></div>
    </main><p>Outside</p></body>] *)
Definition short_doc : forest :=
  [Elem 0 "[document]" []
     [Elem 1 "body" []
        [Elem 2 "main" []
           [Sample4.container 3 [Sample4.subscribe 4; Sample4.para 6 "Story"]];
         Sample4.para 8 "Outside"]]].

(** [<div id="content-blocks"><p>Story</p><div><img
    src="https://cdn.example.com/spectacular-view.jpg"></div></div>] *)
Definition view_doc : forest :=
  [Elem 0 "[document]" []
     [Sample4.container 1
        [Sample4.para 2 "Story";
         Elem 4 "div" []
           [Elem 5 "img" [("src", "https://cdn.example.com/spectacular-view.jpg")] []]]]].

End Sample9.

(* ================================================================== *)
(** * Properties *)

(* ------------------------------------------------------------------ *)
(** ** Lists and results *)

Lemma filter_none {A} (p : A -> bool) (l : list A) :
  forallb (fun x => negb (p x)) l = true -> filter p l = [].
Proof.
  induction l as [|x l IH]; simpl; intros H; [reflexivity|].
  apply andb_true_iff in H as [Hx Hl].
  apply negb_true_iff in Hx. rewrite Hx. auto.
Qed.

Lemma find_absent {A} (p : A -> bool) (l : list A) :
  forallb (fun x => negb (p x)) l = true -> find p l = None.
Proof.
  induction l as [|x l IH]; simpl; intros H; [reflexivity|].
  apply andb_true_iff in H as [Hx Hl].
  apply negb_true_iff in Hx. rewrite Hx. auto.
Qed.

Lemma forallb_weaken {A} (p q : A -> bool) (l : list A) :
  (forall x, p x = true -> q x = true) ->
  forallb p l = true -> forallb q l = true.
Proof.
  intros Hpq. induction l as [|x l IH]; simpl; [reflexivity|].
  intros H. apply andb_true_iff in H as [Hx Hl].
  rewrite (Hpq _ Hx), (IH Hl). reflexivity.
Qed.

Lemma find_first {A} (p : A -> bool) (pre post : list A) (x : A) :
  forallb (fun y => negb (p y)) pre = true -> p x = true ->
  find p (pre ++ x :: post) = Some x.
Proof.
  induction pre as [|y pre IH]; simpl; intros Hpre Hx.
  - rewrite Hx. reflexivity.
  - apply andb_true_iff in Hpre as [Hy Hpre].
    apply negb_true_iff in Hy. rewrite Hy. auto.
Qed.

Lemma bind_ok {A B} (m : result A) (k : A -> result B) (b : B) :
  bind m k = Ok b -> exists a, m = Ok a /\ k a = Ok b.
Proof. destruct m as [a|e]; simpl; [eauto | discriminate]. Qed.

(* ------------------------------------------------------------------ *)
(** ** JSON-LD selection *)

Lemma in_strs_In (s : string) (l : list string) :
  Py.in_strs s l = true <-> In s l.
Proof.
  unfold Py.in_strs. rewrite existsb_exists. split.
  - intros (x & Hin & Hx). apply String.eqb_eq in Hx. subst x. exact Hin.
  - intros Hin. exists s. split; [exact Hin | apply String.eqb_refl].
Qed.

Lemma is_article_spec (item : value) :
  is_article item = true <->
  exists items t,
    item = VDict items /\ Py.assoc "@type" items = Some (VStr t)
    /\ In t article_types.
Proof.
  split.
  - destruct item as [| | | | |xs|items]; simpl; try discriminate.
    destruct (Py.assoc "@type" items) as [[| | | |t| |]|] eqn:E; try discriminate.
    intros H. exists items, t.
    change (Py.in_strs t article_types = true) in H.
    refine (conj eq_refl (conj E _)).
    change (In t article_types). apply in_strs_In. exact H.
  - intros (items & t & -> & E & Hin). unfold is_article. rewrite E.
    apply in_strs_In. exact Hin.
Qed.



(* ------------------------------------------------------------------ *)
(** ** The matcher decides the language of a pattern *)

Lemma append_empty (s1 s2 : string) :
  String.append s1 s2 = EmptyString -> s1 = EmptyString /\ s2 = EmptyString.
Proof. destruct s1; simpl; [auto | discriminate]. Qed.

Lemma append_empty_r (s : string) : String.append s EmptyString = s.
Proof. induction s as [|c s IH]; simpl; [reflexivity | rewrite IH; reflexivity]. Qed.

Lemma append_assoc (a b c : string) :
  String.append (String.append a b) c = String.append a (String.append b c).
Proof. induction a as [|x a IH]; simpl; [reflexivity | rewrite IH; reflexivity]. Qed.

Lemma nullable_lang (r : Re.regex) : Re.nullable r = true <-> Re.lang r EmptyString.
Proof.
  split.
  - induction r as [| |p|r1 IH1 r2 IH2|r1 IH1 r2 IH2|r IH]; simpl; intros H;
      try discriminate.
    + constructor.
    + apply andb_true_iff in H as [H1 H2].
      exact (Re.lang_cat (IH1 H1) (IH2 H2)).
    + apply orb_true_iff in H as [H | H];
        [apply Re.lang_alt_l | apply Re.lang_alt_r]; auto.
    + constructor.
  - remember EmptyString as s eqn:Es. intros H.
    induction H as [|p c Hp|r1 r2 s1 s2 _ IH1 _ IH2|r1 r2 s _ IH|r1 r2 s _ IH
                    |r|r s1 s2 _ _ _ _]; simpl; try reflexivity.
    + discriminate.
    + apply append_empty in Es as [-> ->].
      rewrite IH1, IH2; reflexivity.
    + rewrite IH; auto.
    + rewrite IH; auto. apply orb_true_r.
Qed.

Lemma lang_cat_smart (r1 r2 : Re.regex) (s : string) :
  Re.lang (Re.cat r1 r2) s <-> Re.lang (Re.Cat r1 r2) s.
Proof.
  split.
  - intros H.
    destruct r1; destruct r2; simpl in H; try exact H;
      try (inversion H; fail);
      try (rewrite <- (append_empty_r s); apply Re.lang_cat; [exact H | constructor]);
      try (change s with (String.append EmptyString s);
           apply Re.lang_cat; [constructor | exact H]).
  - intros H. inversion H as [| |? ? s1 s2 H1 H2| | | |]; subst.
    destruct r1; destruct r2; simpl;
      try (inversion H1; fail); try (inversion H2; fail);
      try (apply Re.lang_cat; assumption);
      try (inversion H1; subst; simpl; exact H2);
      try (inversion H2; subst; rewrite append_empty_r; exact H1).
Qed.

Lemma lang_alt_smart (r1 r2 : Re.regex) (s : string) :
  Re.lang (Re.alt r1 r2) s <-> Re.lang (Re.Alt r1 r2) s.
Proof.
  split.
  - intros H.
    destruct r1; destruct r2; simpl in H; try exact H;
      try (apply Re.lang_alt_r; exact H); try (apply Re.lang_alt_l; exact H).
  - intros H. inversion H as [| | |? ? ? H1|? ? ? H2| |]; subst;
      destruct r1; destruct r2; simpl;
        try (inversion H1; fail); try (inversion H2; fail);
        try assumption;
        try (apply Re.lang_alt_l; assumption); try (apply Re.lang_alt_r; assumption).
Qed.

Lemma deriv_sound (c : ascii) (r : Re.regex) :
  forall s, Re.lang (Re.deriv c r) s -> Re.lang r (String c s).
Proof.
  induction r as [| |p|r1 IH1 r2 IH2|r1 IH1 r2 IH2|r IH]; simpl; intros s H.
  - inversion H.
  - inversion H.
  - destruct (p c) eqn:E; inversion H; subst. constructor. exact E.
  - assert (Hleft : forall s, Re.lang (Re.cat (Re.deriv c r1) r2) s ->
                              Re.lang (Re.Cat r1 r2) (String c s)).
    { intros s0 H0. apply lang_cat_smart in H0.
      inversion H0 as [| |? ? s1 s2 H1 H2| | | |]; subst.
      change (String c (String.append s1 s2)) with (String.append (String c s1) s2).
      apply Re.lang_cat; [apply IH1; exact H1 | exact H2]. }
    destruct (Re.nullable r1) eqn:En.
    + apply lang_alt_smart in H.
      inversion H as [| | |? ? ? H1|? ? ? H2| |]; subst.
      * apply Hleft. exact H1.
      * change (String c s) with (String.append EmptyString (String c s)).
        apply Re.lang_cat; [apply nullable_lang; exact En | apply IH2; exact H2].
    + apply Hleft. exact H.
  - apply lang_alt_smart in H.
    inversion H as [| | |? ? ? H1|? ? ? H2| |]; subst;
      [apply Re.lang_alt_l | apply Re.lang_alt_r]; auto.
  - apply lang_cat_smart in H.
    inversion H as [| |? ? s1 s2 H1 H2| | | |]; subst.
    change (String c (String.append s1 s2)) with (String.append (String c s1) s2).
    apply Re.lang_star_cons; [apply IH; exact H1 | exact H2].
Qed.

Lemma deriv_complete (c : ascii) (r : Re.regex) (s : string) :
  Re.lang r (String c s) -> Re.lang (Re.deriv c r) s.
Proof.
  remember (String c s) as t eqn:Et. intros H. revert s Et.
  induction H as [|p x Hp|r1 r2 s1 s2 H1 IH1 H2 IH2|r1 r2 t H IH|r1 r2 t H IH
                  |r|r s1 s2 H1 IH1 H2 IH2]; intros s Et.
  - discriminate.
  - injection Et as -> <-. simpl. rewrite Hp. constructor.
  - simpl. destruct s1 as [|y s1].
    + simpl in Et. subst s2.
      assert (En : Re.nullable r1 = true) by (apply nullable_lang; exact H1).
      rewrite En. apply lang_alt_smart. apply Re.lang_alt_r. apply IH2. reflexivity.
    + simpl in Et. injection Et as -> <-.
      assert (Hc : Re.lang (Re.cat (Re.deriv c r1) r2) (String.append s1 s2)).
      { apply lang_cat_smart. apply Re.lang_cat; [apply IH1; reflexivity | exact H2]. }
      destruct (Re.nullable r1); [|exact Hc].
      apply lang_alt_smart. apply Re.lang_alt_l. exact Hc.
  - simpl. apply lang_alt_smart. apply Re.lang_alt_l. apply IH. exact Et.
  - simpl. apply lang_alt_smart. apply Re.lang_alt_r. apply IH. exact Et.
  - discriminate.
  - destruct s1 as [|y s1].
    + simpl in Et. apply IH2. exact Et.
    + simpl in Et. injection Et as -> <-. simpl.
      apply lang_cat_smart. apply Re.lang_cat; [apply IH1; reflexivity | exact H2].
Qed.

(** [fullmatch] holds exactly of the strings of the pattern's language. *)
Theorem fullmatch_lang (r : Re.regex) (s : string) :
  Re.fullmatch r s = true <-> Re.lang r s.
Proof.
  revert r. induction s as [|c s IH]; intros r; simpl.
  - apply nullable_lang.
  - rewrite IH. split; [apply deriv_sound | apply deriv_complete].
Qed.

(* ------------------------------------------------------------------ *)
(** ** The slug pattern *)

Lemma lang_cat_inv (r1 r2 : Re.regex) (s : string) :
  Re.lang (Re.Cat r1 r2) s ->
  exists s1 s2, s = String.append s1 s2 /\ Re.lang r1 s1 /\ Re.lang r2 s2.
Proof. intros H. inversion H; subst. eauto. Qed.

Lemma lang_eps_inv (s : string) : Re.lang Re.Eps s -> s = EmptyString.
Proof. intros H. inversion H. reflexivity. Qed.

Lemma lang_class_inv (p : ascii -> bool) (s : string) :
  Re.lang (Re.Class p) s -> exists c, s = String c EmptyString /\ p c = true.
Proof. intros H. inversion H; subst. eauto. Qed.

Lemma lang_lit (t s : string) : Re.lang (Re.lit t) s <-> s = t.
Proof.
  revert s. induction t as [|c t IH]; intros s; simpl.
  - split; [apply lang_eps_inv | intros ->; constructor].
  - split.
    + intros H. apply lang_cat_inv in H as (s1 & s2 & -> & H1 & H2).
      apply lang_class_inv in H1 as (x & -> & Hx). apply Ascii.eqb_eq in Hx.
      apply IH in H2. subst. reflexivity.
    + intros ->. change (String c t) with (String.append (String c EmptyString) t).
      apply Re.lang_cat; [|apply IH; reflexivity].
      constructor. apply Ascii.eqb_refl.
Qed.

Lemma lang_star_class (p : ascii -> bool) (s : string) :
  Re.lang (Re.Star (Re.Class p)) s -> forallb p (list_ascii_of_string s) = true.
Proof.
  remember (Re.Star (Re.Class p)) as r eqn:Er. intros H.
  induction H as [| | | | |r'|r' s1 s2 H1 _ _ IH2]; try discriminate.
  - reflexivity.
  - injection Er as ->. apply lang_class_inv in H1 as (c & -> & Hc).
    simpl. rewrite Hc. apply IH2. reflexivity.
Qed.

Lemma star_class_lang (p : ascii -> bool) (s : string) :
  forallb p (list_ascii_of_string s) = true -> Re.lang (Re.Star (Re.Class p)) s.
Proof.
  induction s as [|c s IH]; simpl; intros H; [constructor|].
  apply andb_true_iff in H as [Hc Hs].
  change (String c s) with (String.append (String c EmptyString) s).
  apply Re.lang_star_cons; [constructor; exact Hc | auto].
Qed.

Lemma lang_opt_chr (c : ascii) (s : string) :
  Re.lang (Re.opt (Re.chr c)) s <-> s = EmptyString \/ s = String c EmptyString.
Proof.
  unfold Re.opt, Re.chr. split.
  - intros H. inversion H as [| | |? ? ? H1|? ? ? H2| |]; subst.
    + apply lang_class_inv in H1 as (x & -> & Hx). apply Ascii.eqb_eq in Hx.
      subst. right. reflexivity.
    + left. apply lang_eps_inv. exact H2.
  - intros [-> | ->].
    + apply Re.lang_alt_r. constructor.
    + apply Re.lang_alt_l. constructor. apply Ascii.eqb_refl.
Qed.

(** The strings of the slug pattern: [/p/], a segment without slash, then
    an optional slash and an optional newline. *)
Lemma lang_slug_re (t : string) :
  Re.lang slug_re t <->
  exists x seg tail1 tail2,
    t = String.append "/p/" (String x (String.append seg (String.append tail1 tail2)))
    /\ not_slash x = true /\ no_slash seg = true
    /\ (tail1 = EmptyString \/ tail1 = "/")
    /\ (tail2 = EmptyString \/ tail2 = nl).
Proof.
  unfold slug_re, Re.seq, Re.plus. split.
  - intros H.
    apply lang_cat_inv in H as (s1 & r1 & -> & H1 & H).
    apply lang_cat_inv in H as (s2 & r2 & -> & H2 & H).
    apply lang_cat_inv in H as (s3 & r3 & -> & H3 & H).
    apply lang_cat_inv in H as (s4 & r4 & -> & H4 & H).
    apply lang_eps_inv in H. subst r4.
    apply lang_lit in H1. subst s1.
    apply lang_cat_inv in H2 as (a & b & -> & Ha & Hb).
    apply lang_class_inv in Ha as (x & -> & Hx).
    apply lang_star_class in Hb.
    apply lang_opt_chr in H3. apply lang_opt_chr in H4.
    exists x, b, s3, s4. rewrite append_empty_r. simpl.
    repeat split; auto.
  - intros (x & seg & tail1 & tail2 & -> & Hx & Hseg & H1 & H2).
    apply Re.lang_cat; [apply lang_lit; reflexivity|].
    change (String x (String.append seg (String.append tail1 tail2)))
      with (String.append (String x EmptyString)
              (String.append seg (String.append tail1 tail2))).
    rewrite <- append_assoc.
    apply Re.lang_cat.
    + apply Re.lang_cat; [constructor; exact Hx | apply star_class_lang; exact Hseg].
    + apply Re.lang_cat; [apply lang_opt_chr; exact H1|].
      rewrite <- (append_empty_r tail2).
      apply Re.lang_cat; [apply lang_opt_chr; exact H2 | constructor].
Qed.

Lemma chars_append (a b : string) :
  list_ascii_of_string (String.append a b)
  = list_ascii_of_string a ++ list_ascii_of_string b.
Proof. induction a as [|c a IH]; simpl; [reflexivity | rewrite IH; reflexivity]. Qed.

Lemma length_append (a b : string) :
  String.length (String.append a b) = String.length a + String.length b.
Proof. induction a as [|c a IH]; simpl; [reflexivity | rewrite IH; reflexivity]. Qed.

Lemma append_same_tail (pre w : string) : String.append pre w = w -> pre = EmptyString.
Proof.
  intros H. apply (f_equal String.length) in H. rewrite length_append in H.
  destruct pre; [reflexivity | simpl in H; lia].
Qed.

Lemma append_last_inj (a b : string) (c : ascii) :
  String.append a (String c EmptyString) = String.append b (String c EmptyString) ->
  a = b.
Proof.
  revert b. induction a as [|x a IH]; intros [|y b]; simpl; intros H.
  - reflexivity.
  - injection H as _ H. destruct b; discriminate.
  - injection H as _ H. destruct a; discriminate.
  - injection H as -> H. f_equal. apply IH. exact H.
Qed.

Lemma no_slash_existsb (s : string) :
  no_slash s = true -> existsb (Ascii.eqb "/") (list_ascii_of_string s) = false.
Proof.
  unfold no_slash, not_slash. induction (list_ascii_of_string s) as [|c l IH];
    cbn [existsb forallb]; [reflexivity|].
  intros H. apply andb_true_iff in H as [Hc Hl].
  apply negb_true_iff in Hc. rewrite Ascii.eqb_sym, Hc. cbn [orb]. auto.
Qed.

Lemma rsplit_last_cons (c : ascii) (s : string) :
  Str.rsplit_last "/" (String c s)
  = if existsb (Ascii.eqb "/") (list_ascii_of_string s) then Str.rsplit_last "/" s
    else if Ascii.eqb c "/" then s else String c s.
Proof. reflexivity. Qed.

(** What follows the last slash. *)
Lemma rsplit_last_segment (a b : string) :
  no_slash b = true -> Str.rsplit_last "/" (String.append a (String "/" b)) = b.
Proof.
  intros Hb. induction a as [|c a IH].
  - cbn [String.append]. rewrite rsplit_last_cons, (no_slash_existsb b Hb).
    reflexivity.
  - cbn [String.append]. rewrite rsplit_last_cons, chars_append, existsb_app.
    cbn [list_ascii_of_string existsb]. rewrite Ascii.eqb_refl.
    cbn [orb]. rewrite orb_true_r. exact IH.
Qed.

Lemma rsplit_last_whole (s : string) : no_slash s = true -> Str.rsplit_last "/" s = s.
Proof.
  intros Hs. destruct s as [|c s]; [reflexivity|].
  unfold no_slash in Hs. cbn [list_ascii_of_string forallb] in Hs.
  apply andb_true_iff in Hs as [Hc Hs].
  rewrite rsplit_last_cons, (no_slash_existsb s Hs).
  unfold not_slash in Hc. apply negb_true_iff in Hc. rewrite Hc. reflexivity.
Qed.

Lemma is_segment_no_slash (seg : string) : is_segment seg = true -> no_slash seg = true.
Proof.
  unfold is_segment, no_slash. intros H. apply andb_true_iff in H as [_ H].
  revert H. apply forallb_weaken. intros c Hc.
  apply andb_true_iff in Hc as [Hc _]. exact Hc.
Qed.

Lemma no_slash_append (a b : string) :
  no_slash a = true -> no_slash b = true -> no_slash (String.append a b) = true.
Proof.
  unfold no_slash. intros Ha Hb. rewrite chars_append, forallb_app, Ha, Hb. reflexivity.
Qed.

(** A string of the slug pattern that ends with [/p/] and a segment is
    nothing more than that. *)
Lemma slug_match_is_leftmost (pre seg : string) :
  is_segment seg = true ->
  Re.lang slug_re (String.append pre (String.append "/p/" seg)) ->
  pre = EmptyString.
Proof.
  intros Hseg H. apply lang_slug_re in H
    as (x & s & tail1 & tail2 & E & Hx & Hs & H1 & H2).
  assert (Ht2 : no_slash tail2 = true) by (destruct H2 as [-> | ->]; reflexivity).
  assert (Hleft : Str.rsplit_last "/" (String.append pre (String.append "/p/" seg)) = seg).
  { change (String.append "/p/" seg) with (String.append "/p" (String "/" seg)).
    rewrite <- append_assoc. apply rsplit_last_segment.
    apply is_segment_no_slash. exact Hseg. }
  rewrite E in Hleft. destruct H1 as [-> | ->].
  - change (String.append "/p/" (String x (String.append s (String.append EmptyString tail2))))
      with (String.append "/p" (String "/" (String x (String.append s tail2)))) in Hleft.
    rewrite rsplit_last_segment in Hleft.
    + subst seg.
      apply (@append_same_tail pre (String.append "/p/" (String x (String.append s tail2)))).
      exact E.
    + unfold no_slash. cbn [list_ascii_of_string forallb]. rewrite Hx.
      apply (@no_slash_append s tail2 Hs Ht2).
  - change (String.append "/p/" (String x (String.append s (String.append "/" tail2))))
      with (String.append "/p/" (String.append (String x s) (String "/" tail2))) in Hleft.
    rewrite <- append_assoc, rsplit_last_segment in Hleft by exact Ht2.
    subst seg. destruct H2 as [-> | ->]; discriminate Hseg.
Qed.

Lemma slug_match_is_leftmost_slash (pre seg : string) :
  is_segment seg = true ->
  Re.lang slug_re (String.append pre (String.append "/p/" (String.append seg "/"))) ->
  pre = EmptyString.
Proof.
  intros Hseg H. pose proof H as H0. apply lang_slug_re in H
    as (x & s & tail1 & tail2 & E & Hx & Hs & H1 & H2).
  assert (Ht2 : no_slash tail2 = true) by (destruct H2 as [-> | ->]; reflexivity).
  assert (Hleft : Str.rsplit_last "/"
            (String.append pre (String.append "/p/" (String.append seg "/")))
          = EmptyString).
  { change (String.append "/p/" (String.append seg "/"))
      with (String.append "/p/" (String.append seg (String "/" EmptyString))).
    rewrite <- !append_assoc. apply rsplit_last_segment. reflexivity. }
  rewrite E in Hleft. destruct H1 as [-> | ->].
  - change (String.append "/p/" (String x (String.append s (String.append EmptyString tail2))))
      with (String.append "/p" (String "/" (String x (String.append s tail2)))) in Hleft.
    rewrite rsplit_last_segment in Hleft; [discriminate|].
    unfold no_slash. cbn [list_ascii_of_string forallb]. rewrite Hx.
    apply (@no_slash_append s tail2 Hs Ht2).
  - change (String.append "/p/" (String x (String.append s (String.append "/" tail2))))
      with (String.append "/p/" (String.append (String x s) (String "/" tail2))) in Hleft.
    rewrite <- append_assoc, rsplit_last_segment in Hleft by exact Ht2.
    subst tail2.
    apply (@slug_match_is_leftmost pre seg Hseg).
    assert (Ecut : String.append pre (String.append "/p/" seg)
                   = String.append "/p/" (String x s)).
    { apply (@append_last_inj _ _ "/"%char). rewrite !append_assoc. exact E. }
    rewrite Ecut. apply lang_slug_re.
    exists x, s, EmptyString, EmptyString. rewrite !append_empty_r.
    repeat split; auto.
Qed.

Lemma take_while_segment (seg rest : string) :
  no_slash seg = true ->
  rest = EmptyString \/ Str.startswith "/" rest = true ->
  Str.take_while not_slash (String.append seg rest) = seg.
Proof.
  unfold no_slash. induction seg as [|c seg IH]; cbn [list_ascii_of_string forallb];
    intros Hseg Hrest.
  - cbn [String.append]. destruct Hrest as [-> | Hrest]; [reflexivity|].
    destruct rest as [|x rest]; [reflexivity|].
    cbn [Str.startswith] in Hrest. apply andb_true_iff in Hrest as [Hx _].
    apply Ascii.eqb_eq in Hx. subst x. reflexivity.
  - apply andb_true_iff in Hseg as [Hc Hseg].
    cbn [String.append Str.take_while]. rewrite Hc, (IH Hseg Hrest). reflexivity.
Qed.

Lemma suffixes_head (s : string) : exists rest, Str.suffixes s = s :: rest.
Proof. destruct s; simpl; eauto. Qed.

Lemma find_leftmost (P : string -> bool) (pre R : string) :
  (forall q, q <> EmptyString -> P (String.append q R) = false) ->
  P R = true ->
  find P (Str.suffixes (String.append pre R)) = Some R.
Proof.
  intros Hfail HR. induction pre as [|a pre IH].
  - cbn [String.append]. destruct (suffixes_head R) as [rest ->].
    cbn [find]. rewrite HR. reflexivity.
  - cbn [String.append Str.suffixes find].
    change (String a (String.append pre R)) with (String.append (String a pre) R).
    rewrite Hfail by discriminate. exact IH.
Qed.

Lemma fullmatch_false (r : Re.regex) (s : string) :
  ~ Re.lang r s -> Re.fullmatch r s = false.
Proof.
  intros H. destruct (Re.fullmatch r s) eqn:E; [|reflexivity].
  exfalso. apply H. apply fullmatch_lang. exact E.
Qed.

(** The slug of a path that ends with [/p/<segment>], with or without a
    final slash, is the segment. *)
Lemma slug_of_post_path (pre seg : string) :
  is_segment seg = true ->
  slug_of_path (String.append pre (String.append "/p/" seg)) = seg
  /\ slug_of_path (String.append pre (String.append "/p/" (String.append seg "/"))) = seg.
Proof.
  intros Hseg. pose proof (is_segment_no_slash seg Hseg) as Hns.
  assert (Hne : exists x s, seg = String x s).
  { destruct seg as [|x s]; [discriminate|]. eauto. }
  destruct Hne as (x & s & Ex).
  assert (Hx : not_slash x = true /\ no_slash s = true).
  { subst seg. unfold no_slash in Hns. cbn [list_ascii_of_string forallb] in Hns.
    apply andb_true_iff in Hns. exact Hns. }
  unfold slug_of_path. split.
  - rewrite (@find_leftmost (Re.fullmatch slug_re) pre (String.append "/p/" seg)).
    + change (Str.drop 3 (String.append "/p/" seg)) with seg.
      rewrite <- (append_empty_r seg) at 1.
      apply take_while_segment; auto.
    + intros q Hq. apply fullmatch_false. intros H. apply Hq.
      exact (@slug_match_is_leftmost q seg Hseg H).
    + apply fullmatch_lang, lang_slug_re.
      exists x, s, EmptyString, EmptyString. rewrite !append_empty_r.
      subst seg. repeat split; tauto.
  - rewrite (@find_leftmost (Re.fullmatch slug_re) pre
               (String.append "/p/" (String.append seg "/"))).
    + change (Str.drop 3 (String.append "/p/" (String.append seg "/")))
        with (String.append seg "/").
      apply take_while_segment; auto.
    + intros q Hq. apply fullmatch_false. intros H. apply Hq.
      exact (@slug_match_is_leftmost_slash q seg Hseg H).
    + apply fullmatch_lang, lang_slug_re.
      exists x, s, "/", EmptyString. subst seg. repeat split; tauto.
Qed.

Lemma suffix_contains (sub s t : string) :
  In t (Str.suffixes s) -> Str.startswith sub t = true -> Str.contains sub s = true.
Proof.
  induction s as [|c s IH]; cbn [Str.suffixes In Str.contains].
  - intros [<- | []] H. rewrite H. reflexivity.
  - intros [<- | Hin] H; [rewrite H; reflexivity|].
    rewrite (IH Hin H). apply orb_true_r.
Qed.

(** The slug of a path without [/p/] is what follows its last slash. *)
Lemma slug_of_other_path (path : string) :
  Str.contains "/p/" path = false ->
  slug_of_path path = Str.rsplit_last "/" path.
Proof.
  intros Hno. unfold slug_of_path. rewrite find_absent; [reflexivity|].
  apply forallb_forall. intros t Ht. apply negb_true_iff.
  apply fullmatch_false. intros H.
  apply lang_slug_re in H as (x & s & t1 & t2 & -> & _).
  assert (E : Str.contains "/p/" path = true).
  { apply (@suffix_contains "/p/" path _ Ht). reflexivity. }
  congruence.
Qed.

(* ------------------------------------------------------------------ *)
(** ** Which steps of [fetch_post] can raise *)

Lemma json_ld_block_raises (json_loads : string -> option value) (script : node) (e : exn) :
  json_ld_block json_loads script = Raise e -> e = TypeError \/ e = JSONDecodeError.
Proof.
  unfold json_ld_block.
  destruct (tag_string script) as [s|]; [|intros [= <-]; auto].
  destruct (json_loads s) as [[| | | | |data|]|]; try discriminate.
  - destruct (find is_article data); discriminate.
  - intros [= <-]; auto.
Qed.

(** [extract_json_ld] itself never raises. *)
Lemma json_ld_scan_total (json_loads : string -> option value) (scripts : list node) :
  exists data, json_ld_scan json_loads scripts = Ok data.
Proof.
  induction scripts as [|script rest IH]; simpl; [eauto|].
  destruct (json_ld_block json_loads script) as [data|e] eqn:E; [eauto|].
  destruct (json_ld_block_raises _ _ E) as [-> | ->]; exact IH.
Qed.

Lemma get_raises (v : value) (k : string) (d : value) (e : exn) :
  Py.get v k d = Raise e -> e = AttributeError.
Proof. destruct v; simpl; intros [= <-]; reflexivity. Qed.

Lemma iter_raises (v : value) (e : exn) : Py.iter v = Raise e -> e = TypeError.
Proof. destruct v; simpl; intros [= <-]; reflexivity. Qed.

Lemma str_in_raises (s : string) (v : value) (e : exn) :
  Py.str_in s v = Raise e -> e = TypeError.
Proof. destruct v; simpl; intros [= <-]; reflexivity. Qed.

Lemma collect_names_raises (name_of : value -> result value) :
  (forall v e, name_of v = Raise e -> caught e) ->
  forall entries acc e, snd (collect_names name_of entries acc) = Some e -> caught e.
Proof.
  intros Hname. induction entries as [|entry rest IH]; simpl; intros acc e.
  - discriminate.
  - destruct (name_of entry) as [name|e'] eqn:E.
    + apply IH.
    + simpl. intros [= ->]. exact (Hname _ _ E).
Qed.

Lemma names_at_key_raises (list_key : string) (name_of : value -> result value)
  (loader_data key : value) :
  (forall v e, name_of v = Raise e -> caught e) ->
  (forall e, Py.getitem loader_data key = Raise e -> caught e) ->
  forall e, snd (names_at_key list_key name_of loader_data key) = Some e -> caught e.
Proof.
  intros Hname Hkey e. unfold names_at_key.
  destruct (Py.getitem loader_data key) as [post_data|e'] eqn:E.
  - destruct (Py.is_dict post_data); [|discriminate].
    destruct (Py.get post_data "post" post_data) as [post_obj|e1] eqn:E1.
    + destruct (Py.get post_obj list_key (VList [])) as [entries|e2] eqn:E2.
      * destruct (Py.iter entries) as [l|e3] eqn:E3.
        -- apply collect_names_raises. exact Hname.
        -- apply iter_raises in E3. subst e3. intros [= <-]. right. reflexivity.
      * apply get_raises in E2. subst e2. intros [= <-]. left. reflexivity.
    + apply get_raises in E1. subst e1. intros [= <-]. left. reflexivity.
  - simpl. intros [= ->]. apply Hkey. reflexivity.
Qed.

Lemma scan_keys_raises (list_key : string) (name_of : value -> result value)
  (loader_data : value) :
  (forall v e, name_of v = Raise e -> caught e) ->
  forall keys,
    (forall k e, In k keys -> Py.getitem loader_data k = Raise e -> caught e) ->
    forall e, snd (scan_keys list_key name_of loader_data keys) = Some e -> caught e.
Proof.
  intros Hname. induction keys as [|key rest IH]; simpl; intros Hkeys e.
  - discriminate.
  - assert (Hk : forall e, Py.getitem loader_data key = Raise e -> caught e)
      by (intros e0; apply Hkeys; auto).
    destruct (Py.str_in "p/$slug" key) as [[|]|e1] eqn:E1.
    + apply names_at_key_raises; assumption.
    + destruct (Py.str_in "p/" key) as [[|]|e2] eqn:E2.
      * apply names_at_key_raises; assumption.
      * apply IH. intros k e0 Hin. apply Hkeys. auto.
      * apply str_in_raises in E2. subst e2. intros [= <-]. right. reflexivity.
    + apply str_in_raises in E1. subst e1. intros [= <-]. right. reflexivity.
Qed.

Lemma assoc_fst_in {A} (items : list (string * A)) (kv : string * A) :
  In kv items -> Py.assoc (fst kv) items <> None.
Proof.
  induction items as [|[k v] rest IH]; simpl; [tauto|].
  intros [<- | Hin]; simpl.
  - rewrite String.eqb_refl. discriminate.
  - destruct (String.eqb (fst kv) k); [discriminate | auto].
Qed.

(** A key the loop got from iterating [loader_data] indexes it without a
    [KeyError]. *)
Lemma iter_getitem (loader_data : value) (keys : list value) :
  Py.iter loader_data = Ok keys ->
  forall k e, In k keys -> Py.getitem loader_data k = Raise e -> caught e.
Proof.
  destruct loader_data as [| | | |s|xs|items]; simpl; try discriminate;
    intros [= <-] k e Hin.
  - destruct k; intros [= <-]; right; reflexivity.
  - destruct k; intros [= <-]; right; reflexivity.
  - apply in_map_iff in Hin as (kv & <- & Hin).
    pose proof (assoc_fst_in items kv Hin) as H.
    destruct (Py.assoc (fst kv) items); [discriminate | contradiction].
Qed.

Lemma loader_names_raises (list_key : string) (name_of : value -> result value)
  (remix_ctx : value) :
  (forall v e, name_of v = Raise e -> caught e) ->
  forall e, snd (loader_names list_key name_of remix_ctx) = Some e -> caught e.
Proof.
  intros Hname e. unfold loader_names.
  destruct (Py.get remix_ctx "state" (VDict [])) as [state|e1] eqn:E1.
  - destruct (Py.get state "loaderData" (VDict [])) as [loader_data|e2] eqn:E2.
    + destruct (Py.iter loader_data) as [keys|e3] eqn:E3.
      * apply scan_keys_raises; [exact Hname | exact (iter_getitem _ E3)].
      * apply iter_raises in E3. subst e3. intros [= <-]. right. reflexivity.
    + apply get_raises in E2. subst e2. intros [= <-]. left. reflexivity.
  - apply get_raises in E1. subst e1. intros [= <-]. left. reflexivity.
Qed.

Lemma except_total {A} (body : A * option exn) :
  (forall e, snd body = Some e -> caught e) ->
  Py.except [AttributeError; TypeError] body = Ok (fst body).
Proof.
  destruct body as [acc [e|]]; simpl; intros He; [|reflexivity].
  destruct (He e eq_refl) as [-> | ->]; reflexivity.
Qed.

Lemma author_name_raises (v : value) (e : exn) : author_name v = Raise e -> caught e.
Proof.
  unfold author_name. destruct (Py.get v "name" VNone) as [name|e1] eqn:E1; simpl.
  - destruct (Py.truthy name); [discriminate|].
    intros H. apply get_raises in H. left. exact H.
  - intros [= <-]. apply get_raises in E1. left. exact E1.
Qed.

(** [extract_authors] and [extract_tags] never raise. *)
Lemma extract_authors_total (remix_ctx : value) :
  extract_authors remix_ctx = Ok (fst (loader_names "authors" author_name remix_ctx)).
Proof.
  apply except_total. apply loader_names_raises. exact author_name_raises.
Qed.

Lemma extract_tags_total (remix_ctx : value) :
  extract_tags remix_ctx
  = Ok (fst (loader_names "content_tags" (fun tag => Py.get tag "name" VNone) remix_ctx)).
Proof.
  apply except_total. apply loader_names_raises.
  intros v e H. apply get_raises in H. left. exact H.
Qed.

(* ------------------------------------------------------------------ *)
(** ** [fetch_post] *)

Section FetchPost.

Variable json_loads : string -> option value.
Variable urlparse_path : string -> string.

Local Abbreviation fetch := (fetch_post json_loads urlparse_path).

(** The slug and the URL of a record are functions of the URL. *)
Lemma fetch_post_slug_url (u : string) (soup : node) (r : post) :
  fetch u soup = Ok r ->
  url r = u /\ slug r = slug_of_path (urlparse_path u).
Proof.
  unfold fetch_post. intros H.
  repeat (apply bind_ok in H as (? & _ & H)).
  injection H as <-. split; reflexivity.
Qed.

(** JSON-LD data that is not a dict stops [fetch_post] at
    [json_ld.get("headline")]. *)
Lemma fetch_post_non_dict (u : string) (soup : node) (data : value) :
  extract_json_ld json_loads soup = Ok data -> Py.is_dict data = false ->
  fetch u soup = Raise AttributeError.
Proof.
  intros Hld Hd. unfold fetch_post. rewrite Hld. simpl.
  destruct data; try reflexivity. discriminate.
Qed.

(** With a dict for JSON-LD data and no content container, [fetch_post]
    returns a record, and its body is empty. *)
Lemma fetch_post_without_container (u : string) (soup : node)
  (items : list (string * value)) :
  extract_json_ld json_loads soup = Ok (VDict items) ->
  find_in soup is_content_div = None ->
  exists r, fetch u soup = Ok r /\ content_html r = [].
Proof.
  intros Hld Hdiv. unfold fetch_post.
  rewrite Hld, Hdiv, extract_authors_total, extract_tags_total. simpl.
  destruct (Py.assoc "image" items) as [[| | | | | |img]|]; simpl;
    destruct (fst (loader_names "authors" author_name
                     (extract_remix_context json_loads soup))); simpl;
    try (eexists; split; reflexivity);
    destruct (Py.assoc "publisher" items) as [[| | | | | |pub]|]; simpl;
    eexists; split; reflexivity.
Qed.

Lemma bare_without (p : node -> bool) (soup : node) :
  (forall n, p n = true ->
     (named "script" n || named "meta" n || named "title" n || is_content_div n) = true) ->
  bare soup = true ->
  forallb (fun n => negb (p n)) (descendants soup) = true.
Proof.
  intros Hp. unfold bare. apply forallb_weaken. intros n Hn.
  destruct (p n) eqn:E; [|reflexivity].
  rewrite (Hp n E) in Hn. discriminate.
Qed.

Lemma get_meta_bare (soup : node) (property_name name : string) :
  bare soup = true -> get_meta soup property_name name = VNone.
Proof.
  intros Hb. unfold get_meta, find_in.
  destruct (Str.is_empty property_name); simpl.
  - destruct (Str.is_empty name); simpl; [reflexivity|].
    rewrite find_absent; [reflexivity|].
    apply bare_without; [|exact Hb].
    intros n Hn. apply andb_true_iff in Hn as [-> _].
    rewrite orb_true_r. reflexivity.
  - rewrite find_absent; [reflexivity|].
    apply bare_without; [|exact Hb].
    intros n Hn. apply andb_true_iff in Hn as [-> _].
    rewrite orb_true_r. reflexivity.
Qed.

(** On a page without sources the record is made of the URL alone. *)
Lemma fetch_post_bare (u : string) (soup : node) :
  bare soup = true ->
  fetch u soup = Ok (minimal_post u (slug_of_path (urlparse_path u))).
Proof.
  intros Hb. unfold fetch_post, extract_json_ld, extract_remix_context,
    find_all_in, find_in.
  assert (H1 : forallb (fun n => negb (is_json_ld_script n)) (descendants soup) = true).
  { apply bare_without; [|exact Hb]. intros n Hn.
    apply andb_true_iff in Hn as [-> _]. reflexivity. }
  assert (H2 : forallb (fun n => negb (named "script" n)) (descendants soup) = true).
  { apply bare_without; [|exact Hb]. intros n ->. reflexivity. }
  assert (H3 : forallb (fun n => negb (named "title" n)) (descendants soup) = true).
  { apply bare_without; [|exact Hb]. intros n ->. rewrite !orb_true_r. reflexivity. }
  assert (H4 : forallb (fun n => negb (is_content_div n)) (descendants soup) = true).
  { apply bare_without; [|exact Hb]. intros n ->. rewrite !orb_true_r. reflexivity. }
  rewrite (filter_none _ _ H1), (filter_none _ _ H2), (find_absent _ _ H3),
    (find_absent _ _ H4), !get_meta_bare by exact Hb.
  reflexivity.
Qed.

End FetchPost.

(* ------------------------------------------------------------------ *)
(** ** The record of a page *)

(** C1. The extraction pipeline does not complete on every page: on a page
    whose only JSON-LD block is the JSON number 42, [extract_json_ld]
    returns that number, not a dict, and [fetch_post] raises
    [AttributeError] when it asks it for its headline. *)
Theorem fetch_post_raises_on_scalar_json_ld :
  extract_json_ld Ref.json_loads Sample.scalar_page = Ok (VInt 42)
  /\ fetch_post Ref.json_loads Ref.urlparse_path Sample.post_url Sample.scalar_page
     = Raise AttributeError.
Proof.
  assert (H : extract_json_ld Ref.json_loads Sample.scalar_page = Ok (VInt 42))
    by reflexivity.
  split; [exact H|].
  exact (fetch_post_non_dict Ref.json_loads Ref.urlparse_path Sample.post_url _ H eq_refl).
Qed.

(** C2. The title is not always a non-empty string: on a page with an
    empty [<title></title>] element and no other title source,
    [fetch_post] returns a record whose title is [None], although the slug
    ["hello"] is there to fall back on. *)
Theorem fetch_post_empty_title_is_none :
  exists r,
    fetch_post Ref.json_loads Ref.urlparse_path Sample.post_url Sample.empty_title_page
    = Ok r
    /\ title r = VNone /\ slug r = "hello".
Proof. eexists. split; [reflexivity|]. split; reflexivity. Qed.

(** C8. A page without content container does not always give a record:
    when its JSON-LD block is the list [[1, 2]], [extract_json_ld] returns
    the first entry, the number 1, and [fetch_post] raises
    [AttributeError] instead of returning a record with an empty body. *)
Theorem fetch_post_no_container_raises :
  find_in Sample2.number_list_page is_content_div = None
  /\ extract_json_ld Ref.json_loads Sample2.number_list_page = Ok (VInt 1)
  /\ fetch_post Ref.json_loads Ref.urlparse_path Sample.post_url Sample2.number_list_page
     = Raise AttributeError.
Proof.
  assert (H : extract_json_ld Ref.json_loads Sample2.number_list_page = Ok (VInt 1))
    by reflexivity.
  split; [reflexivity|]. split; [exact H|].
  exact (fetch_post_non_dict Ref.json_loads Ref.urlparse_path Sample.post_url _ H eq_refl).
Qed.

(** C9. For one post URL, the records of any two pages have the same slug
    and the same URL: the URL of a record is the post URL, its slug is
    computed from the path of that URL alone, and on a page where every
    metadata source and the body are absent the record is still produced,
    holding the URL, the slug and the slug as title.  The slug of a path
    that ends with [/p/<segment>] (with or without a final slash) is that
    segment; the slug of a path without [/p/] is its last segment. *)
Theorem slug_and_url_from_url_alone :
  forall (json_loads : string -> option value) (urlparse_path : string -> string)
         (u : string),
    (forall soup1 soup2 r1 r2,
       fetch_post json_loads urlparse_path u soup1 = Ok r1 ->
       fetch_post json_loads urlparse_path u soup2 = Ok r2 ->
       slug r1 = slug r2 /\ url r1 = url r2)
    /\ (forall soup r,
          fetch_post json_loads urlparse_path u soup = Ok r ->
          url r = u /\ slug r = slug_of_path (urlparse_path u))
    /\ (forall soup,
          bare soup = true ->
          fetch_post json_loads urlparse_path u soup
          = Ok (minimal_post u (slug_of_path (urlparse_path u))))
    /\ (forall pre seg,
          is_segment seg = true ->
          slug_of_path (String.append pre (String.append "/p/" seg)) = seg
          /\ slug_of_path (String.append pre (String.append "/p/" (String.append seg "/")))
             = seg)
    /\ (forall pre seg,
          no_slash seg = true ->
          Str.contains "/p/" (String.append pre (String "/" seg)) = false ->
          slug_of_path (String.append pre (String "/" seg)) = seg).
Proof.
  intros json_loads urlparse_path u. split; [|split; [|split; [|split]]].
  - intros soup1 soup2 r1 r2 H1 H2.
    apply fetch_post_slug_url in H1 as [U1 S1].
    apply fetch_post_slug_url in H2 as [U2 S2].
    split; congruence.
  - intros soup r. apply fetch_post_slug_url.
  - intros soup. apply fetch_post_bare.
  - intros pre seg. apply slug_of_post_path.
  - intros pre seg Hseg Hno.
    rewrite (slug_of_other_path _ Hno). apply rsplit_last_segment. exact Hseg.
Qed.

Lemma slug_and_url_from_url_alone_witness :
  bare Sample2.bare_page = true
  /\ fetch_post Ref.json_loads Ref.urlparse_path Sample.post_url Sample2.bare_page
     = Ok (minimal_post Sample.post_url "hello")
  /\ slug_of_path "/archive/p/hello/" = "hello"
  /\ slug_of_path "/archive/2024/hello" = "hello".
Proof.
  destruct (slug_and_url_from_url_alone Ref.json_loads Ref.urlparse_path Sample.post_url)
    as (_ & _ & Hbare & Hpost & Hlast).
  split; [reflexivity|]. split; [exact (Hbare Sample2.bare_page eq_refl)|]. split.
  - exact (proj2 (Hpost "/archive" "hello" eq_refl)).
  - exact (Hlast "/archive/2024" "hello" eq_refl eq_refl).
Defined.

Example slug_after_p : slug_of_path "/p/hello" = "hello".
Proof. reflexivity. Qed.

Example slug_trailing_slash : slug_of_path "/p/hello/" = "hello".
Proof. reflexivity. Qed.

Example slug_last_segment : slug_of_path "/archive/2024/hello" = "hello".
Proof. reflexivity. Qed.

(* ------------------------------------------------------------------ *)
(** ** Front matter *)

Lemma local_path_nonempty (prefix file : string) :
  Str.is_empty (local_path prefix file) = false.
Proof. unfold local_path. destruct prefix; reflexivity. Qed.

Lemma take_nonempty (n : nat) (s : string) :
  Str.is_empty s = false -> Str.is_empty (Str.take (S n) s) = false.
Proof. destruct s; simpl; [discriminate | reflexivity]. Qed.

Lemma first10_truthy (v : value) :
  Py.truthy v = true -> Py.truthy (first10 v) = true.
Proof.
  destruct v; auto. unfold first10, Py.truthy. intros H.
  apply negb_true_iff. apply take_nonempty. apply negb_true_iff. exact H.
Qed.

Lemma through_map_truthy (m : image_map_t) (prefix : string) (v : value) :
  Py.truthy v = true -> Py.truthy (through_map m prefix v) = true.
Proof.
  destruct v; simpl; auto. intros H.
  destruct (Py.assoc s m); simpl; [|exact H].
  rewrite local_path_nonempty. reflexivity.
Qed.

Lemma frontmatter_refines (p : post) (m : image_map_t) (prefix : string) :
  text_or_absent (date p) -> text_or_absent (featured_image p) ->
  frontmatter p m prefix = Ok (spec_frontmatter p m prefix).
Proof.
  unfold frontmatter, spec_frontmatter, present.
  destruct p as [t d dm de fi u sl au tg body]; simpl.
  intros Hd Hfi.
  destruct d as [| | | |ds| |]; try contradiction;
    destruct fi as [| | | |fs| |]; try contradiction; simpl;
    try destruct (Str.is_empty ds); try destruct (Str.is_empty fs); simpl;
    try (destruct m as [|[k f] m']; simpl;
         [|destruct (String.eqb fs k); simpl; [|destruct (Py.assoc fs m'); simpl]]);
    destruct (Py.truthy de); destruct au; destruct tg; reflexivity.
Qed.



(* ------------------------------------------------------------------ *)
(** ** Trees *)

(** Induction on a node with the hypothesis for every child. *)
Lemma node_induction (P : node -> Prop) :
  (forall r k s, P (Text r k s)) ->
  (forall r name attrs cs, Forall P cs -> P (Elem r name attrs cs)) ->
  forall n, P n.
Proof.
  intros HT HE. fix IH 1. intros [r k s | r name attrs cs].
  - apply HT.
  - apply HE. induction cs as [|c cs IHcs]; constructor; [apply IH | exact IHcs].
Qed.

Lemma flat_map_map {A B C} (f : A -> B) (g : B -> list C) (l : list A) :
  flat_map g (map f l) = flat_map (fun x => g (f x)) l.
Proof. induction l as [|x l IH]; simpl; [reflexivity | rewrite IH; reflexivity]. Qed.

Lemma flat_map_ext_Forall {A B} (f g : A -> list B) (l : list A) :
  Forall (fun x => f x = g x) l -> flat_map f l = flat_map g l.
Proof. induction 1 as [|x l Hx _ IH]; simpl; [reflexivity | rewrite Hx, IH; reflexivity]. Qed.

Lemma map_flat_map {A B C} (f : B -> C) (g : A -> list B) (l : list A) :
  map f (flat_map g l) = flat_map (fun x => map f (g x)) l.
Proof.
  induction l as [|x l IH]; simpl; [reflexivity|].
  rewrite map_app, IH. reflexivity.
Qed.

(* ------------------------------------------------------------------ *)
(** ** Image references *)

Lemma assoc_set_attr (key v : string) (attrs : list (string * string)) :
  Py.assoc key (set_attr key v attrs) = Some v.
Proof.
  induction attrs as [|[k x] rest IH]; simpl.
  - rewrite String.eqb_refl. reflexivity.
  - destruct (String.eqb key k) eqn:E; simpl; rewrite E; [reflexivity | exact IH].
Qed.

Lemma rewrite_img_shallow (m : image_map_t) (prefix : string) (n : node) :
  shallow (rewrite_img m prefix n) = rewrite_img m prefix (shallow n).
Proof.
  destruct n as [r k s | r name attrs cs]; simpl; [reflexivity|].
  destruct (Py.assoc "src" attrs) as [src|]; [|reflexivity].
  destruct (Str.is_empty src); simpl; [reflexivity|].
  destruct (Py.assoc src m); reflexivity.
Qed.

Lemma rewrite_img_named (m : image_map_t) (prefix name : string) (n : node) :
  named name (rewrite_img m prefix n) = named name n.
Proof.
  destruct n as [r k s | r name' attrs cs]; simpl; [reflexivity|].
  destruct (Py.assoc "src" attrs) as [src|]; [|reflexivity].
  destruct (Str.is_empty src); simpl; [reflexivity|].
  destruct (Py.assoc src m); reflexivity.
Qed.

Lemma preorder_elem (r : ref) (name : string) (attrs : list (string * string))
  (cs : list node) :
  preorder (Elem r name attrs cs) = Elem r name attrs cs :: flat_map preorder cs.
Proof. reflexivity. Qed.

Lemma rewrite_img_preorder (m : image_map_t) (prefix : string) (r : ref)
  (name : string) (attrs : list (string * string)) (cs : list node) :
  preorder (rewrite_img m prefix (Elem r name attrs cs))
  = rewrite_img m prefix (Elem r name attrs cs) :: flat_map preorder cs.
Proof.
  simpl. destruct (Py.assoc "src" attrs) as [src|]; [|reflexivity].
  destruct (Str.is_empty src); simpl; [reflexivity|].
  destruct (Py.assoc src m); reflexivity.
Qed.

Lemma rewrite_imgs_elem (m : image_map_t) (prefix : string) (r : ref)
  (name : string) (attrs : list (string * string)) (cs : list node) :
  rewrite_imgs m prefix (Elem r name attrs cs)
  = rewritten_node m prefix (Elem r name attrs (map (rewrite_imgs m prefix) cs)).
Proof. reflexivity. Qed.

(** The tree keeps its shape: node by node, in document order, the result
    is the input, each image having gone through the loop body. *)
Lemma rewrite_imgs_preorder (m : image_map_t) (prefix : string) (n : node) :
  map shallow (preorder (rewrite_imgs m prefix n))
  = map (rewritten_node m prefix) (map shallow (preorder n)).
Proof.
  induction n as [r k s | r name attrs cs IH] using node_induction.
  - reflexivity.
  - assert (Hkids :
      map shallow (flat_map preorder (map (rewrite_imgs m prefix) cs))
      = map (rewritten_node m prefix) (map shallow (flat_map preorder cs))).
    { rewrite flat_map_map, !map_flat_map.
      apply flat_map_ext_Forall. exact IH. }
    rewrite rewrite_imgs_elem, (preorder_elem r name attrs cs).
    cbn [map shallow].
    assert (Hnode : forall kids,
      rewritten_node m prefix (Elem r name attrs kids)
      = if String.eqb "img" name
        then rewrite_img m prefix (Elem r name attrs kids)
        else Elem r name attrs kids) by reflexivity.
    rewrite !Hnode.
    destruct (String.eqb "img" name).
    + rewrite rewrite_img_preorder. cbn [map].
      rewrite rewrite_img_shallow, Hkids. reflexivity.
    + rewrite preorder_elem. cbn [map shallow]. rewrite Hkids. reflexivity.
Qed.

Lemma rewrite_img_nil (prefix : string) (n : node) : rewrite_img [] prefix n = n.
Proof.
  destruct n as [r k s | r name attrs cs]; [reflexivity|].
  unfold rewrite_img. destruct (Py.assoc "src" attrs) as [src|]; [|reflexivity].
  destruct (Str.is_empty src); reflexivity.
Qed.

Lemma rewrite_content_images_nodes (body : markup) (m : image_map_t) (prefix : string) :
  map shallow (nodes (rewrite_content_images body m prefix))
  = map (rewritten_node m prefix) (map shallow (nodes body)).
Proof.
  assert (Hid : forall l, map (rewritten_node [] prefix) (map shallow l) = map shallow l).
  { intros l. rewrite map_map. apply map_ext. intros n.
    unfold rewritten_node.
    destruct (named "img" (shallow n)); [apply rewrite_img_nil | reflexivity]. }
  unfold rewrite_content_images.
  destruct body as [|b body]; [reflexivity|].
  destruct m as [|kv m]; [rewrite Hid; reflexivity|].
  unfold nodes. rewrite flat_map_map, !map_flat_map.
  apply flat_map_ext_Forall. apply Forall_forall. intros n _.
  apply rewrite_imgs_preorder.
Qed.

Lemma src_of_shallow (n : node) : src_of (shallow n) = src_of n.
Proof. destruct n; reflexivity. Qed.

Lemma src_of_rewritten (m : image_map_t) (prefix : string) (n : node) :
  src_of (rewritten_node m prefix n) = map (rewritten_src m prefix) (src_of n).
Proof.
  unfold rewritten_node, src_of.
  destruct (named "img" n) eqn:E; [|rewrite E; reflexivity].
  rewrite rewrite_img_named, E.
  destruct n as [r k s | r name attrs cs]; simpl; [reflexivity|].
  unfold rewritten_src, claimed_src.
  destruct (Py.assoc "src" attrs) as [src|] eqn:Es; simpl; [|rewrite Es; reflexivity].
  destruct (Str.is_empty src); simpl; [rewrite Es; reflexivity|].
  destruct (Py.assoc src m); simpl; [|rewrite Es; reflexivity].
  rewrite assoc_set_attr. reflexivity.
Qed.

Lemma image_srcs_shallow (l : list node) :
  flat_map src_of (map shallow l) = flat_map src_of l.
Proof.
  rewrite flat_map_map. apply flat_map_ext_Forall, Forall_forall.
  intros n _. apply src_of_shallow.
Qed.

Lemma rewrite_content_images_srcs (body : markup) (m : image_map_t) (prefix : string) :
  image_srcs (rewrite_content_images body m prefix)
  = map (rewritten_src m prefix) (image_srcs body).
Proof.
  unfold image_srcs.
  rewrite <- (image_srcs_shallow (nodes (rewrite_content_images body m prefix))).
  rewrite rewrite_content_images_nodes.
  rewrite (map_flat_map (rewritten_src m prefix) src_of (nodes body)).
  rewrite !flat_map_map.
  apply flat_map_ext_Forall, Forall_forall. intros n _.
  rewrite src_of_rewritten, src_of_shallow. reflexivity.
Qed.




(* ------------------------------------------------------------------ *)
(** ** Removing objects from a tree *)

Lemma nodes_app (f g : forest) : nodes (f ++ g) = nodes f ++ nodes g.
Proof. unfold nodes. apply flat_map_app. Qed.

Lemma nodes_cons (n : node) (f : forest) : nodes (n :: f) = preorder n ++ nodes f.
Proof. reflexivity. Qed.

Lemma refs_app (f g : forest) : refs (f ++ g) = refs f ++ refs g.
Proof. unfold refs. rewrite nodes_app. apply map_app. Qed.

Lemma refs_cons (n : node) (f : forest) :
  refs (n :: f) = node_ref n :: refs (contents n) ++ refs f.
Proof.
  unfold refs. rewrite nodes_cons, map_app.
  destruct n; reflexivity.
Qed.

Lemma markup_tokens_app (f g : forest) :
  markup_tokens (f ++ g) = markup_tokens f ++ markup_tokens g.
Proof. unfold markup_tokens. apply flat_map_app. Qed.

Lemma kept_spec (rs : list ref) (n : node) :
  kept rs n = true <-> ~ In (node_ref n) rs.
Proof.
  unfold kept. rewrite negb_true_iff. split.
  - intros H Hin. assert (existsb (fun r => has_ref r n) rs = true) as E.
    { apply existsb_exists. exists (node_ref n). split; [exact Hin|].
      unfold has_ref. apply Nat.eqb_refl. }
    congruence.
  - intros H. destruct (existsb (fun r => has_ref r n) rs) eqn:E; [|reflexivity].
    apply existsb_exists in E as (r & Hin & Hr).
    unfold has_ref in Hr. apply Nat.eqb_eq in Hr. subst r. contradiction.
Qed.

Lemma prune_set_ref (rs : list ref) (n : node) : node_ref (prune_set rs n) = node_ref n.
Proof. destruct n; reflexivity. Qed.

Lemma prune_ref (r : ref) (n : node) : node_ref (prune r n) = node_ref n.
Proof. destruct n; reflexivity. Qed.

Lemma filter_all {A} (p : A -> bool) (l : list A) :
  (forall x, In x l -> p x = true) -> filter p l = l.
Proof.
  induction l as [|x l IH]; simpl; intros H; [reflexivity|].
  rewrite (H x (or_introl eq_refl)), IH; [reflexivity|].
  intros y Hy. apply H. right. exact Hy.
Qed.

Lemma filter_nothing {A} (p : A -> bool) (l : list A) :
  (forall x, In x l -> p x = false) -> filter p l = [].
Proof.
  induction l as [|x l IH]; simpl; intros H; [reflexivity|].
  rewrite (H x (or_introl eq_refl)). apply IH.
  intros y Hy. apply H. right. exact Hy.
Qed.

Lemma map_id_on {A} (g : A -> A) (l : list A) :
  (forall x, In x l -> g x = x) -> map g l = l.
Proof.
  induction l as [|x l IH]; simpl; intros H; [reflexivity|].
  rewrite (H x (or_introl eq_refl)), IH; [reflexivity|].
  intros y Hy. apply H. right. exact Hy.
Qed.

Lemma in_refs_child (c : node) (cs : list node) (r : ref) :
  In c cs -> In r (refs [c]) -> In r (refs cs).
Proof.
  intros Hc Hr. apply in_split in Hc as (l1 & l2 & ->).
  change (l1 ++ c :: l2) with (l1 ++ [c] ++ l2).
  rewrite !refs_app. apply in_or_app. right. apply in_or_app. left. exact Hr.
Qed.

Lemma node_ref_in_refs (c : node) : In (node_ref c) (refs [c]).
Proof. rewrite refs_cons. left. reflexivity. Qed.

(** Removing objects that do not occur changes nothing. *)
Lemma prune_set_absent (rs : list ref) (n : node) :
  (forall r, In r rs -> ~ In r (refs (contents n))) -> prune_set rs n = n.
Proof.
  induction n as [r k s | r name attrs cs IH] using node_induction;
    intros Habs; [reflexivity|].
  simpl in *. f_equal.
  assert (Hmap : map (prune_set rs) cs = cs).
  { apply map_id_on. intros c Hc.
    rewrite Forall_forall in IH. apply IH; [exact Hc|].
    intros x Hx Hin. apply (Habs x Hx).
    apply (in_refs_child c cs x Hc). rewrite refs_cons. right.
    apply in_or_app. left. exact Hin. }
  rewrite Hmap. apply filter_all. intros c Hc.
  apply kept_spec. intros Hin. apply (Habs _ Hin).
  apply (in_refs_child c cs _ Hc). apply node_ref_in_refs.
Qed.

Lemma decompose_set_absent (rs : list ref) (f : forest) :
  (forall r, In r rs -> ~ In r (refs f)) -> decompose_set rs f = f.
Proof.
  intros Habs. unfold decompose_set.
  assert (Hmap : map (prune_set rs) f = f).
  { apply map_id_on. intros c Hc. apply prune_set_absent.
    intros x Hx Hin. apply (Habs x Hx).
    apply (in_refs_child c f x Hc). rewrite refs_cons. right.
    apply in_or_app. left. exact Hin. }
  rewrite Hmap. apply filter_all. intros c Hc.
  apply kept_spec. intros Hin. apply (Habs _ Hin).
  apply (in_refs_child c f _ Hc). apply node_ref_in_refs.
Qed.

Lemma decompose_set_app (rs : list ref) (f g : forest) :
  decompose_set rs (f ++ g) = decompose_set rs f ++ decompose_set rs g.
Proof. unfold decompose_set. rewrite map_app, filter_app. reflexivity. Qed.

(** Removing the very siblings of a run leaves nothing of it. *)
Lemma decompose_set_all (seg : list node) :
  decompose_set (map node_ref seg) seg = [].
Proof.
  unfold decompose_set. apply filter_nothing. intros x Hx.
  apply in_map_iff in Hx as (n & <- & Hn).
  destruct (kept (map node_ref seg) (prune_set (map node_ref seg) n)) eqn:E;
    [|reflexivity].
  apply kept_spec in E. exfalso. apply E.
  rewrite prune_set_ref. apply in_map. exact Hn.
Qed.

Lemma NoDup_app_disjoint {A} (a b : list A) (x : A) :
  NoDup (a ++ b) -> In x a -> ~ In x b.
Proof.
  induction a as [|y a IH]; simpl; intros Hnd Hin; [contradiction|].
  inversion Hnd as [|? ? Hy Hnd']; subst.
  destruct Hin as [-> | Hin].
  - intros Hb. apply Hy. apply in_or_app. right. exact Hb.
  - apply IH; assumption.
Qed.

Lemma in_refs_seg (seg : list node) (n : node) :
  In n seg -> In (node_ref n) (refs seg).
Proof. intros Hn. apply (in_refs_child n seg _ Hn). apply node_ref_in_refs. Qed.

Lemma seg_at_refs (seg : list node) (f : forest) :
  seg_at seg f -> forall x, In x (refs seg) -> In x (refs f).
Proof.
  induction 1 as [l1 l2 | l1 l2 r name attrs cs _ IH]; intros x Hx.
  - rewrite !refs_app. apply in_or_app. right. apply in_or_app. left. exact Hx.
  - rewrite refs_app, refs_cons. apply in_or_app. right. right.
    apply in_or_app. left. apply IH. exact Hx.
Qed.

Lemma decompose_set_elem (rs : list ref) (r : ref) (name : string)
  (attrs : list (string * string)) (cs : list node) :
  ~ In r rs ->
  decompose_set rs [Elem r name attrs cs] = [Elem r name attrs (decompose_set rs cs)].
Proof.
  intros Hr. unfold decompose_set. simpl.
  assert (E : kept rs (Elem r name attrs (filter (kept rs) (map (prune_set rs) cs))) = true)
    by (apply kept_spec; exact Hr).
  rewrite E. reflexivity.
Qed.

(** Removing a run of siblings cuts its tokens out of the markup and leaves
    every other token where it was. *)
Lemma decompose_set_tokens (seg : list node) (f : forest) :
  seg_at seg f -> distinct_refs f ->
  exists pre post,
    markup_tokens f = pre ++ markup_tokens seg ++ post
    /\ markup_tokens (decompose_set (map node_ref seg) f) = pre ++ post.
Proof.
  unfold distinct_refs.
  induction 1 as [l1 l2 | l1 l2 r name attrs cs Hseg IH]; intros Hnd.
  - exists (markup_tokens l1), (markup_tokens l2).
    rewrite !markup_tokens_app. split; [reflexivity|].
    rewrite !refs_app in Hnd.
    rewrite !decompose_set_app, decompose_set_all.
    rewrite (decompose_set_absent _ l1), (decompose_set_absent _ l2).
    + rewrite !markup_tokens_app. reflexivity.
    + intros x Hx Hin. apply in_map_iff in Hx as (n & <- & Hn).
      apply NoDup_app_remove_l in Hnd.
      exact (NoDup_app_disjoint _ _ _ Hnd (in_refs_seg seg n Hn) Hin).
    + intros x Hx Hin. apply in_map_iff in Hx as (n & <- & Hn).
      apply (NoDup_app_disjoint _ _ _ Hnd Hin).
      apply in_or_app. left. exact (in_refs_seg seg n Hn).
  - change (l1 ++ Elem r name attrs cs :: l2)
      with (l1 ++ [Elem r name attrs cs] ++ l2) in *.
    rewrite !refs_app in Hnd.
    assert (Hin_cs : forall x, In x (map node_ref seg) -> In x (refs cs)).
    { intros x Hx. apply in_map_iff in Hx as (n & <- & Hn).
      apply (seg_at_refs Hseg). exact (in_refs_seg seg n Hn). }
    assert (Hmid : NoDup (refs [Elem r name attrs cs])).
    { apply NoDup_app_remove_l in Hnd. apply NoDup_app_remove_r in Hnd. exact Hnd. }
    rewrite refs_cons in Hmid. simpl in Hmid. rewrite app_nil_r in Hmid.
    inversion Hmid as [|? ? Hr Hcs]; subst.
    destruct (IH Hcs) as (pre & post & Hf & Hf').
    exists (markup_tokens l1 ++ Open r name attrs :: pre),
           (post ++ Close r :: markup_tokens l2).
    rewrite !decompose_set_app.
    rewrite (decompose_set_absent _ l1), (decompose_set_absent _ l2),
      decompose_set_elem.
    + rewrite !markup_tokens_app. unfold markup_tokens at 2 5. simpl.
      rewrite !app_nil_r.
      fold (markup_tokens cs). fold (markup_tokens (decompose_set (map node_ref seg) cs)).
      rewrite Hf, Hf'. repeat (rewrite <- app_assoc; simpl).
      split; reflexivity.
    + intros Hx. apply Hr. apply Hin_cs. exact Hx.
    + intros x Hx Hin. apply Hin_cs in Hx.
      apply NoDup_app_remove_l in Hnd.
      apply (NoDup_app_disjoint _ _ x Hnd); [|exact Hin].
      rewrite refs_cons. right. apply in_or_app. left. exact Hx.
    + intros x Hx Hin. apply Hin_cs in Hx.
      apply (NoDup_app_disjoint _ _ x Hnd Hin).
      apply in_or_app. left. rewrite refs_cons. right. apply in_or_app. left. exact Hx.
Qed.

Lemma kept_same_ref (rs : list ref) (a b : node) :
  node_ref a = node_ref b -> kept rs a = kept rs b.
Proof. intros E. unfold kept, has_ref. rewrite E. reflexivity. Qed.

Lemma kept_app (rs1 rs2 : list ref) (n : node) :
  kept (rs1 ++ rs2) n = kept rs1 n && kept rs2 n.
Proof. unfold kept. rewrite existsb_app, negb_orb. reflexivity. Qed.

Lemma prune_set_twice_children (rs1 rs2 : list ref) (cs : list node) :
  Forall (fun c => prune_set rs2 (prune_set rs1 c) = prune_set (rs1 ++ rs2) c) cs ->
  filter (kept rs2) (map (prune_set rs2) (filter (kept rs1) (map (prune_set rs1) cs)))
  = filter (kept (rs1 ++ rs2)) (map (prune_set (rs1 ++ rs2)) cs).
Proof.
  induction 1 as [|c cs Hc _ IH]; simpl; [reflexivity|].
  rewrite (kept_same_ref (rs1 ++ rs2) _ c (prune_set_ref _ c)), kept_app.
  rewrite (kept_same_ref rs1 _ c (prune_set_ref _ c)).
  destruct (kept rs1 c); simpl; [|exact IH].
  rewrite Hc.
  rewrite (kept_same_ref rs2 _ c (prune_set_ref _ c)).
  destruct (kept rs2 c); rewrite IH; reflexivity.
Qed.

Lemma prune_set_twice (rs1 rs2 : list ref) (n : node) :
  prune_set rs2 (prune_set rs1 n) = prune_set (rs1 ++ rs2) n.
Proof.
  induction n as [r k s | r name attrs cs IH] using node_induction; [reflexivity|].
  simpl. f_equal. apply prune_set_twice_children. exact IH.
Qed.

Lemma decompose_set_twice (rs1 rs2 : list ref) (f : forest) :
  decompose_set rs2 (decompose_set rs1 f) = decompose_set (rs1 ++ rs2) f.
Proof.
  unfold decompose_set. apply prune_set_twice_children.
  apply Forall_forall. intros c _. apply prune_set_twice.
Qed.

Lemma kept_one (r : ref) (n : node) : kept [r] n = negb (has_ref r n).
Proof. unfold kept. simpl. rewrite orb_false_r. reflexivity. Qed.

Lemma prune_as_set (r : ref) (n : node) : prune r n = prune_set [r] n.
Proof.
  induction n as [r' k s | r' name attrs cs IH] using node_induction; [reflexivity|].
  simpl. f_equal.
  induction IH as [|c cs Hc _ IHcs]; simpl; [reflexivity|].
  rewrite Hc, kept_one, IHcs. reflexivity.
Qed.

Lemma decompose_as_set (r : ref) (f : forest) : decompose r f = decompose_set [r] f.
Proof.
  unfold decompose, decompose_set.
  induction f as [|c f IH]; simpl; [reflexivity|].
  rewrite prune_as_set, kept_one, IH. reflexivity.
Qed.

Lemma decompose_set_nil (f : forest) : decompose_set [] f = f.
Proof. apply decompose_set_absent. intros r []. Qed.

(** Decomposing the objects of a list one after the other removes them
    all at once. *)
Lemma decompose_all_as_set (rs : list ref) (f : forest) :
  decompose_all rs f = decompose_set rs f.
Proof.
  unfold decompose_all.
  assert (H : forall done, fold_left (fun f r => decompose r f) rs (decompose_set done f)
                           = decompose_set (done ++ rs) f).
  { induction rs as [|r rs IH]; intros done; simpl.
    - rewrite app_nil_r. reflexivity.
    - rewrite decompose_as_set, decompose_set_twice, IH, <- app_assoc. reflexivity. }
  specialize (H []). rewrite decompose_set_nil in H. exact H.
Qed.

(* ------------------------------------------------------------------ *)
(** ** Where an object sits *)

Lemma seg_at_nil_inv (n : node) : ~ seg_at [n] [].
Proof.
  intros H. inversion H as [l1 l2 E | l1 l2 r name attrs cs _ E].
  - destruct l1; discriminate.
  - destruct l1; discriminate.
Qed.

Lemma in_preorder_seg_at (m n : node) :
  In n (preorder m) -> n = m \/ seg_at [n] (contents m).
Proof.
  induction m as [r k s | r name attrs cs IH] using node_induction.
  - simpl. intros [<- | []]. left. reflexivity.
  - rewrite preorder_elem. intros [<- | Hin]; [left; reflexivity|]. right.
    simpl. apply in_flat_map in Hin as (c & Hc & Hn).
    rewrite Forall_forall in IH. specialize (IH c Hc Hn).
    apply in_split in Hc as (l1 & l2 & ->).
    destruct IH as [-> | IH].
    + exact (seg_top [c] l1 l2).
    + destruct c as [r' k s | r' name' attrs' cs'].
      * exfalso. exact (seg_at_nil_inv IH).
      * apply seg_under. exact IH.
Qed.

(** A node of the tree is a run of one sibling. *)
Lemma in_nodes_seg_at (f : forest) (n : node) : In n (nodes f) -> seg_at [n] f.
Proof.
  intros Hin. apply in_flat_map in Hin as (m & Hm & Hn).
  apply in_split in Hm as (l1 & l2 & ->).
  destruct (in_preorder_seg_at m n Hn) as [-> | H].
  - exact (seg_top [m] l1 l2).
  - destruct m as [r k s | r name attrs cs].
    + exfalso. exact (seg_at_nil_inv H).
    + apply seg_under. exact H.
Qed.

Lemma seg_at_inside (seg : list node) (f : forest) (p : ref) (name : string)
  (attrs : list (string * string)) (cs : list node) :
  seg_at [Elem p name attrs cs] f -> seg_at seg cs -> seg_at seg f.
Proof.
  intros H Hseg.
  induction H as [l1 l2 | l1 l2 r name' attrs' cs' H IH].
  - apply (seg_under l1 l2 p name attrs Hseg).
  - apply seg_under. exact IH.
Qed.

Lemma seg_at_in_nodes (seg : list node) (f : forest) :
  seg_at seg f -> forall n, In n seg -> In n (nodes f).
Proof.
  induction 1 as [l1 l2 | l1 l2 r name attrs cs _ IH]; intros n Hn.
  - rewrite !nodes_app. apply in_or_app. right. apply in_or_app. left.
    apply in_flat_map. exists n. split; [exact Hn|].
    destruct n; left; reflexivity.
  - rewrite nodes_app, nodes_cons. apply in_or_app. right. apply in_or_app. left.
    rewrite preorder_elem. right. apply IH. exact Hn.
Qed.

Lemma seg_at_distinct (seg : list node) (f : forest) :
  seg_at seg f -> distinct_refs f -> distinct_refs seg.
Proof.
  unfold distinct_refs.
  induction 1 as [l1 l2 | l1 l2 r name attrs cs _ IH]; intros Hnd.
  - rewrite !refs_app in Hnd.
    apply NoDup_app_remove_l, NoDup_app_remove_r in Hnd. exact Hnd.
  - rewrite refs_app, refs_cons in Hnd. apply NoDup_app_remove_l in Hnd.
    inversion Hnd as [|? ? _ Hnd']; subst.
    apply NoDup_app_remove_r in Hnd'. apply IH. exact Hnd'.
Qed.

(** With distinct objects, a ref names one node. *)
Lemma same_ref_same_node (f : forest) (a b : node) :
  distinct_refs f -> In a (nodes f) -> In b (nodes f) ->
  node_ref a = node_ref b -> a = b.
Proof.
  unfold distinct_refs, refs. generalize (nodes f) as l.
  induction l as [|x l IH]; simpl; intros Hnd Ha Hb E; [contradiction|].
  inversion Hnd as [|? ? Hx Hnd']; subst.
  destruct Ha as [-> | Ha]; destruct Hb as [-> | Hb].
  - reflexivity.
  - exfalso. apply Hx. rewrite E. apply in_map. exact Hb.
  - exfalso. apply Hx. rewrite <- E. apply in_map. exact Ha.
  - apply IH; assumption.
Qed.

Lemma lookup_some (f : forest) (r : ref) (n : node) :
  lookup f r = Some n -> In n (nodes f) /\ node_ref n = r.
Proof.
  unfold lookup. intros H. apply find_some in H as [Hin Hr].
  split; [exact Hin|]. unfold has_ref in Hr. apply Nat.eqb_eq. exact Hr.
Qed.

Lemma lookup_in (f : forest) (n : node) :
  distinct_refs f -> In n (nodes f) -> lookup f (node_ref n) = Some n.
Proof.
  intros Hnd Hin. unfold lookup.
  destruct (find (has_ref (node_ref n)) (nodes f)) as [m|] eqn:E.
  - apply find_some in E as [Hm Hr]. unfold has_ref in Hr. apply Nat.eqb_eq in Hr.
    f_equal. exact (@same_ref_same_node f m n Hnd Hm Hin Hr).
  - exfalso. pose proof (List.find_none _ _ E n Hin) as H.
    unfold has_ref in H. rewrite Nat.eqb_refl in H. discriminate.
Qed.

Lemma split_at_ref (r : ref) (cs : list node) :
  existsb (has_ref r) cs = true ->
  exists n, node_ref n = r /\ cs = before r cs ++ n :: after r cs.
Proof.
  induction cs as [|c cs IH]; simpl; [discriminate|].
  destruct (has_ref r c) eqn:E; simpl.
  - intros _. exists c. split; [|reflexivity].
    unfold has_ref in E. apply Nat.eqb_eq. exact E.
  - intros H. destruct (IH H) as (n & Hn & Hcs). exists n. split; [exact Hn|].
    f_equal. exact Hcs.
Qed.

Lemma while_truthy_prefix (l : list node) :
  exists rest, l = while_truthy l ++ rest.
Proof.
  induction l as [|n l [rest IH]]; simpl.
  - exists []. reflexivity.
  - destruct (node_truthy n).
    + exists rest. simpl. f_equal. exact IH.
    + exists (n :: l). reflexivity.
Qed.

Lemma parent_node_some (f : forest) (r : ref) (p : node) :
  parent_node f r = Some p ->
  In p (nodes f)
  /\ exists n, node_ref n = r
               /\ contents p = before r (contents p) ++ n :: after r (contents p).
Proof.
  unfold parent_node. intros H. apply find_some in H as [Hin Hex].
  split; [exact Hin|]. apply split_at_ref. exact Hex.
Qed.

(* ------------------------------------------------------------------ *)
(** ** The footer pass *)

Lemma distinct_NoDup (l : list nat) : distinct l = true -> NoDup l.
Proof.
  induction l as [|x l IH]; simpl; intros H; constructor.
  - apply andb_true_iff in H as [Hx _]. apply negb_true_iff in Hx.
    intros Hin. assert (existsb (Nat.eqb x) l = true) as E.
    { apply existsb_exists. exists x. split; [exact Hin | apply Nat.eqb_refl]. }
    congruence.
  - apply andb_true_iff in H as [_ Hl]. auto.
Qed.

Lemma while_truthy_all (l : list node) :
  (forall n, In n l -> node_truthy n = true) -> while_truthy l = l.
Proof.
  induction l as [|n l IH]; simpl; intros H; [reflexivity|].
  rewrite (H n (or_introl eq_refl)), IH; [reflexivity|].
  intros m Hm. apply H. right. exact Hm.
Qed.

Lemma in_after (r : ref) (cs : list node) (n : node) : In n (after r cs) -> In n cs.
Proof.
  induction cs as [|c cs IH]; simpl; [tauto|].
  destruct (has_ref r c); auto.
Qed.

Lemma in_contents_nodes (f : forest) (p n : node) :
  In p (nodes f) -> In n (contents p) -> In n (nodes f).
Proof.
  intros Hp Hn. apply in_nodes_seg_at in Hp.
  destruct p as [r k s | r name attrs cs]; [contradiction|].
  apply in_split in Hn as (l1 & l2 & Hcs). simpl in Hcs.
  apply (seg_at_in_nodes (seg_at_inside Hp (eq_ind_r (seg_at [n]) (seg_top [n] l1 l2) Hcs))).
  left. reflexivity.
Qed.

(** The ascent of the footer pass: [k] steps up from the matched string's
    parent, each through a parent other than the container that has at most
    one element child, stopping after 10 steps, at the root, below the
    container or below a parent with several element children. *)
Lemma footer_ascend_spec (fuel : nat) (f : forest) (c p0 : ref) :
  exists k,
    k <= fuel /\ ancestor k f p0 = Some (footer_ascend fuel f c p0)
    /\ (forall j, j < k ->
          exists x g, ancestor j f p0 = Some x /\ parent_node f x = Some g
                      /\ node_ref g <> c /\ List.length (element_children g) <= 1)
    /\ (k = fuel
        \/ tag_parent f (footer_ascend fuel f c p0) = None
        \/ tag_parent f (footer_ascend fuel f c p0) = Some c
        \/ exists g, parent_node f (footer_ascend fuel f c p0) = Some g
                     /\ 1 < List.length (element_children g)).
Proof.
  revert p0. induction fuel as [|fuel IH]; intros p0.
  - exists 0. simpl. repeat split; auto. intros j Hj. lia.
  - simpl. destruct (parent_node f p0) as [g|] eqn:Ep.
    + destruct (node_ref g =? c) eqn:Ec.
      * exists 0. simpl. repeat split; [lia | intros j Hj; lia |].
        right. right. left. unfold tag_parent. rewrite Ep. simpl.
        apply Nat.eqb_eq in Ec. rewrite Ec. reflexivity.
      * destruct (1 <? List.length (element_children g)) eqn:El.
        -- exists 0. simpl. repeat split; [lia | intros j Hj; lia |].
           right. right. right. exists g. split; [exact Ep|].
           apply Nat.ltb_lt. exact El.
        -- destruct (IH (node_ref g)) as (k & Hk & Hanc & Hsteps & Hstop).
           exists (S k). split; [lia|]. split; [|split].
           ++ simpl. unfold tag_parent. rewrite Ep. simpl. exact Hanc.
           ++ intros [|j] Hj.
              ** exists p0, g. simpl. repeat split; auto.
                 --- apply Nat.eqb_neq. exact Ec.
                 --- apply Nat.ltb_ge. exact El.
              ** destruct (Hsteps j) as (x & g' & Hx & Hg); [lia|].
                 exists x, g'. split; [|exact Hg].
                 simpl. unfold tag_parent. rewrite Ep. simpl. exact Hx.
           ++ destruct Hstop as [-> | Hstop]; [left; reflexivity | right; exact Hstop].
    + exists 0. simpl. repeat split; [lia | intros j Hj; lia |].
      right. left. unfold tag_parent. rewrite Ep. reflexivity.
Qed.


Lemma footer_step_unfold (c el p0 : ref) (f : forest) :
  string_parent f el = Ok (Some p0) ->
  footer_step c el f
  = let node := footer_ascend 10 f c p0 in
    if negb (node =? c)
       && match tag_parent f node with
          | Some g => negb (g =? c)
          | None => false
          end
    then Ok (decompose_all (to_remove f node) f)
    else Ok f.
Proof. intros H. unfold footer_step. rewrite H. reflexivity. Qed.


Lemma no_empty_strings_check (f : forest) :
  forallb node_truthy (nodes f) = true -> no_empty_strings f.
Proof. intros H n Hn. rewrite forallb_forall in H. exact (H n Hn). Qed.


Example footer_step_nested :
  footer_step 1 7 Sample4.nested_doc = Ok Sample4.nested_doc_cleaned.
Proof. vm_compute. reflexivity. Qed.

(* ------------------------------------------------------------------ *)
(** ** The boilerplate-link pass *)

Lemma link_step_unfold (c a p0 : ref) (f : forest) (n : node) :
  lookup f a = Some n -> is_boilerplate (get_text n) = true ->
  tag_parent f a = Some p0 ->
  link_step c a f
  = let block := link_ascend 3 f c p0 in
    if negb (block =? c) && (String.length (tag_get_text f block) <? 300)
    then Ok (decompose block f)
    else Ok (decompose a f).
Proof.
  intros Hn Hb Hp. unfold link_step, tag_get, tag_get_text.
  rewrite Hn. cbn [bind]. rewrite Hb, Hp. reflexivity.
Qed.

(** The ascent of the link pass: [k] steps up from the anchor's parent,
    each from a node of less than 200 characters whose parent is not the
    container, stopping after 3 steps, at the root, below the container or at
    a node of 200 characters or more. *)
Lemma link_ascend_spec (fuel : nat) (f : forest) (c p0 : ref) :
  exists k,
    k <= fuel /\ ancestor k f p0 = Some (link_ascend fuel f c p0)
    /\ (forall j, j < k ->
          exists x g, ancestor j f p0 = Some x /\ tag_parent f x = Some g
                      /\ g <> c /\ String.length (tag_get_text f x) < 200)
    /\ (k = fuel
        \/ tag_parent f (link_ascend fuel f c p0) = None
        \/ tag_parent f (link_ascend fuel f c p0) = Some c
        \/ 200 <= String.length (tag_get_text f (link_ascend fuel f c p0))).
Proof.
  revert p0. induction fuel as [|fuel IH]; intros p0.
  - exists 0. simpl. repeat split; auto. intros j Hj. lia.
  - simpl. destruct (tag_parent f p0) as [g|] eqn:Ep.
    + destruct (g =? c) eqn:Ec.
      * exists 0. simpl. repeat split; [lia | intros j Hj; lia |].
        right. right. left. apply Nat.eqb_eq in Ec. rewrite Ep, Ec. reflexivity.
      * destruct (String.length (tag_get_text f p0) <? 200) eqn:El.
        -- destruct (IH g) as (k & Hk & Hanc & Hsteps & Hstop).
           exists (S k). split; [lia|]. split; [|split].
           ++ simpl. rewrite Ep. exact Hanc.
           ++ intros [|j] Hj.
              ** exists p0, g. simpl. repeat split; auto.
                 --- apply Nat.eqb_neq. exact Ec.
                 --- apply Nat.ltb_lt. exact El.
              ** destruct (Hsteps j) as (x & g' & Hx & Hg); [lia|].
                 exists x, g'. split; [|exact Hg].
                 simpl. rewrite Ep. exact Hx.
           ++ destruct Hstop as [-> | Hstop]; [left; reflexivity | right; exact Hstop].
        -- exists 0. simpl. repeat split; [lia | intros j Hj; lia |].
           right. right. right. apply Nat.ltb_ge. exact El.
    + exists 0. simpl. repeat split; [lia | intros j Hj; lia |].
      right. left. exact Ep.
Qed.

Lemma link_ascend_long (fuel : nat) (f : forest) (c p0 : ref) :
  200 <= String.length (tag_get_text f p0) -> link_ascend fuel f c p0 = p0.
Proof.
  intros H. destruct fuel as [|fuel]; simpl; [reflexivity|].
  destruct (tag_parent f p0) as [g|]; [|reflexivity].
  destruct (g =? c); [reflexivity|].
  apply Nat.ltb_ge in H. rewrite H. reflexivity.
Qed.

(** Removing one attached object cuts its tokens out of the markup. *)
Lemma decompose_tokens (f : forest) (r : ref) (n : node) :
  distinct_refs f -> lookup f r = Some n ->
  exists pre post,
    markup_tokens f = pre ++ tokens n ++ post
    /\ markup_tokens (decompose r f) = pre ++ post.
Proof.
  intros Hnd Hn. apply lookup_some in Hn as [Hin Hr].
  destruct (decompose_set_tokens (in_nodes_seg_at f n Hin) Hnd) as (pre & post & Hf & Hf').
  exists pre, post. simpl in Hf, Hf'. rewrite app_nil_r in Hf.
  rewrite Hr in Hf'. rewrite decompose_as_set. split; assumption.
Qed.

Lemma tag_parent_attached (f : forest) (x g : ref) :
  distinct_refs f -> tag_parent f x = Some g -> exists G, lookup f g = Some G.
Proof.
  intros Hnd H. unfold tag_parent in H.
  destruct (parent_node f x) as [G|] eqn:E; [|discriminate].
  injection H as <-. exists G. apply lookup_in; [exact Hnd|].
  apply parent_node_some in E as [HG _]. exact HG.
Qed.

Lemma link_ascend_attached (fuel : nat) (f : forest) (c p0 : ref) :
  distinct_refs f ->
  (exists P, lookup f p0 = Some P) ->
  exists B, lookup f (link_ascend fuel f c p0) = Some B.
Proof.
  intros Hnd. revert p0. induction fuel as [|fuel IH]; intros p0 Hp; simpl; [exact Hp|].
  destruct (tag_parent f p0) as [g|] eqn:E; [|exact Hp].
  destruct (g =? c); [exact Hp|].
  destruct (String.length (tag_get_text f p0) <? 200); [|exact Hp].
  apply IH. exact (@tag_parent_attached f p0 g Hnd E).
Qed.


Example link_step_article :
  link_step 1 5 Sample4.article_doc
  = Ok [Elem 0 "[document]" [] [Sample4.container 1 [Sample4.para 2 Sample4.prose]]]
  /\ spec_link_step 5 Sample4.article_doc
     = [Elem 0 "[document]" []
          [Sample4.container 1
             [Sample4.para 2 Sample4.prose;
              Elem 4 "p" [] [Text 7 NavigableString "Enjoying this? "]]]].
Proof. split; vm_compute; reflexivity. Qed.



(* ------------------------------------------------------------------ *)
(** ** The tracking-pixel pass *)

Lemma opened_app (a b : list token) : opened (a ++ b) = opened a ++ opened b.
Proof. unfold opened. apply flat_map_app. Qed.

Lemma opened_tokens (n : node) : opened (tokens n) = map shallow (preorder n).
Proof.
  induction n as [r k s | r name attrs cs IH] using node_induction; [reflexivity|].
  rewrite preorder_elem. cbn [tokens map shallow].
  change (Open r name attrs :: flat_map tokens cs ++ [Close r])
    with ([Open r name attrs] ++ flat_map tokens cs ++ [Close r]).
  rewrite !opened_app. cbn [opened flat_map app]. rewrite app_nil_r. f_equal.
  induction IH as [|c cs Hc _ IHcs]; [reflexivity|].
  cbn [flat_map]. rewrite opened_app, map_app, Hc, IHcs. reflexivity.
Qed.

Lemma labels_tokens (f : forest) : labels f = opened (markup_tokens f).
Proof.
  unfold labels, nodes, markup_tokens.
  induction f as [|n f IH]; [reflexivity|].
  cbn [flat_map]. rewrite opened_app, map_app, opened_tokens, IH. reflexivity.
Qed.

Lemma refs_labels (f : forest) : refs f = map node_ref (labels f).
Proof.
  unfold refs, labels. rewrite map_map. apply map_ext. intros n. destruct n; reflexivity.
Qed.

Lemma find_map_shallow (p : node -> bool) (l : list node) :
  (forall n, p (shallow n) = p n) ->
  find p (map shallow l) = option_map shallow (find p l).
Proof.
  intros Hp. induction l as [|n l IH]; simpl; [reflexivity|].
  rewrite Hp. destruct (p n); [reflexivity | exact IH].
Qed.

(** Looking an object up sees the same node, contents apart, as the
    labels do. *)
Lemma lookup_labels (f : forest) (r : ref) :
  find (has_ref r) (labels f) = option_map shallow (lookup f r).
Proof.
  unfold labels, lookup. apply find_map_shallow. intros n. destruct n; reflexivity.
Qed.

Lemma NoDup_map_filter {A B} (g : A -> B) (p : A -> bool) (l : list A) :
  NoDup (map g l) -> NoDup (map g (filter p l)).
Proof.
  induction l as [|x l IH]; simpl; intros H; [constructor|].
  inversion H as [|? ? Hx Hl]; subst.
  destruct (p x); simpl; [|auto].
  constructor; [|auto].
  intros Hin. apply Hx. apply in_map_iff in Hin as (y & Hy & Hin).
  apply filter_In in Hin as [Hin _]. rewrite <- Hy. apply in_map. exact Hin.
Qed.

(** Removing a node without contents removes its label and no other. *)
Lemma decompose_leaf_labels (f : forest) (r : ref) (n : node) :
  distinct_refs f -> lookup f r = Some n -> contents n = [] ->
  labels (decompose r f) = filter (fun m => negb (has_ref r m)) (labels f).
Proof.
  intros Hnd Hn Hleaf.
  destruct (@decompose_tokens f r n Hnd Hn) as (pre & post & Hf & Hf').
  apply lookup_some in Hn as [_ Hr].
  unfold distinct_refs in Hnd. rewrite refs_labels in Hnd.
  rewrite !labels_tokens, Hf, Hf' in *. rewrite !opened_app in *.
  assert (Hone : opened (tokens n) = [shallow n]).
  { rewrite opened_tokens. destruct n as [r' k s | r' name attrs cs]; [reflexivity|].
    simpl in Hleaf. subst cs. reflexivity. }
  rewrite Hone in *. rewrite !filter_app.
  assert (Hn : has_ref r (shallow n) = true).
  { unfold has_ref. apply Nat.eqb_eq. rewrite <- Hr. destruct n; reflexivity. }
  simpl. rewrite Hn. simpl.
  rewrite !map_app in Hnd. simpl in Hnd.
  assert (Hrn : node_ref (shallow n) = r).
  { unfold has_ref in Hn. apply Nat.eqb_eq. exact Hn. }
  rewrite Hrn in Hnd.
  rewrite (filter_all _ (opened pre)), (filter_all _ (opened post)); [reflexivity| |].
  - intros m Hm. apply negb_true_iff. unfold has_ref. apply Nat.eqb_neq. intros E.
    apply NoDup_remove_2 in Hnd. apply Hnd. apply in_or_app. right.
    rewrite <- E. apply in_map. exact Hm.
  - intros m Hm. apply negb_true_iff. unfold has_ref. apply Nat.eqb_neq. intros E.
    apply NoDup_remove_2 in Hnd. apply Hnd. apply in_or_app. left.
    rewrite <- E. apply in_map. exact Hm.
Qed.

Lemma in_preorder_prune (r : ref) (m n' : node) :
  In n' (preorder (prune r m)) -> exists n, In n (preorder m) /\ n' = prune r n.
Proof.
  induction m as [r' k s | r' name attrs cs IH] using node_induction.
  - simpl. intros [<- | []]. exists (Text r' k s). split; [left|]; reflexivity.
  - change (prune r (Elem r' name attrs cs))
      with (Elem r' name attrs (filter (fun c => negb (has_ref r c)) (map (prune r) cs))).
    rewrite !preorder_elem. intros [<- | Hin].
    + exists (Elem r' name attrs cs). split; [left|]; reflexivity.
    + apply in_flat_map in Hin as (c' & Hc' & Hn').
      apply filter_In in Hc' as [Hc' _].
      apply in_map_iff in Hc' as (c & <- & Hc).
      rewrite Forall_forall in IH. destruct (IH c Hc Hn') as (n & Hn & ->).
      exists n. split; [|reflexivity]. right. apply in_flat_map. exists c. auto.
Qed.

Lemma in_nodes_decompose (r : ref) (f : forest) (n' : node) :
  In n' (nodes (decompose r f)) -> exists n, In n (nodes f) /\ n' = prune r n.
Proof.
  unfold nodes, decompose. intros Hin.
  apply in_flat_map in Hin as (c' & Hc' & Hn').
  apply filter_In in Hc' as [Hc' _].
  apply in_map_iff in Hc' as (c & <- & Hc).
  destruct (in_preorder_prune r c n' Hn') as (n & Hn & ->).
  exists n. split; [|reflexivity]. apply in_flat_map. exists c. auto.
Qed.

Lemma childless_imgs_decompose (r : ref) (f : forest) :
  childless_imgs f -> childless_imgs (decompose r f).
Proof.
  intros H n' Hin Himg. apply in_nodes_decompose in Hin as (n & Hn & ->).
  destruct n as [r' k s | r' name attrs cs]; [reflexivity|].
  specialize (H _ Hn Himg). simpl in H. subst cs. reflexivity.
Qed.

Lemma distinct_refs_decompose_leaf (f : forest) (r : ref) (n : node) :
  distinct_refs f -> lookup f r = Some n -> contents n = [] ->
  distinct_refs (decompose r f).
Proof.
  intros Hnd Hn Hleaf. unfold distinct_refs.
  rewrite refs_labels, (decompose_leaf_labels r Hnd Hn Hleaf).
  apply NoDup_map_filter. rewrite <- refs_labels. exact Hnd.
Qed.

Lemma tracking_step_eq (f : forest) (img : ref) (n : node) :
  lookup f img = Some n ->
  tracking_step img f = Ok (if is_tracking_pixel n then decompose img f else f).
Proof.
  intros Hn. unfold tracking_step, tag_get. rewrite Hn. cbn [bind].
  unfold is_tracking_pixel, attr_or_empty.
  destruct (tiny _ _); [reflexivity|].
  destruct (tracked _); reflexivity.
Qed.

Lemma filter_twice {A} (p q : A -> bool) (l : list A) :
  filter p (filter q l) = filter (fun x => q x && p x) l.
Proof.
  induction l as [|x l IH]; simpl; [reflexivity|].
  destruct (q x); simpl; [destruct (p x)|]; rewrite IH; reflexivity.
Qed.

Lemma label_unique (f : forest) (a b : node) :
  distinct_refs f -> In a (labels f) -> In b (labels f) ->
  node_ref a = node_ref b -> a = b.
Proof.
  unfold distinct_refs. rewrite refs_labels. generalize (labels f) as l.
  induction l as [|x l IH]; simpl; intros Hnd Ha Hb E; [contradiction|].
  inversion Hnd as [|? ? Hx Hnd']; subst.
  destruct Ha as [-> | Ha]; destruct Hb as [-> | Hb].
  - reflexivity.
  - exfalso. apply Hx. rewrite E. apply in_map. exact Hb.
  - exfalso. apply Hx. rewrite <- E. apply in_map. exact Ha.
  - apply IH; assumption.
Qed.

Lemma is_tracking_pixel_shallow (n : node) :
  is_tracking_pixel (shallow n) = is_tracking_pixel n.
Proof. destruct n; reflexivity. Qed.

(** The loop of the pass over a list of attached images. *)
Lemma tracking_loop (imgs : list ref) :
  forall f : forest,
    distinct_refs f -> childless_imgs f -> NoDup imgs ->
    (forall r, In r imgs ->
       exists m, In m (labels f) /\ node_ref m = r /\ named "img" m = true) ->
    exists f',
      for_each imgs tracking_step f = Ok f'
      /\ labels f' = filter (fun m => negb (tracking_deleted imgs m)) (labels f).
Proof.
  induction imgs as [|r imgs IH]; intros f Hnd Hvoid Himgs Hin.
  - exists f. split; [reflexivity|].
    symmetry. apply filter_all. intros m _. reflexivity.
  - destruct (Hin r (or_introl eq_refl)) as (m & Hm & Hr & Himg).
    unfold labels in Hm. apply in_map_iff in Hm as (n & Hmn & Hn).
    assert (Hrn : node_ref n = r) by (rewrite <- Hr, <- Hmn; destruct n; reflexivity).
    assert (Hlook : lookup f r = Some n) by (rewrite <- Hrn; apply lookup_in; assumption).
    assert (Hleaf : contents n = []).
    { apply Hvoid; [exact Hn|]. rewrite <- Hmn in Himg. destruct n; exact Himg. }
    apply NoDup_cons_iff in Himgs as [Hfresh Himgs'].
    cbn [for_each]. rewrite (@tracking_step_eq f r n Hlook). cbn [bind].
    assert (Hself : forall x, In x (labels f) -> has_ref r x = true -> x = shallow n).
    { intros x Hx Hxr. apply (@label_unique f x (shallow n) Hnd Hx).
      - unfold labels. apply in_map. exact Hn.
      - unfold has_ref in Hxr. apply Nat.eqb_eq in Hxr. rewrite Hxr, <- Hrn.
        destruct n; reflexivity. }
    pose proof (@decompose_leaf_labels f r n Hnd Hlook Hleaf) as Hcut.
    destruct (is_tracking_pixel n) eqn:Epix.
    + destruct (IH (decompose r f)) as (f' & Hloop & Hlabels).
      * exact (@distinct_refs_decompose_leaf f r n Hnd Hlook Hleaf).
      * apply childless_imgs_decompose. exact Hvoid.
      * exact Himgs'.
      * intros r' Hr'. destruct (Hin r' (or_intror Hr')) as (m' & Hm' & Hmr & Hmi).
        exists m'. split; [|auto].
        rewrite Hcut. apply filter_In. split; [exact Hm'|].
        apply negb_true_iff. unfold has_ref. apply Nat.eqb_neq.
        intros E. apply Hfresh. rewrite <- E, Hmr. exact Hr'.
      * exists f'. split; [exact Hloop|].
        rewrite Hlabels, Hcut.
        rewrite filter_twice. apply filter_ext_in. intros x Hx.
        unfold tracking_deleted. cbn [existsb].
        destruct (has_ref r x) eqn:Ex; cbn [negb orb andb]; [|reflexivity].
        rewrite (Hself x Hx Ex), is_tracking_pixel_shallow, Epix. reflexivity.
    + destruct (IH f Hnd Hvoid Himgs') as (f' & Hloop & Hlabels).
      * intros r' Hr'. apply Hin. right. exact Hr'.
      * exists f'. split; [exact Hloop|].
        rewrite Hlabels. apply filter_ext_in. intros x Hx.
        unfold tracking_deleted. cbn [existsb].
        destruct (has_ref r x) eqn:Ex; cbn [orb]; [|reflexivity].
        rewrite (Hself x Hx Ex), is_tracking_pixel_shallow, Epix.
        rewrite !andb_false_r. reflexivity.
Qed.

Lemma in_descendants_nodes (f : forest) (p n : node) :
  In p (nodes f) -> In n (descendants p) -> In n (nodes f).
Proof.
  intros Hp Hn. apply in_nodes_seg_at in Hp. unfold descendants in Hn.
  destruct p as [r k s | r name attrs cs]; [contradiction|].
  apply (seg_at_in_nodes (seg_at_inside Hp (in_nodes_seg_at cs n Hn))).
  left. reflexivity.
Qed.

(** What [find_all] returns: distinct refs of nodes of the tree that
    satisfy the filter. *)
Lemma find_all_sound (f : forest) (c : ref) (p : node -> bool) :
  distinct_refs f ->
  NoDup (find_all f c p)
  /\ forall r, In r (find_all f c p) ->
       exists n, In n (nodes f) /\ node_ref n = r /\ p n = true.
Proof.
  intros Hnd. unfold find_all.
  destruct (lookup f c) as [C|] eqn:EC; [|split; [constructor | intros r []]].
  apply lookup_some in EC as [HC _]. unfold find_all_in. split.
  - apply NoDup_map_filter.
    pose proof (seg_at_distinct (in_nodes_seg_at f C HC) Hnd) as HndC.
    unfold distinct_refs in HndC. rewrite refs_cons, app_nil_r in HndC.
    inversion HndC; assumption.
  - intros r Hr. apply in_map_iff in Hr as (n & Hn & Hin).
    apply filter_In in Hin as [Hin Hp].
    exists n. split; [|auto]. exact (in_descendants_nodes f C n HC Hin).
Qed.

Lemma childless_imgs_check (f : forest) :
  forallb (fun n => negb (named "img" n)
                    || match contents n with [] => true | _ => false end)
    (nodes f) = true ->
  childless_imgs f.
Proof.
  intros H n Hn Himg. rewrite forallb_forall in H. specialize (H n Hn).
  rewrite Himg in H. simpl in H. destruct (contents n); [reflexivity | discriminate].
Qed.

(** C10. The tracking-pixel pass (on a tree as the parser builds it:
    distinct objects, [img] tags without contents) completes, and it deletes
    exactly the images of the container that are tiny (width or height 0 or
    1) or whose [src] contains one of the markers [open.substack.com],
    [pixel], [track], [beacon], [email-analytics], [/o/], [sp.beehiiv.com];
    every other node stays.  So an image whose [src] contains a marker
    anywhere is deleted whatever its dimensions, and an image that is neither
    tiny nor marked stays. *)
Theorem tracking_pass_removes_tracked :
  forall (f : forest) (c : ref),
    distinct_refs f -> childless_imgs f ->
    exists f',
      tracking_pass c f = Ok f'
      /\ labels f'
         = filter (fun m => negb (tracking_deleted (find_all f c (named "img")) m))
             (labels f)
      /\ (forall img n,
            In img (find_all f c (named "img")) -> lookup f img = Some n ->
            tracked (attr_or_empty "src" n) = true -> attached f' img = false)
      /\ (forall img n,
            In img (find_all f c (named "img")) -> lookup f img = Some n ->
            is_tracking_pixel n = false -> attached f' img = true).
Proof.
  intros f c Hnd Hvoid.
  destruct (@find_all_sound f c (named "img") Hnd) as [Himgs Hin].
  destruct (@tracking_loop (find_all f c (named "img")) f Hnd Hvoid Himgs)
    as (f' & Hpass & Hlabels).
  { intros r Hr. destruct (Hin r Hr) as (n & Hn & Hrn & Himg).
    exists (shallow n). split; [unfold labels; apply in_map; exact Hn|].
    destruct n; auto. }
  exists f'. split; [exact Hpass|]. split; [exact Hlabels|].
  assert (Hlabel : forall img n, lookup f img = Some n ->
            In (shallow n) (labels f) /\ has_ref img (shallow n) = true).
  { intros img n Hn. apply lookup_some in Hn as [Hn Hr]. split.
    - unfold labels. apply in_map. exact Hn.
    - unfold has_ref. apply Nat.eqb_eq. rewrite <- Hr. destruct n; reflexivity. }
  assert (Hmem : forall img n, In img (find_all f c (named "img")) ->
            lookup f img = Some n ->
            existsb (fun r => has_ref r (shallow n)) (find_all f c (named "img")) = true).
  { intros img n Himg Hn. apply existsb_exists. exists img.
    split; [exact Himg | apply (Hlabel img n Hn)]. }
  split.
  - intros img n Himg Hn Hsrc. unfold attached.
    pose proof (lookup_labels f' img) as Hfind.
    destruct (lookup f' img) as [n'|]; [|reflexivity]. exfalso.
    simpl in Hfind. apply find_some in Hfind as [Hin' Href].
    rewrite Hlabels in Hin'. apply filter_In in Hin' as [Hin' Hkeep].
    destruct (Hlabel img n Hn) as [Hsn Hrn].
    assert (E : shallow n' = shallow n).
    { apply (@label_unique f _ _ Hnd Hin' Hsn).
      unfold has_ref in Href, Hrn. apply Nat.eqb_eq in Href, Hrn. congruence. }
    rewrite E in Hkeep. unfold tracking_deleted in Hkeep.
    rewrite (Hmem img n Himg Hn), is_tracking_pixel_shallow in Hkeep.
    unfold is_tracking_pixel in Hkeep. rewrite Hsrc, orb_true_r in Hkeep.
    discriminate Hkeep.
  - intros img n Himg Hn Hpix. unfold attached.
    pose proof (lookup_labels f' img) as Hfind.
    destruct (lookup f' img) as [n'|]; [reflexivity|]. exfalso.
    simpl in Hfind. destruct (Hlabel img n Hn) as [Hsn Hrn].
    assert (Hin' : In (shallow n) (labels f')).
    { rewrite Hlabels. apply filter_In. split; [exact Hsn|].
      unfold tracking_deleted. rewrite is_tracking_pixel_shallow, Hpix, andb_false_r.
      reflexivity. }
    pose proof (List.find_none _ _ Hfind _ Hin') as H. congruence.
Qed.

Lemma tracking_pass_removes_tracked_witness :
  exists f',
    tracking_pass 1 Sample4.photo_doc = Ok f'
    /\ attached f' 4 = false /\ attached f' 5 = true.
Proof.
  assert (Hnd : distinct_refs Sample4.photo_doc)
    by (apply distinct_NoDup; reflexivity).
  assert (Hvoid : childless_imgs Sample4.photo_doc)
    by (apply childless_imgs_check; reflexivity).
  destruct (@tracking_pass_removes_tracked Sample4.photo_doc 1 Hnd Hvoid)
    as (f' & Hpass & _ & Hgone & Hstay).
  exists f'. split; [exact Hpass|]. split.
  - apply (Hgone 4 (Elem 4 "img" [("src", "https://cdn.example.com/o/photo.png");
                                  ("width", "600"); ("height", "400")] [])).
    + vm_compute. left. reflexivity.
    + reflexivity.
    + vm_compute. reflexivity.
  - apply (Hstay 5 (Elem 5 "img" [("src", "https://cdn.example.com/a.png")] [])).
    + vm_compute. right. left. reflexivity.
    + reflexivity.
    + vm_compute. reflexivity.
Defined.

Example tracking_pass_photo :
  tracking_pass 1 Sample4.photo_doc
  = Ok [Elem 0 "[document]" []
          [Sample4.container 1
             [Sample4.para 2 "Photo";
              Elem 5 "img" [("src", "https://cdn.example.com/a.png")] []]]].
Proof. vm_compute. reflexivity. Qed.

(* ------------------------------------------------------------------ *)
(** ** The sitemap: which URLs are posts, and in which order *)

Lemma ascii_compare_refl (a : ascii) : Ascii.compare a a = Eq.
Proof. unfold Ascii.compare. apply N.compare_refl. Qed.

Lemma string_compare_refl (s : string) : String.compare s s = Eq.
Proof.
  induction s as [|c s IH]; simpl; [reflexivity|].
  rewrite ascii_compare_refl. exact IH.
Qed.

Lemma ascii_compare_lt_trans (a b c : ascii) :
  Ascii.compare a b = Lt -> Ascii.compare b c = Lt -> Ascii.compare a c = Lt.
Proof. unfold Ascii.compare. rewrite !N.compare_lt_iff. apply N.lt_trans. Qed.

Lemma string_compare_lt_trans (a : string) :
  forall b c, String.compare a b = Lt -> String.compare b c = Lt ->
              String.compare a c = Lt.
Proof.
  induction a as [|x a IH]; intros [|y b] [|z c]; simpl; try congruence.
  destruct (Ascii.compare x y) eqn:Hxy; destruct (Ascii.compare y z) eqn:Hyz;
    try congruence.
  - apply Ascii.compare_eq_iff in Hxy, Hyz. subst.
    rewrite ascii_compare_refl. apply IH.
  - apply Ascii.compare_eq_iff in Hxy. subst. rewrite Hyz. reflexivity.
  - apply Ascii.compare_eq_iff in Hyz. subst. rewrite Hxy. reflexivity.
  - rewrite (ascii_compare_lt_trans _ _ _ Hxy Hyz). reflexivity.
Qed.

Lemma string_compare_gt (a b : string) :
  String.compare a b = Gt <-> String.compare b a = Lt.
Proof.
  rewrite (String.compare_antisym a b).
  destruct (String.compare b a); simpl; split; congruence.
Qed.

Lemma string_ltb_lt (a b : string) : String.ltb a b = true <-> String.compare a b = Lt.
Proof. unfold String.ltb. destruct (String.compare a b); split; congruence. Qed.

(** The order of the keys, as one comparison. *)
Lemma entry_lt_cases (a b : sitemap_entry) :
  entry_lt a b = true <->
  String.compare (lastmod_key a) (lastmod_key b) = Lt
  \/ (lastmod_key a = lastmod_key b /\ String.compare (fst a) (fst b) = Lt).
Proof.
  unfold entry_lt.
  destruct (String.compare (lastmod_key a) (lastmod_key b)) eqn:H.
  - apply String.compare_eq_iff in H. rewrite string_ltb_lt. split.
    + intros H1. right. split; assumption.
    + intros [H1|[_ H1]]; [discriminate | exact H1].
  - split; [intros _; left; reflexivity | reflexivity].
  - split; [discriminate|].
    intros [H1|[H1 _]]; [discriminate|].
    rewrite H1, string_compare_refl in H. discriminate.
Qed.

Lemma entry_lt_trans (a b c : sitemap_entry) :
  entry_lt a b = true -> entry_lt b c = true -> entry_lt a c = true.
Proof.
  rewrite !entry_lt_cases.
  intros [H1|[E1 H1]] [H2|[E2 H2]].
  - left. eapply string_compare_lt_trans; eassumption.
  - left. rewrite <- E2. exact H1.
  - left. rewrite E1. exact H2.
  - right. split; [congruence|]. eapply string_compare_lt_trans; eassumption.
Qed.

Lemma entry_lt_asym (a b : sitemap_entry) :
  entry_lt a b = true -> entry_lt b a = false.
Proof.
  intros H. destruct (entry_lt b a) eqn:H'; [|reflexivity].
  pose proof (entry_lt_trans _ _ _ H H') as Haa.
  apply entry_lt_cases in Haa.
  rewrite !string_compare_refl in Haa. destruct Haa as [Haa|[_ Haa]]; discriminate.
Qed.

(** Two entries neither of which is below the other have the same key. *)
Lemma entry_same_key (a b : sitemap_entry) :
  entry_lt a b = false -> entry_lt b a = false ->
  lastmod_key a = lastmod_key b /\ fst a = fst b.
Proof.
  unfold entry_lt. rewrite (String.compare_antisym (lastmod_key b) (lastmod_key a)).
  destruct (String.compare (lastmod_key a) (lastmod_key b)) eqn:H; simpl;
    try discriminate.
  apply String.compare_eq_iff in H. unfold String.ltb.
  rewrite (String.compare_antisym (fst b) (fst a)).
  destruct (String.compare (fst a) (fst b)) eqn:H'; simpl; try discriminate.
  apply String.compare_eq_iff in H'. intros _ _. split; assumption.
Qed.

Lemma in_order_trans (a b c : sitemap_entry) :
  in_order a b -> in_order b c -> in_order a c.
Proof.
  unfold in_order. intros Hab Hbc.
  destruct (entry_lt c a) eqn:Hca; [|reflexivity].
  destruct (entry_lt a b) eqn:Hab'.
  - rewrite (entry_lt_trans _ _ _ Hca Hab') in Hbc. discriminate.
  - destruct (entry_same_key _ _ Hab' Hab) as [Ek Eu].
    assert (Hcb : entry_lt c b = true).
    { apply entry_lt_cases. apply entry_lt_cases in Hca.
      rewrite <- Ek, <- Eu. exact Hca. }
    rewrite Hcb in Hbc. discriminate.
Qed.

Section SortBy.

Variable A : Type.
Variable lt : A -> A -> bool.
Hypothesis lt_asym : forall a b, lt a b = true -> lt b a = false.

Lemma insert_sorted_perm (x : A) (l : list A) :
  Permutation (insert_sorted lt x l) (x :: l).
Proof.
  induction l as [|y l IH]; simpl; [apply Permutation_refl|].
  destruct (lt y x).
  - eapply Permutation_trans; [apply perm_skip, IH | apply perm_swap].
  - apply Permutation_refl.
Qed.

Lemma sort_by_perm (l : list A) : Permutation (sort_by lt l) l.
Proof.
  induction l as [|x l IH]; simpl; [apply perm_nil|].
  eapply Permutation_trans; [apply insert_sorted_perm | apply perm_skip, IH].
Qed.

Lemma insert_sorted_hd (x y : A) (l : list A) :
  lt x y = false -> HdRel (fun a b => lt b a = false) y l ->
  HdRel (fun a b => lt b a = false) y (insert_sorted lt x l).
Proof.
  intros Hxy Hl. destruct l as [|z l]; simpl.
  - constructor. exact Hxy.
  - inversion Hl; subst. destruct (lt z x); constructor; assumption.
Qed.

Lemma insert_sorted_sorted (x : A) (l : list A) :
  Sorted (fun a b => lt b a = false) l ->
  Sorted (fun a b => lt b a = false) (insert_sorted lt x l).
Proof.
  induction l as [|y l IH]; intros Hs; simpl.
  - constructor; constructor.
  - inversion Hs; subst. destruct (lt y x) eqn:Hyx.
    + constructor; [apply IH; assumption|].
      apply insert_sorted_hd; [apply lt_asym; exact Hyx | assumption].
    + constructor; [exact Hs|]. constructor. exact Hyx.
Qed.

Lemma sort_by_sorted (l : list A) : Sorted (fun a b => lt b a = false) (sort_by lt l).
Proof.
  induction l as [|x l IH]; simpl; [constructor|].
  apply insert_sorted_sorted. exact IH.
Qed.

End SortBy.

Lemma lastmod_key_undated (e : sitemap_entry) :
  undated e = true -> lastmod_key e = "9999".
Proof.
  unfold undated, lastmod_key. destruct (snd e) as [d|]; [|reflexivity].
  intros H. rewrite H. reflexivity.
Qed.

(** X1.  [discover_post_urls] returns the sitemap entries whose URL matches
    the post pattern, each as often as the sitemap has it, and nothing
    else: its result is a rearrangement of the matching entries. *)
Theorem discover_post_urls_selects :
  forall sitemap_urls : list sitemap_entry,
    Permutation (discover_post_urls sitemap_urls)
      (filter (fun e => is_post_url (fst e)) sitemap_urls)
    /\ (forall e, In e (discover_post_urls sitemap_urls)
                  <-> In e sitemap_urls /\ is_post_url (fst e) = true)
    /\ List.length (discover_post_urls sitemap_urls) <= List.length sitemap_urls.
Proof.
  intros l.
  assert (P : Permutation (discover_post_urls l)
                (filter (fun e => is_post_url (fst e)) l))
    by apply sort_by_perm.
  split; [exact P|]. split.
  - intros e. split; intros H.
    + apply (Permutation_in _ P) in H. apply filter_In in H. exact H.
    + apply (Permutation_in _ (Permutation_sym P)). apply filter_In. exact H.
  - rewrite (Permutation_length P). apply filter_length_le.
Qed.

Lemma discover_sorted (l : list sitemap_entry) :
  StronglySorted in_order (discover_post_urls l).
Proof.
  apply Sorted_StronglySorted.
  - intros a b c. apply in_order_trans.
  - apply (@sort_by_sorted _ entry_lt entry_lt_asym).
Qed.

Lemma strongly_sorted_apart {A} (R : A -> A -> Prop) (pre mid post : list A) (a b : A) :
  StronglySorted R (pre ++ a :: mid ++ b :: post) -> R a b.
Proof.
  induction pre as [|p pre IH]; simpl; intros S.
  - inversion S as [|? ? _ Hall]; subst.
    rewrite Forall_forall in Hall. apply (Hall b).
    apply in_or_app. right. left. reflexivity.
  - inversion S; subst. apply IH. assumption.
Qed.

(** X2.  The result of [discover_post_urls] is sorted by the key [(lastmod or
    "9999", url)]: no entry has a key below the key of an entry before it;
    strings compare code point by code point. *)
Theorem discover_post_urls_sorted :
  forall sitemap_urls : list sitemap_entry,
    StronglySorted in_order (discover_post_urls sitemap_urls)
    /\ (forall pre a mid b post,
           discover_post_urls sitemap_urls = pre ++ a :: mid ++ b :: post ->
           entry_lt b a = false).
Proof.
  intros l. split; [apply discover_sorted|].
  intros pre a mid b post E.
  apply (strongly_sorted_apart (R := in_order) pre mid post).
  rewrite <- E. apply discover_sorted.
Qed.

(** X3.  Undated entries go to the end: in the result of
    [discover_post_urls], an entry without a date ([lastmod] is [None] or
    empty) is never followed by an entry whose date is below "9999". *)
Theorem undated_posts_come_last :
  forall (sitemap_urls pre post : list sitemap_entry) (e1 e2 : sitemap_entry),
    discover_post_urls sitemap_urls = pre ++ e1 :: post ->
    undated e1 = true ->
    In e2 post ->
    String.ltb (lastmod_key e2) "9999" = false.
Proof.
  intros l pre post e1 e2 E U Hin.
  destruct (in_split _ _ Hin) as (mid & post' & ->).
  assert (H : in_order e1 e2).
  { apply (strongly_sorted_apart (R := in_order) pre mid post').
    rewrite <- E. apply discover_sorted. }
  unfold in_order in H.
  destruct (String.ltb (lastmod_key e2) "9999") eqn:L; [|reflexivity].
  assert (H' : entry_lt e2 e1 = true).
  { apply entry_lt_cases. left. rewrite (lastmod_key_undated _ U).
    apply string_ltb_lt. exact L. }
  rewrite H' in H. discriminate.
Qed.

Lemma undated_posts_come_last_witness :
  discover_post_urls
    [("https://example.com/p/b", None);
     ("https://example.com/about", Some "2024-01-01");
     ("https://example.com/p/c", Some "");
     ("https://example.com/p/a", Some "2024-03-01")]
  = [("https://example.com/p/a", Some "2024-03-01");
     ("https://example.com/p/b", None);
     ("https://example.com/p/c", Some "")]
  /\ String.ltb (lastmod_key ("https://example.com/p/c", Some "")) "9999" = false.
Proof.
  split; [reflexivity|].
  apply (undated_posts_come_last
           [("https://example.com/p/b", None);
            ("https://example.com/about", Some "2024-01-01");
            ("https://example.com/p/c", Some "");
            ("https://example.com/p/a", Some "2024-03-01")]
           [("https://example.com/p/a", Some "2024-03-01")]
           [("https://example.com/p/c", Some "")]
           ("https://example.com/p/b", None) ("https://example.com/p/c", Some "")).
  - reflexivity.
  - reflexivity.
  - left. reflexivity.
Defined.

Local Infix "^^" := String.append (at level 60, right associativity).

Lemma in_suffixes (s t : string) :
  In t (Str.suffixes s) <-> exists pre, s = pre ^^ t.
Proof.
  induction s as [|c s IH].
  - simpl. split.
    + intros [<-|[]]. exists EmptyString. reflexivity.
    + intros [pre E]. symmetry in E. apply append_empty in E. left. symmetry. apply E.
  - change (Str.suffixes (String c s)) with (String c s :: Str.suffixes s).
    split.
    + intros [<-|H].
      * exists EmptyString. reflexivity.
      * apply IH in H. destruct H as [pre ->]. exists (String c pre). reflexivity.
    + intros [[|d pre] E]; simpl in E.
      * left. exact E.
      * right. apply IH. exists pre. congruence.
Qed.

Lemma append_cancel_r (c : string) : forall a b, a ^^ c = b ^^ c -> a = b.
Proof.
  induction c as [|x c IH]; intros a b E.
  - rewrite !append_empty_r in E. exact E.
  - apply (append_last_inj a b x). apply IH.
    rewrite !append_assoc. exact E.
Qed.

Lemma append_cancel_l (a : string) : forall b c, a ^^ b = a ^^ c -> b = c.
Proof.
  induction a as [|x a IH]; intros b c E; simpl in E; [exact E|].
  apply IH. congruence.
Qed.

Lemma snoc_cases (s : string) :
  s = EmptyString \/ exists s' c, s = s' ^^ String c EmptyString.
Proof.
  induction s as [|x s IH]; [left; reflexivity|]. right.
  destruct IH as [->|(s' & c & ->)].
  - exists EmptyString, x. reflexivity.
  - exists (String x s'), c. reflexivity.
Qed.

Lemma append_snoc_inj (a : string) :
  forall b c d, a ^^ String c EmptyString = b ^^ String d EmptyString ->
                a = b /\ c = d.
Proof.
  induction a as [|x a IH]; intros [|y b] c d E; simpl in E.
  - split; congruence.
  - exfalso. destruct b; simpl in E; discriminate.
  - exfalso. destruct a; simpl in E; discriminate.
  - injection E as -> E. destruct (IH _ _ _ E) as [-> ->]. split; reflexivity.
Qed.

Lemma no_slash_snoc (s : string) (c : ascii) :
  no_slash (s ^^ String c EmptyString) = true -> no_slash s = true /\ not_slash c = true.
Proof.
  unfold no_slash. rewrite chars_append, forallb_app. simpl.
  rewrite andb_true_r. intros H. apply andb_prop in H. exact H.
Qed.

Lemma is_post_url_lang (u : string) :
  is_post_url u = true <-> exists pre t, u = pre ^^ t /\ Re.lang slug_re t.
Proof.
  unfold is_post_url. rewrite existsb_exists. split.
  - intros (t & Hin & Hm). apply in_suffixes in Hin. destruct Hin as [pre ->].
    exists pre, t. split; [reflexivity|]. apply fullmatch_lang. exact Hm.
  - intros (pre & t & -> & Hl). exists t. split.
    + apply in_suffixes. exists pre. reflexivity.
    + apply fullmatch_lang. exact Hl.
Qed.

Lemma post_url_shape (u : string) :
  is_post_url u = true <->
  exists pre seg tail,
    u = pre ^^ "/p/" ^^ seg ^^ tail
    /\ seg <> EmptyString /\ no_slash seg = true /\ In tail post_tails.
Proof.
  rewrite is_post_url_lang. split.
  - intros (pre & t & -> & Hl). apply lang_slug_re in Hl.
    destruct Hl as (x & seg & t1 & t2 & -> & Hx & Hseg & H1 & H2).
    exists pre, (String x seg), (t1 ^^ t2). repeat split.
    + discriminate.
    + unfold no_slash. simpl. rewrite Hx. exact Hseg.
    + unfold post_tails.
      destruct H1 as [-> | ->], H2 as [-> | ->]; simpl; auto.
  - intros (pre & seg & tail & -> & Hne & Hseg & Htail).
    exists pre, ("/p/" ^^ seg ^^ tail). split; [reflexivity|].
    apply lang_slug_re. destruct seg as [|x seg]; [congruence|].
    unfold no_slash in Hseg. simpl in Hseg. apply andb_prop in Hseg.
    destruct Hseg as [Hx Hseg].
    unfold post_tails in Htail. simpl in Htail.
    destruct Htail as [<-|[<-|[<-|[<-|[]]]]].
    + exists x, seg, EmptyString, EmptyString. repeat split; auto.
    + exists x, seg, "/", EmptyString. repeat split; auto.
    + exists x, seg, EmptyString, nl. repeat split; auto.
    + exists x, seg, "/", nl. repeat split; auto.
Qed.

(** X4.  A sitemap URL counts as a post exactly when it ends with [/p/], a
    non-empty segment without slash, and then nothing or one slash (a final
    newline after that still matches). *)
Theorem is_post_url_shape :
  forall u : string,
    is_post_url u = true <->
    exists pre seg tail,
      u = pre ^^ "/p/" ^^ seg ^^ tail
      /\ seg <> EmptyString /\ no_slash seg = true /\ In tail post_tails.
Proof. exact post_url_shape. Qed.

Lemma is_segment_snoc (s : string) :
  is_segment s = true ->
  exists s' c, s = s' ^^ String c EmptyString
               /\ c <> "/"%char /\ c <> newline /\ no_slash s' = true.
Proof.
  intros H. unfold is_segment in H. apply andb_prop in H. destruct H as [Hne Hall].
  destruct (snoc_cases s) as [->|(s' & c & ->)]; [discriminate|].
  exists s', c. split; [reflexivity|].
  rewrite chars_append, forallb_app in Hall. simpl in Hall.
  rewrite andb_true_r in Hall. apply andb_prop in Hall. destruct Hall as [Hs' Hc].
  apply andb_prop in Hc. destruct Hc as [Hc1 Hc2].
  repeat split.
  - intros ->. discriminate.
  - intros ->. discriminate.
  - unfold no_slash. eapply forallb_weaken; [|exact Hs'].
    intros x Hx. apply andb_prop in Hx. apply Hx.
Qed.

(** X5.  Sub-pages are left out: a URL that continues after the segment
    that follows [/p/] with a further segment is not a post, unless the
    segment after [/p/] is itself [p]. *)
Theorem sub_pages_are_not_posts :
  forall pre a b : string,
    is_segment a = true -> is_segment b = true -> a <> "p" ->
    is_post_url (pre ^^ "/p/" ^^ a ^^ "/" ^^ b) = false.
Proof.
  intros pre a b Ha Hb Hap.
  destruct (is_post_url (pre ^^ "/p/" ^^ a ^^ "/" ^^ b)) eqn:H; [exfalso|reflexivity].
  apply post_url_shape in H.
  destruct H as (pre' & seg & tail & E & Hne & Hseg & Htail).
  pose proof (is_segment_no_slash _ Hb) as Hbs.
  destruct (is_segment_snoc _ Hb) as (b0 & z & Eb & Hz1 & Hz2 & _).
  assert (Et : tail = EmptyString).
  { unfold post_tails in Htail. simpl in Htail.
    destruct Htail as [<-|[<-|[<-|[<-|[]]]]]; [reflexivity| | |]; exfalso;
      subst b.
    - assert (E' : (pre ^^ "/p/" ^^ a ^^ "/" ^^ b0) ^^ String z EmptyString
                   = (pre' ^^ "/p/" ^^ seg) ^^ "/").
      { rewrite !append_assoc. exact E. }
      apply append_snoc_inj in E'. apply Hz1. apply E'.
    - assert (E' : (pre ^^ "/p/" ^^ a ^^ "/" ^^ b0) ^^ String z EmptyString
                   = (pre' ^^ "/p/" ^^ seg) ^^ nl).
      { rewrite !append_assoc. exact E. }
      apply append_snoc_inj in E'. apply Hz2. apply E'.
    - assert (E' : (pre ^^ "/p/" ^^ a ^^ "/" ^^ b0) ^^ String z EmptyString
                   = (pre' ^^ "/p/" ^^ seg ^^ "/") ^^ nl).
      { rewrite !append_assoc. exact E. }
      apply append_snoc_inj in E'. apply Hz2. apply E'. }
  subst tail. rewrite append_empty_r in E.
  assert (Es : seg = b).
  { rewrite <- (rsplit_last_segment (pre' ^^ "/p") seg Hseg).
    rewrite <- (rsplit_last_segment (pre ^^ "/p/" ^^ a) b Hbs).
    f_equal. rewrite !append_assoc. symmetry. exact E. }
  subst seg.
  assert (E1 : pre' ^^ "/p" = pre ^^ "/p/" ^^ a).
  { apply (append_cancel_r ("/" ^^ b)). rewrite !append_assoc. symmetry. exact E. }
  destruct (is_segment_snoc _ Ha) as (a0 & y & Ea & Hy1 & _ & Ha0).
  subst a.
  assert (E2 : (pre' ^^ "/") ^^ "p" = (pre ^^ "/p/" ^^ a0) ^^ String y EmptyString).
  { rewrite !append_assoc. exact E1. }
  apply append_snoc_inj in E2. destruct E2 as [E2 <-].
  destruct (snoc_cases a0) as [->|(a1 & w & ->)]; [apply Hap; reflexivity|].
  assert (E3 : pre' ^^ "/" = (pre ^^ "/p/" ^^ a1) ^^ String w EmptyString).
  { rewrite !append_assoc. exact E2. }
  apply append_snoc_inj in E3. destruct E3 as [_ <-].
  apply no_slash_snoc in Ha0. destruct Ha0 as [_ Hw]. discriminate.
Qed.

Lemma sub_pages_are_not_posts_witness :
  is_post_url "https://example.com/p/hello/comments" = false.
Proof.
  apply (@sub_pages_are_not_posts "https://example.com" "hello" "comments");
    [reflexivity | reflexivity | discriminate].
Defined.

(** *** White space at the ends of a string *)

Lemma rstrip_last (s : string) :
  forall t c, Str.rstrip s = t ^^ String c EmptyString -> Str.is_space c = false.
Proof.
  induction s as [|x s IH]; intros t c E.
  - destruct t; discriminate.
  - simpl in E. destruct (Str.rstrip s) as [|y r] eqn:R.
    + destruct (Str.is_space x) eqn:Hx.
      * destruct t; discriminate.
      * destruct t as [|a t]; simpl in E.
        -- injection E as <-. exact Hx.
        -- injection E as _ E. destruct t; discriminate.
    + destruct t as [|a t]; simpl in E; [discriminate|].
      injection E as _ E. apply (IH t c). exact E.
Qed.

Lemma rstrip_idem (s : string) : Str.rstrip (Str.rstrip s) = Str.rstrip s.
Proof.
  induction s as [|x s IH]; [reflexivity|].
  simpl. destruct (Str.rstrip s) as [|y r] eqn:R.
  - destruct (Str.is_space x) eqn:Hx; simpl; [reflexivity|].
    rewrite Hx. reflexivity.
  - change (Str.rstrip (String x (String y r)))
      with (match Str.rstrip (String y r) with
            | EmptyString => if Str.is_space x then EmptyString else String x EmptyString
            | r' => String x r'
            end).
    rewrite IH. reflexivity.
Qed.

Lemma lstrip_idem (s : string) : Str.lstrip (Str.lstrip s) = Str.lstrip s.
Proof.
  induction s as [|x s IH]; [reflexivity|].
  simpl. destruct (Str.is_space x) eqn:Hx; [exact IH|].
  simpl. rewrite Hx. reflexivity.
Qed.

Lemma lstrip_head (s : string) :
  Str.lstrip s = EmptyString
  \/ exists c r, Str.lstrip s = String c r /\ Str.is_space c = false.
Proof.
  induction s as [|x s IH]; [left; reflexivity|].
  simpl. destruct (Str.is_space x) eqn:Hx; [exact IH|].
  right. exists x, s. split; [reflexivity | exact Hx].
Qed.

Lemma lstrip_rstrip (c : ascii) (r : string) :
  Str.is_space c = false ->
  Str.lstrip (Str.rstrip (String c r)) = Str.rstrip (String c r).
Proof.
  intros Hc. simpl. destruct (Str.rstrip r); rewrite ?Hc; simpl; rewrite Hc; reflexivity.
Qed.

Lemma strip_idem (s : string) : Str.strip (Str.strip s) = Str.strip s.
Proof.
  unfold Str.strip.
  destruct (lstrip_head s) as [E|(c & r & E & Hc)]; rewrite E.
  - reflexivity.
  - rewrite (@lstrip_rstrip c r Hc). apply rstrip_idem.
Qed.

Lemma strip_last (s t : string) (c : ascii) :
  Str.strip s = t ^^ String c EmptyString -> Str.is_space c = false.
Proof. unfold Str.strip. apply rstrip_last. Qed.

Lemma entry_of_stripped (url_elem : xml) (e : sitemap_entry) :
  In e (entry_of url_elem) ->
  (exists loc, fst e = Str.strip loc)
  /\ (forall d, snd e = Some d -> exists lastmod, d = Str.strip lastmod).
Proof.
  unfold entry_of. destruct (findtext "loc" url_elem) as [loc|]; [|intros []].
  destruct (Str.is_empty loc); simpl; [intros []|].
  intros [<-|[]]. simpl. split; [exists loc; reflexivity|].
  intros d. destruct (findtext "lastmod" url_elem) as [lastmod|]; [|discriminate].
  destruct (Str.is_empty lastmod); simpl; [discriminate|].
  intros [= <-]. exists lastmod. reflexivity.
Qed.

(** X6.  Whatever the parser returns, the URLs and dates that
    [parse_sitemap_urls] hands on have no white space at either end; so a
    URL that [discover_post_urls] then keeps ends in [/p/], a non-empty
    segment without slash, and at most one slash. *)
Theorem sitemap_urls_are_stripped :
  forall (fromstring : string -> option xml) (xml_text : string)
         (entries : list sitemap_entry),
    parse_sitemap_urls fromstring xml_text = Some entries ->
    (forall e, In e entries ->
               Str.strip (fst e) = fst e
               /\ forall d, snd e = Some d -> Str.strip d = d)
    /\ (forall e, In e (discover_post_urls entries) ->
                  exists pre seg,
                    seg <> EmptyString /\ no_slash seg = true
                    /\ (fst e = pre ^^ "/p/" ^^ seg
                        \/ fst e = pre ^^ "/p/" ^^ seg ^^ "/")).
Proof.
  intros fromstring xml_text entries E.
  unfold parse_sitemap_urls in E.
  destruct (fromstring (delete_first xmlns_re xml_text)) as [root|]; [|discriminate].
  injection E as <-.
  assert (Hs : forall e, In e (flat_map entry_of (xml_iter "url" root)) ->
                         (exists loc, fst e = Str.strip loc)
                         /\ (forall d, snd e = Some d -> exists lastmod, d = Str.strip lastmod)).
  { intros e He. apply in_flat_map in He. destruct He as (u & _ & He).
    apply (@entry_of_stripped u e). exact He. }
  split.
  - intros e He. destruct (Hs e He) as [[loc ->] Hd]. split.
    + apply strip_idem.
    + intros d Ed. destruct (Hd d Ed) as [lastmod ->]. apply strip_idem.
  - intros e He.
    assert (He' : In e (filter (fun e => is_post_url (fst e))
                          (flat_map entry_of (xml_iter "url" root)))).
    { eapply Permutation_in; [apply sort_by_perm | exact He]. }
    apply filter_In in He'. destruct He' as [Hin Hp].
    destruct (Hs e Hin) as [[loc Eloc] _].
    apply post_url_shape in Hp.
    destruct Hp as (pre & seg & tail & Eu & Hne & Hseg & Htail).
    exists pre, seg. split; [exact Hne|]. split; [exact Hseg|].
    unfold post_tails in Htail. simpl in Htail.
    destruct Htail as [<-|[<-|[<-|[<-|[]]]]].
    + left. rewrite append_empty_r in Eu. exact Eu.
    + right. exact Eu.
    + exfalso.
      assert (H : Str.is_space newline = false).
      { apply (@strip_last loc (pre ^^ "/p/" ^^ seg) newline).
        rewrite <- Eloc, Eu, !append_assoc. reflexivity. }
      discriminate H.
    + exfalso.
      assert (H : Str.is_space newline = false).
      { apply (@strip_last loc (pre ^^ "/p/" ^^ seg ^^ "/") newline).
        rewrite <- Eloc, Eu, !append_assoc. reflexivity. }
      discriminate H.
Qed.

Lemma sitemap_urls_are_stripped_witness :
  parse_sitemap_urls (fun _ => Some Sample5.urlset) "<urlset/>"
  = Some [("https://example.com/p/hello", Some "2024-03-01");
          ("https://example.com/about", None)]
  /\ Str.strip "https://example.com/p/hello" = "https://example.com/p/hello".
Proof.
  split; [reflexivity|].
  destruct (@sitemap_urls_are_stripped (fun _ => Some Sample5.urlset) "<urlset/>"
              [("https://example.com/p/hello", Some "2024-03-01");
               ("https://example.com/about", None)] eq_refl) as [H _].
  exact (proj1 (H ("https://example.com/p/hello", Some "2024-03-01")
                  (or_introl eq_refl))).
Defined.

(** *** The namespace declaration *)

Lemma take_drop (n : nat) (s : string) : s = Str.take n s ^^ Str.drop n s.
Proof.
  revert s. induction n as [|n IH]; intros [|c s]; simpl; try reflexivity.
  f_equal. apply IH.
Qed.

Lemma nullable_match_prefix (r : Re.regex) (s : string) :
  Re.nullable r = true -> exists n, match_prefix r s = Some n.
Proof.
  intros H. destruct s as [|c s]; simpl; rewrite H.
  - exists 0. reflexivity.
  - destruct (match_prefix (Re.deriv c r) s) as [n|]; eexists; reflexivity.
Qed.

(** What [match_prefix] finds is a match ... *)
Lemma match_prefix_sound (s : string) :
  forall r n, match_prefix r s = Some n -> Re.lang r (Str.take n s).
Proof.
  induction s as [|c s IH]; intros r n H; simpl in H.
  - destruct (Re.nullable r) eqn:Hn; [|discriminate]. injection H as <-.
    apply nullable_lang. exact Hn.
  - destruct (match_prefix (Re.deriv c r) s) as [k|] eqn:E.
    + injection H as <-. simpl. apply deriv_sound. apply IH. exact E.
    + destruct (Re.nullable r) eqn:Hn; [|discriminate]. injection H as <-.
      apply nullable_lang. exact Hn.
Qed.

(** ... and it finds one whenever a prefix matches. *)
Lemma match_prefix_complete (m : string) :
  forall r rest, Re.lang r m -> exists n, match_prefix r (m ^^ rest) = Some n.
Proof.
  induction m as [|c m IH]; intros r rest H.
  - apply nullable_match_prefix. apply nullable_lang. exact H.
  - apply deriv_complete in H. destruct (IH _ rest H) as [n E].
    simpl. rewrite E. exists (S n). reflexivity.
Qed.

Lemma span_unique (p : ascii -> bool) (a1 : string) :
  forall a2 c1 c2 t1 t2,
    a1 ^^ String c1 t1 = a2 ^^ String c2 t2 ->
    forallb p (list_ascii_of_string a1) = true ->
    forallb p (list_ascii_of_string a2) = true ->
    p c1 = false -> p c2 = false ->
    a1 = a2 /\ String c1 t1 = String c2 t2.
Proof.
  induction a1 as [|x a1 IH]; intros [|y a2] c1 c2 t1 t2 E H1 H2 Hc1 Hc2; simpl in *.
  - split; [reflexivity | exact E].
  - injection E as -> _. apply andb_prop in H2. destruct H2 as [H2 _]. congruence.
  - injection E as -> _. apply andb_prop in H1. destruct H1 as [H1 _]. congruence.
  - injection E as -> E. apply andb_prop in H1. apply andb_prop in H2.
    destruct (IH a2 c1 c2 t1 t2 E (proj2 H1) (proj2 H2) Hc1 Hc2) as [-> E'].
    split; [reflexivity | exact E'].
Qed.

Lemma lang_plus_class (p : ascii -> bool) (s : string) :
  Re.lang (Re.plus (Re.Class p)) s <->
  s <> EmptyString /\ forallb p (list_ascii_of_string s) = true.
Proof.
  unfold Re.plus. split.
  - intros H. apply lang_cat_inv in H as (a & b & -> & Ha & Hb).
    apply lang_class_inv in Ha as (x & -> & Hx). apply lang_star_class in Hb.
    split; [discriminate|]. simpl. rewrite Hx. exact Hb.
  - intros [Hne H]. destruct s as [|x s]; [congruence|].
    simpl in H. apply andb_prop in H. destruct H as [Hx Hs].
    change (String x s) with (String x EmptyString ^^ s).
    apply Re.lang_cat; [constructor; exact Hx | apply star_class_lang; exact Hs].
Qed.

Lemma lang_chr (c : ascii) (s : string) :
  Re.lang (Re.chr c) s <-> s = String c EmptyString.
Proof.
  unfold Re.chr. split.
  - intros H. apply lang_class_inv in H as (x & -> & Hx).
    apply Ascii.eqb_eq in Hx. subst. reflexivity.
  - intros ->. constructor. apply Ascii.eqb_refl.
Qed.

(** The strings of the pattern: white space, [xmlns=], and a quoted,
    non-empty run without quote. *)
Lemma lang_xmlns_re (m : string) :
  Re.lang xmlns_re m <->
  exists ws ns,
    m = ws ^^ "xmlns=" ^^ String Ref.dquote (ns ^^ String Ref.dquote EmptyString)
    /\ ws <> EmptyString /\ forallb Str.is_space (list_ascii_of_string ws) = true
    /\ ns <> EmptyString /\ forallb not_dquote (list_ascii_of_string ns) = true.
Proof.
  unfold xmlns_re, Re.seq, Re.space. split.
  - intros H.
    apply lang_cat_inv in H as (s1 & r1 & -> & H1 & H).
    apply lang_cat_inv in H as (s2 & r2 & -> & H2 & H).
    apply lang_cat_inv in H as (s3 & r3 & -> & H3 & H).
    apply lang_cat_inv in H as (s4 & r4 & -> & H4 & H).
    apply lang_cat_inv in H as (s5 & r5 & -> & H5 & H).
    apply lang_eps_inv in H. subst r5.
    apply lang_plus_class in H1. apply lang_lit in H2. apply lang_chr in H3.
    apply lang_plus_class in H4. apply lang_chr in H5. subst s2 s3 s5.
    exists s1, s4. split; [reflexivity|].
    destruct H1 as [? ?], H4 as [? ?]. repeat split; assumption.
  - intros (ws & ns & -> & Hw1 & Hw2 & Hn1 & Hn2).
    apply Re.lang_cat; [apply lang_plus_class; split; assumption|].
    apply (@Re.lang_cat (Re.lit "xmlns=") _ "xmlns="); [apply lang_lit; reflexivity|].
    apply (@Re.lang_cat (Re.chr Ref.dquote) _ (String Ref.dquote EmptyString));
      [apply lang_chr; reflexivity|].
    apply Re.lang_cat; [apply lang_plus_class; split; assumption|].
    rewrite <- (append_empty_r (String Ref.dquote EmptyString)).
    apply Re.lang_cat; [apply lang_chr; reflexivity | constructor].
Qed.

(** From a given place the pattern matches at most one string, so that the
    longest match is the match. *)
Lemma xmlns_match_unique (m1 m2 r1 r2 : string) :
  Re.lang xmlns_re m1 -> Re.lang xmlns_re m2 -> m1 ^^ r1 = m2 ^^ r2 -> m1 = m2.
Proof.
  intros H1 H2 E.
  apply lang_xmlns_re in H1. destruct H1 as (ws1 & ns1 & -> & _ & Hw1 & _ & Hn1).
  apply lang_xmlns_re in H2. destruct H2 as (ws2 & ns2 & -> & _ & Hw2 & _ & Hn2).
  rewrite !append_assoc in E. simpl in E.
  destruct (@span_unique Str.is_space ws1 ws2 "x" "x" _ _ E Hw1 Hw2 eq_refl eq_refl)
    as [-> E1].
  injection E1 as E1. rewrite !append_assoc in E1. simpl in E1.
  assert (Hq : not_dquote Ref.dquote = false) by reflexivity.
  destruct (@span_unique not_dquote ns1 ns2 Ref.dquote Ref.dquote _ _ E1 Hn1 Hn2 Hq Hq)
    as [-> _].
  reflexivity.
Qed.

Lemma delete_first_match (r : Re.regex) (s : string) (n : nat) :
  match_prefix r s = Some n -> delete_first r s = Str.drop n s.
Proof.
  intros E. destruct s as [|c s].
  - change (delete_first r EmptyString)
      with (match match_prefix r EmptyString with
            | Some k => Str.drop k EmptyString
            | None => EmptyString
            end).
    rewrite E. reflexivity.
  - change (delete_first r (String c s))
      with (match match_prefix r (String c s) with
            | Some k => Str.drop k (String c s)
            | None => String c (delete_first r s)
            end).
    rewrite E. reflexivity.
Qed.

Lemma delete_first_here (m post : string) :
  Re.lang xmlns_re m -> delete_first xmlns_re (m ^^ post) = post.
Proof.
  intros Hm.
  destruct (@match_prefix_complete m xmlns_re post Hm) as [n E].
  assert (Hn : Str.take n (m ^^ post) = m).
  { apply (@xmlns_match_unique _ _ (Str.drop n (m ^^ post)) post).
    - apply match_prefix_sound. exact E.
    - exact Hm.
    - symmetry. apply take_drop. }
  assert (Hd : Str.drop n (m ^^ post) = post).
  { apply (@append_cancel_l m). rewrite <- Hn at 1. symmetry. apply take_drop. }
  rewrite (@delete_first_match xmlns_re (m ^^ post) n E). exact Hd.
Qed.

Lemma delete_first_skip (c : ascii) (s : string) :
  starts_match xmlns_re (String c s) = false ->
  delete_first xmlns_re (String c s) = String c (delete_first xmlns_re s).
Proof.
  unfold starts_match. intros H.
  change (delete_first xmlns_re (String c s))
    with (match match_prefix xmlns_re (String c s) with
          | Some n => Str.drop n (String c s)
          | None => String c (delete_first xmlns_re s)
          end).
  destruct (match_prefix xmlns_re (String c s)); [discriminate | reflexivity].
Qed.

(** X7.  [parse_sitemap_urls] cuts out of the sitemap text the first
    declaration of a default namespace: when the text is [pre], a string of
    the pattern, and [post], and the pattern matches from no place inside
    [pre], what goes to the parser is [pre] followed by [post]; a later
    declaration stays. *)
Theorem first_namespace_is_cut :
  forall (fromstring : string -> option xml) (pre m post : string),
    Re.lang xmlns_re m ->
    forallb (fun t => negb (starts_match xmlns_re t))
      (firstn (String.length pre) (Str.suffixes (pre ^^ m ^^ post))) = true ->
    delete_first xmlns_re (pre ^^ m ^^ post) = pre ^^ post
    /\ parse_sitemap_urls fromstring (pre ^^ m ^^ post)
       = match fromstring (pre ^^ post) with
         | Some root => Some (flat_map entry_of (xml_iter "url" root))
         | None => None
         end.
Proof.
  intros fromstring pre m post Hm Hpre.
  assert (E : delete_first xmlns_re (pre ^^ m ^^ post) = pre ^^ post).
  { induction pre as [|c pre IH].
    - apply (@delete_first_here m post Hm).
    - change (String c pre ^^ m ^^ post) with (String c (pre ^^ m ^^ post)) in *.
      change (Str.suffixes (String c (pre ^^ m ^^ post)))
        with (String c (pre ^^ m ^^ post) :: Str.suffixes (pre ^^ m ^^ post)) in Hpre.
      simpl in Hpre. apply andb_prop in Hpre. destruct Hpre as [Hc Hpre].
      apply negb_true_iff in Hc.
      rewrite (@delete_first_skip c _ Hc). simpl. f_equal. apply IH. exact Hpre. }
  split; [exact E|]. unfold parse_sitemap_urls. rewrite E. reflexivity.
Qed.

Lemma first_namespace_is_cut_witness :
  delete_first xmlns_re
    (Sample5.opening ^^ Sample5.declaration ^^ Sample5.rest)
  = Sample5.opening ^^ Sample5.rest.
Proof.
  apply (@first_namespace_is_cut (fun _ => None) Sample5.opening Sample5.declaration
           Sample5.rest).
  - apply fullmatch_lang. vm_compute. reflexivity.
  - vm_compute. reflexivity.
Defined.

(* ------------------------------------------------------------------ *)
(** ** Lists with elements left out *)

Lemma subseq_refl {A} (l : list A) : subseq l l.
Proof. induction l; constructor; assumption. Qed.

Lemma subseq_nil_l {A} (l : list A) : subseq [] l.
Proof. induction l; constructor; assumption. Qed.

Lemma subseq_trans {A} (l1 l2 l3 : list A) :
  subseq l1 l2 -> subseq l2 l3 -> subseq l1 l3.
Proof.
  intros H12 H23. revert l1 H12.
  induction H23 as [|x l2 l3 _ IH|x l2 l3 _ IH]; intros l1 H12.
  - exact H12.
  - inversion H12; subst.
    + constructor. apply IH. assumption.
    + apply subseq_drop. apply IH. assumption.
  - apply subseq_drop. apply IH. exact H12.
Qed.

Lemma subseq_app {A} (a a' b b' : list A) :
  subseq a a' -> subseq b b' -> subseq (a ++ b) (a' ++ b').
Proof.
  intros Ha Hb. induction Ha; simpl; try (constructor; assumption). exact Hb.
Qed.

Lemma subseq_app_l {A} (l a b : list A) : subseq a b -> subseq a (l ++ b).
Proof. intros H. induction l; simpl; [exact H | apply subseq_drop; assumption]. Qed.

Lemma subseq_app_r {A} (l a b : list A) : subseq a b -> subseq a (b ++ l).
Proof.
  intros H. rewrite <- (app_nil_r a). apply subseq_app; [exact H | apply subseq_nil_l].
Qed.

Lemma subseq_map {A B} (g : A -> B) (l1 l2 : list A) :
  subseq l1 l2 -> subseq (map g l1) (map g l2).
Proof. induction 1; simpl; constructor; assumption. Qed.

Lemma subseq_in {A} (l1 l2 : list A) (x : A) : subseq l1 l2 -> In x l1 -> In x l2.
Proof.
  induction 1 as [|y l1 l2 _ IH|y l1 l2 _ IH]; simpl; intros Hin.
  - exact Hin.
  - destruct Hin as [->|Hin]; [left; reflexivity | right; apply IH; exact Hin].
  - right. apply IH. exact Hin.
Qed.

Lemma subseq_NoDup {A} (l1 l2 : list A) : subseq l1 l2 -> NoDup l2 -> NoDup l1.
Proof.
  induction 1 as [|y l1 l2 Hs IH|y l1 l2 _ IH]; intros Hnd.
  - constructor.
  - inversion Hnd; subst. constructor; [|apply IH; assumption].
    intros Hin. apply (@subseq_in _ _ _ _ Hs) in Hin. contradiction.
  - inversion Hnd; subst. apply IH. assumption.
Qed.


(* ------------------------------------------------------------------ *)
(** ** Image downloads: file names and effects *)

Lemma str_of_nat_inj (a b : nat) : str_of_nat a = str_of_nat b -> a = b.
Proof.
  unfold str_of_nat. intros E.
  apply (f_equal NilEmpty.uint_of_string) in E.
  rewrite !NilEmpty.usu in E. injection E as E.
  apply (f_equal Nat.of_uint) in E. rewrite !Unsigned.of_to in E. exact E.
Qed.

Lemma numbered_inj (name ext : string) (a b : nat) :
  numbered name a ext = numbered name b ext -> a = b.
Proof.
  unfold numbered. intros E.
  apply append_cancel_l in E. apply append_cancel_l in E.
  apply append_cancel_r in E. apply str_of_nat_inj. exact E.
Qed.

Lemma NoDup_map_inj {A B} (g : A -> B) (l : list A) :
  (forall a b, g a = g b -> a = b) -> NoDup l -> NoDup (map g l).
Proof.
  intros Hg. induction 1 as [|x l Hx _ IH]; simpl; constructor; [|exact IH].
  intros Hin. apply in_map_iff in Hin. destruct Hin as (y & E & Hy).
  apply Hg in E. subst y. exact (Hx Hy).
Qed.

Lemma free_counter_none (fuel : nat) (used : list string) (name ext : string) :
  forall counter,
    free_counter fuel used name ext counter = None ->
    forall i, i < fuel -> In (numbered name (counter + i) ext) used.
Proof.
  induction fuel as [|fuel IH]; intros counter E i Hi; [lia|].
  simpl in E.
  destruct (Py.in_strs (numbered name counter ext) used) eqn:Hin; [|discriminate].
  destruct i as [|i].
  - rewrite Nat.add_0_r. apply in_strs_In. exact Hin.
  - replace (counter + S i) with (S counter + i) by lia.
    apply IH; [exact E | lia].
Qed.

Lemma free_counter_some (fuel : nat) (used : list string) (name ext : string) :
  forall counter c,
    free_counter fuel used name ext counter = Some c ->
    ~ In (numbered name c ext) used.
Proof.
  induction fuel as [|fuel IH]; intros counter c E; [discriminate|].
  simpl in E.
  destruct (Py.in_strs (numbered name counter ext) used) eqn:Hin.
  - apply (IH _ _ E).
  - injection E as <-. intros H. apply in_strs_In in H. congruence.
Qed.

(** The renaming loop ends: among one more candidate than there are used
    names, one is free. *)
Lemma free_counter_ends (used : list string) (name ext : string) :
  exists c, free_counter (S (List.length used)) used name ext 1 = Some c.
Proof.
  destruct (free_counter (S (List.length used)) used name ext 1) as [c|] eqn:E;
    [exists c; reflexivity | exfalso].
  pose proof (@free_counter_none _ _ _ _ _ E) as H.
  assert (Hincl : incl (map (fun i => numbered name (1 + i) ext)
                          (seq 0 (S (List.length used)))) used).
  { intros x Hx. apply in_map_iff in Hx. destruct Hx as (i & <- & Hi).
    apply in_seq in Hi. apply H. lia. }
  assert (Hnd : NoDup (map (fun i => numbered name (1 + i) ext)
                         (seq 0 (S (List.length used))))).
  { apply NoDup_map_inj; [|apply seq_NoDup].
    intros a b Hab. apply numbered_inj in Hab. lia. }
  pose proof (NoDup_incl_length Hnd Hincl) as Hlen.
  rewrite length_map, length_seq in Hlen. lia.
Qed.

Lemma unique_filename_fresh (used : list string) (filename : string) :
  exists f, unique_filename used filename = Some f /\ ~ In f used.
Proof.
  unfold unique_filename.
  destruct (Py.in_strs filename used) eqn:Hin.
  - destruct (splitext filename) as [name ext].
    destruct (free_counter_ends used name ext) as [c E]. rewrite E.
    exists (numbered name c ext). split; [reflexivity|].
    apply (@free_counter_some _ _ _ _ _ _ E).
  - exists filename. split; [reflexivity|].
    intros H. apply in_strs_In in H. congruence.
Qed.

Lemma rpartition_spec (c : ascii) (s : string) :
  forall l r, Str.rpartition c s = Some (l, r) -> s = l ^^ String c r.
Proof.
  induction s as [|a s IH]; intros l r E; [discriminate|].
  simpl in E. destruct (Str.rpartition c s) as [[l' r']|].
  - injection E as <- <-. simpl. f_equal. apply IH. reflexivity.
  - destruct (Ascii.eqb a c) eqn:Hac; [|discriminate].
    apply Ascii.eqb_eq in Hac. injection E as <- <-. subst. reflexivity.
Qed.

(** [os.path.splitext] splits: root and extension make up the path. *)
Lemma splitext_spec (p name ext : string) :
  splitext p = (name, ext) -> p = name ^^ ext.
Proof.
  unfold splitext.
  destruct (Str.rpartition "/" p) as [[dir base]|] eqn:Ed.
  - apply rpartition_spec in Ed.
    destruct (Str.rpartition "." base) as [[stem e]|] eqn:Eb.
    + apply rpartition_spec in Eb.
      destruct (existsb _ _); intros [= <- <-].
      * subst. rewrite !append_assoc. reflexivity.
      * rewrite append_empty_r. reflexivity.
    + intros [= <- <-]. rewrite append_empty_r. reflexivity.
  - destruct (Str.rpartition "." p) as [[stem e]|] eqn:Eb.
    + apply rpartition_spec in Eb.
      destruct (existsb _ _); intros [= <- <-].
      * subst. reflexivity.
      * rewrite append_empty_r. reflexivity.
    + intros [= <- <-]. rewrite append_empty_r. reflexivity.
Qed.

Lemma no_slash_app_inv (a b : string) :
  no_slash (a ^^ b) = true -> no_slash a = true /\ no_slash b = true.
Proof.
  unfold no_slash. rewrite chars_append, forallb_app. apply andb_prop.
Qed.

Lemma contains_char (c : ascii) (s : string) :
  Str.contains (String c EmptyString) s = existsb (Ascii.eqb c) (list_ascii_of_string s).
Proof.
  induction s as [|a s IH]; [reflexivity|].
  simpl. simpl in IH. rewrite IH. rewrite andb_true_r. reflexivity.
Qed.

Lemma contains_char_app (c : ascii) (a b : string) :
  Str.contains (String c EmptyString) (a ^^ b)
  = Str.contains (String c EmptyString) a || Str.contains (String c EmptyString) b.
Proof. rewrite !contains_char, chars_append, existsb_app. reflexivity. Qed.

Lemma rsplit_last_no_slash (s : string) : no_slash (Str.rsplit_last "/" s) = true.
Proof.
  induction s as [|c s IH]; [reflexivity|].
  rewrite rsplit_last_cons.
  destruct (existsb (Ascii.eqb "/") (list_ascii_of_string s)) eqn:E; [exact IH|].
  assert (Hs : no_slash s = true).
  { unfold no_slash, not_slash. apply forallb_forall. intros x Hx.
    destruct (Ascii.eqb x "/") eqn:Hx'; [|reflexivity].
    apply Ascii.eqb_eq in Hx'. subst x.
    assert (existsb (Ascii.eqb "/") (list_ascii_of_string s) = true).
    { apply existsb_exists. exists "/"%char. split; [exact Hx | reflexivity]. }
    congruence. }
  destruct (Ascii.eqb c "/") eqn:Hc; [exact Hs|].
  unfold no_slash. simpl. unfold not_slash at 1. rewrite Hc. exact Hs.
Qed.

Lemma uint_no_slash (d : Decimal.uint) :
  no_slash (NilEmpty.string_of_uint d) = true.
Proof. induction d; simpl; auto. Qed.

Lemma numbered_no_slash (name ext : string) (c : nat) :
  no_slash (name ^^ ext) = true -> no_slash (numbered name c ext) = true.
Proof.
  intros H. apply no_slash_app_inv in H. destruct H as [Hn He].
  unfold numbered. apply no_slash_append; [exact Hn|].
  apply (no_slash_append "-"); [reflexivity|].
  apply no_slash_append; [apply uint_no_slash | exact He].
Qed.

Lemma numbered_dot (name ext : string) (c : nat) :
  Str.contains "." (name ^^ ext) = true -> Str.contains "." (numbered name c ext) = true.
Proof.
  unfold numbered. rewrite !contains_char_app. intros H.
  apply orb_prop in H. destruct H as [-> | ->]; [reflexivity|].
  rewrite !orb_true_r. reflexivity.
Qed.

Lemma unique_filename_safe (used : list string) (filename f : string) :
  unique_filename used filename = Some f ->
  no_slash filename = true -> Str.contains "." filename = true ->
  no_slash f = true /\ Str.contains "." f = true.
Proof.
  unfold unique_filename. intros E Hs Hd.
  destruct (Py.in_strs filename used).
  - destruct (splitext filename) as [name ext] eqn:Es.
    apply splitext_spec in Es. subst filename.
    destruct (free_counter _ _ _ _ _) as [c|]; [|discriminate].
    injection E as <-. split; [apply numbered_no_slash | apply numbered_dot]; assumption.
  - injection E as <-. split; assumption.
Qed.

Section DownloadFacts.

Variable unquote : string -> string.
Variable urlparse_path : string -> string.
Variable exists_before : string -> bool.
Variable get : nat -> string -> response.

Lemma base_filename_safe (u : string) :
  no_slash (base_filename unquote urlparse_path u) = true
  /\ Str.contains "." (base_filename unquote urlparse_path u) = true.
Proof.
  unfold base_filename.
  set (f0 := Str.rsplit_last "/" (unquote (urlparse_path u))).
  assert (H0 : no_slash f0 = true) by apply rsplit_last_no_slash.
  set (f1 := if Str.is_empty f0 || String.eqb f0 "/" then "image" else f0).
  assert (H1 : no_slash f1 = true).
  { unfold f1. destruct (Str.is_empty f0 || String.eqb f0 "/"); [reflexivity | exact H0]. }
  destruct (Str.contains "." f1) eqn:Hd; simpl.
  - split; assumption.
  - split.
    + apply no_slash_append; [exact H1 | reflexivity].
    + change ".jpg" with ("." ^^ "jpg"). rewrite contains_char_app.
      rewrite contains_char_app. simpl. rewrite orb_true_r. reflexivity.
Qed.

End DownloadFacts.

Lemma opened_paths_app (a b : list event) :
  opened_paths (a ++ b) = opened_paths a ++ opened_paths b.
Proof. apply flat_map_app. Qed.

Lemma requested_urls_app (a b : list event) :
  requested_urls (a ++ b) = requested_urls a ++ requested_urls b.
Proof. apply flat_map_app. Qed.

Lemma opens_in (p : string) (l : list event) :
  existsb (opens p) l = true <-> In p (opened_paths l).
Proof.
  induction l as [|e l IH]; simpl; [split; [discriminate | intros []]|].
  rewrite orb_true_iff, IH. unfold opened_paths at 2. simpl.
  rewrite in_app_iff. destruct e as [u|q|]; simpl.
  - split; [intros [H|H]; [discriminate | right; exact H] | intros [[]|H]; right; exact H].
  - rewrite String.eqb_eq. split.
    + intros [->|H]; [left; left; reflexivity | right; exact H].
    + intros [[->|[]]|H]; [left; reflexivity | right; exact H].
  - split; [intros [H|H]; [discriminate | right; exact H] | intros [[]|H]; right; exact H].
Qed.

Lemma assoc_in_keys {A} (k : string) (m : list (string * A)) :
  In k (map fst m) <-> Py.assoc k m <> None.
Proof.
  induction m as [|[k' v] m IH]; simpl; [split; [intros [] | congruence]|].
  destruct (String.eqb k k') eqn:E.
  - apply String.eqb_eq in E. subst. split; [discriminate | left; reflexivity].
  - apply String.eqb_neq in E. rewrite <- IH. split; [|right; assumption].
    intros [H|H]; [congruence | exact H].
Qed.

Lemma NoDup_snoc {A} (l : list A) (x : A) :
  NoDup l -> ~ In x l -> NoDup (l ++ [x]).
Proof.
  intros Hl Hx. apply (Permutation_NoDup (Permutation_cons_append l x)).
  constructor; assumption.
Qed.

Section DownloadLoop.

Variable unquote : string -> string.
Variable urlparse_path : string -> string.
Variable exists_before : string -> bool.
Variable get : nat -> string -> response.
Variable images_dir : string.

Local Abbreviation invariant := (download_invariant exists_before get images_dir).
Local Abbreviation step := (download_one unquote urlparse_path exists_before get images_dir).

Lemma path_exists_app (l l' : list event) (p : string) :
  path_exists exists_before l p = true ->
  path_exists exists_before (l ++ l') p = true.
Proof.
  unfold path_exists. rewrite existsb_app. intros H.
  apply orb_prop in H. destruct H as [-> | ->]; [reflexivity|].
  rewrite orb_true_r. reflexivity.
Qed.

Lemma path_exists_opened (l : list event) (p : string) :
  In p (opened_paths l) -> path_exists exists_before l p = true.
Proof.
  intros H. unfold path_exists. apply opens_in in H. rewrite H. apply orb_true_r.
Qed.

Lemma download_invariant_start : invariant [] {| result_map := []; used_filenames := []; log := [] |}.
Proof.
  unfold download_invariant. simpl.
  repeat split; try constructor; try (intros; contradiction).
  intros x [].
Qed.

Lemma download_one_invariant (seen : list string) (url : string) (st : download_state) :
  invariant seen st ->
  exists st', step url st = Some st' /\ invariant (seen ++ [url]) st'.
Proof.
  intros (Hu & Hk & Hv & Hr & Hsafe & Ho & Hnew & Hreq & Hdone & Hsub).
  unfold download_one.
  destruct (Py.assoc url (result_map st)) as [f0|] eqn:Ea.
  { exists st. split; [reflexivity|].
    unfold download_invariant. repeat split; try assumption.
    - apply in_or_app. left. apply (Hr u f H).
    - apply (Hr u f H).
    - apply (Hr u f H).
    - apply (Hsafe f H).
    - apply (Hsafe f H).
    - intros x Hx. apply in_or_app. left. apply Hreq. exact Hx.
    - intros u Hin Hs. apply in_app_or in Hin. destruct Hin as [Hin|[<-|[]]].
      + apply Hdone; assumption.
      + apply assoc_in_keys. congruence.
    - apply subseq_app_r. exact Hsub. }
  assert (Hfresh : ~ In url (map fst (result_map st))).
  { intros H. apply assoc_in_keys in H. congruence. }
  destruct (unique_filename_fresh (used_filenames st)
              (base_filename unquote urlparse_path url)) as (f & Ef & Hf).
  rewrite Ef.
  destruct (base_filename_safe unquote urlparse_path url) as [Hb1 Hb2].
  destruct (unique_filename_safe _ _ Ef Hb1 Hb2) as [Hf1 Hf2].
  assert (Hfv : ~ In f (map snd (result_map st))).
  { intros H. apply in_map_iff in H. destruct H as ([u f'] & E & Hin).
    simpl in E. subst f'. apply Hf. apply (Hr u f Hin). }
  assert (Hk' : NoDup (map fst (result_map st ++ [(url, f)]))).
  { rewrite map_app. simpl. apply NoDup_snoc; assumption. }
  assert (Hv' : NoDup (map snd (result_map st ++ [(url, f)]))).
  { rewrite map_app. simpl. apply NoDup_snoc; assumption. }
  assert (Hu' : NoDup (f :: used_filenames st)) by (constructor; assumption).
  assert (Hsafe' : forall f', In f' (f :: used_filenames st) ->
                              no_slash f' = true /\ Str.contains "." f' = true).
  { intros f' [<-|H]; [split; assumption | apply Hsafe; exact H]. }
  assert (Hreq' : forall l, incl l [url] ->
                            incl (requested_urls (log st) ++ l) (seen ++ [url])).
  { intros l Hl x Hx. apply in_app_or in Hx. apply in_or_app.
    destruct Hx as [Hx|Hx]; [left; apply Hreq; exact Hx | right; apply Hl; exact Hx]. }
  destruct (path_exists exists_before (log st) (path_join images_dir f)) eqn:Ep.
  { eexists. split; [reflexivity|].
    unfold download_invariant. simpl. repeat split; try assumption.
    - apply in_app_or in H. apply in_or_app. destruct H as [H|[[= <- <-]|[]]].
      + left. apply (Hr u f0 H).
      + right. left. reflexivity.
    - apply in_app_or in H. destruct H as [H|[[= <- <-]|[]]].
      + right. apply (Hr u f0 H).
      + left. reflexivity.
    - apply in_app_or in H. destruct H as [H|[[= <- <-]|[]]].
      + apply (Hr u f0 H).
      + exact Ep.
    - apply (Hsafe' f0 H).
    - apply (Hsafe' f0 H).
    - intros x Hx. apply in_or_app. left. apply Hreq. exact Hx.
    - intros u Hin Hs. rewrite map_app. apply in_or_app.
      apply in_app_or in Hin. destruct Hin as [Hin|[<-|[]]].
      + left. apply Hdone; assumption.
      + right. left. reflexivity.
    - apply subseq_app_r. exact Hsub. }
  assert (Hp : ~ In (path_join images_dir f) (opened_paths (log st))).
  { intros H. apply path_exists_opened in H. congruence. }
  assert (Hpe : exists_before (path_join images_dir f) = false).
  { unfold path_exists in Ep. apply orb_false_elim in Ep. apply Ep. }
  destruct (get (List.length (filter is_request (log st))) url) eqn:Eg.
  - (* Saved *)
    eexists. split; [reflexivity|].
    unfold download_invariant. simpl.
    rewrite opened_paths_app, requested_urls_app. simpl.
    repeat split; try assumption.
    + apply in_app_or in H. apply in_or_app. destruct H as [H|[[= <- <-]|[]]].
      * left. apply (Hr u f0 H).
      * right. left. reflexivity.
    + apply in_app_or in H. destruct H as [H|[[= <- <-]|[]]].
      * right. apply (Hr u f0 H).
      * left. reflexivity.
    + apply in_app_or in H. destruct H as [H|[[= <- <-]|[]]].
      * apply path_exists_app. apply (Hr u f0 H).
      * apply path_exists_opened. rewrite opened_paths_app. simpl.
        apply in_or_app. right. left. reflexivity.
    + apply (Hsafe' f0 H).
    + apply (Hsafe' f0 H).
    + apply NoDup_snoc; assumption.
    + intros p Hin. apply in_app_or in Hin. destruct Hin as [Hin|[<-|[]]].
      * apply Hnew. exact Hin.
      * exact Hpe.
    + apply Hreq'. apply incl_refl.
    + intros u Hin Hs. rewrite map_app. apply in_or_app.
      apply in_app_or in Hin. destruct Hin as [Hin|[<-|[]]].
      * left. apply Hdone; assumption.
      * right. left. reflexivity.
    + apply subseq_app; [exact Hsub | apply subseq_refl].
  - (* Refused *)
    eexists. split; [reflexivity|].
    unfold download_invariant. simpl.
    rewrite opened_paths_app, requested_urls_app. simpl. rewrite app_nil_r.
    repeat split; try assumption.
    + apply in_or_app. left. apply (Hr u f0 H).
    + right. apply (Hr u f0 H).
    + apply path_exists_app. apply (Hr u f0 H).
    + apply (Hsafe' f0 H).
    + apply (Hsafe' f0 H).
    + apply Hreq'. apply incl_refl.
    + intros u Hin Hs. apply in_app_or in Hin. destruct Hin as [Hin|[<-|[]]].
      * apply Hdone; assumption.
      * rewrite Hs in Eg. discriminate.
    + apply subseq_app; [exact Hsub | apply subseq_refl].
  - (* Broken *)
    eexists. split; [reflexivity|].
    unfold download_invariant. simpl.
    rewrite opened_paths_app, requested_urls_app. simpl.
    repeat split; try assumption.
    + apply in_or_app. left. apply (Hr u f0 H).
    + right. apply (Hr u f0 H).
    + apply path_exists_app. apply (Hr u f0 H).
    + apply (Hsafe' f0 H).
    + apply (Hsafe' f0 H).
    + apply NoDup_snoc; assumption.
    + intros p Hin. apply in_app_or in Hin. destruct Hin as [Hin|[<-|[]]].
      * apply Hnew. exact Hin.
      * exact Hpe.
    + apply Hreq'. apply incl_refl.
    + intros u Hin Hs. apply in_app_or in Hin. destruct Hin as [Hin|[<-|[]]].
      * apply Hdone; assumption.
      * rewrite Hs in Eg. discriminate.
    + apply subseq_app; [exact Hsub | apply subseq_refl].
Qed.

Lemma download_loop_invariant (urls : list string) :
  forall (seen : list string) (st : download_state),
    invariant seen st ->
    exists st', download_loop unquote urlparse_path exists_before get images_dir urls st
                = Some st'
                /\ invariant (seen ++ urls) st'.
Proof.
  induction urls as [|url urls IH]; intros seen st Hinv; simpl.
  - exists st. rewrite app_nil_r. split; [reflexivity | exact Hinv].
  - destruct (download_one_invariant url Hinv) as (st1 & E1 & H1).
    rewrite E1. destruct (IH _ _ H1) as (st' & E' & H').
    exists st'. split; [exact E'|]. rewrite <- app_assoc in H'. exact H'.
Qed.

Lemma download_images_invariant (urls : list string) :
  exists st, download_images unquote urlparse_path exists_before get urls images_dir
             = Some st
             /\ invariant urls st.
Proof.
  unfold download_images.
  apply (download_loop_invariant urls download_invariant_start).
Qed.

End DownloadLoop.

Lemma free_counter_least (fuel : nat) (used : list string) (name ext : string) :
  forall counter c,
    free_counter fuel used name ext counter = Some c ->
    counter <= c
    /\ forall j, counter <= j -> j < c -> In (numbered name j ext) used.
Proof.
  induction fuel as [|fuel IH]; intros counter c E; [discriminate|].
  simpl in E.
  destruct (Py.in_strs (numbered name counter ext) used) eqn:Hin.
  - destruct (IH _ _ E) as [Hle Hall]. split; [lia|].
    intros j Hj1 Hj2. destruct (Nat.eq_dec j counter) as [->|Hne].
    + apply in_strs_In. exact Hin.
    + apply Hall; lia.
  - injection E as <-. split; [lia|]. intros j Hj1 Hj2. lia.
Qed.

(** X8.  The collision handling of [download_images] always ends and gives
    a name that is not in use: the file name itself when it is free, else
    the name with the first counter, from 1 on, whose numbered name is free;
    the counter never has to go beyond the number of names in use plus one. *)
Theorem unique_filename_first_free :
  forall (used : list string) (filename : string),
    exists f,
      unique_filename used filename = Some f
      /\ ~ In f used
      /\ (~ In filename used -> f = filename)
      /\ (In filename used ->
          exists c, f = numbered (fst (splitext filename)) c (snd (splitext filename))
                    /\ 1 <= c <= S (List.length used)
                    /\ forall j, 1 <= j -> j < c ->
                                 In (numbered (fst (splitext filename)) j
                                       (snd (splitext filename))) used).
Proof.
  intros used filename.
  destruct (unique_filename_fresh used filename) as (f & E & Hf).
  exists f. split; [exact E|]. split; [exact Hf|].
  unfold unique_filename in E.
  destruct (Py.in_strs filename used) eqn:Hin.
  - split; [intros H; apply in_strs_In in Hin; contradiction|].
    intros _. destruct (splitext filename) as [name ext]. simpl.
    destruct (free_counter (S (List.length used)) used name ext 1) as [c|] eqn:Ec;
      [|discriminate].
    injection E as <-. exists c. split; [reflexivity|].
    destruct (@free_counter_least _ _ _ _ _ _ Ec) as [Hle Hall].
    split; [|exact Hall]. split; [exact Hle|].
    destruct (le_lt_dec c (S (List.length used))) as [H|H]; [exact H | exfalso].
    assert (Hincl : incl (map (fun i => numbered name (1 + i) ext)
                            (seq 0 (S (List.length used)))) used).
    { intros x Hx. apply in_map_iff in Hx. destruct Hx as (i & <- & Hi).
      apply in_seq in Hi. apply Hall; lia. }
    assert (Hnd : NoDup (map (fun i => numbered name (1 + i) ext)
                           (seq 0 (S (List.length used))))).
    { apply NoDup_map_inj; [|apply seq_NoDup].
      intros a b Hab. apply numbered_inj in Hab. lia. }
    pose proof (NoDup_incl_length Hnd Hincl) as Hlen.
    rewrite length_map, length_seq in Hlen. lia.
  - injection E as <-. split; [reflexivity|].
    intros H. apply in_strs_In in H. congruence.
Qed.





Lemma all_different_NoDup (l : list string) : all_different l = true -> NoDup l.
Proof.
  induction l as [|x l IH]; intros H; [constructor|].
  simpl in H. apply andb_prop in H. destruct H as [Hx Hl]. constructor.
  - intros Hin. apply in_strs_In in Hin. rewrite Hin in Hx. discriminate.
  - apply IH. exact Hl.
Qed.



(** A URL whose download fails is requested again when the list has it
    again, under a new file name. *)
Example download_images_retries :
  exists st,
    download_images (fun s => s) Ref.urlparse_path (fun _ => false)
      (fun _ _ => Refused) ["http://x/a.png"; "http://x/a.png"] "img" = Some st
    /\ requested_urls (log st) = ["http://x/a.png"; "http://x/a.png"]
    /\ used_filenames st = ["a-1.png"; "a.png"].
Proof. eexists. split; [vm_compute; reflexivity|]. split; reflexivity. Qed.

(** A run: two URLs with the same file name, the second of which fails; a
    file that is there already; a path without a name and one without an
    extension; a name that collides with a numbered one; a URL repeated. *)
Example download_images_run :
  download_images (fun s => s) Ref.urlparse_path
    (fun p => String.eqb p "img/b.png")
    (fun n _ => if n =? 1 then Refused else Saved)
    ["http://x/a.png"; "http://y/a.png"; "http://z/a.png"; "http://x/b.png";
     "http://x/dir/"; "http://x/noext"; "http://x/a-1.png"; "http://x/a.png"]
    "img"
  = Some {| result_map :=
              [("http://x/a.png", "a.png"); ("http://z/a.png", "a-2.png");
               ("http://x/b.png", "b.png"); ("http://x/dir/", "image.jpg");
               ("http://x/noext", "noext.jpg"); ("http://x/a-1.png", "a-1-1.png")];
            used_filenames :=
              ["a-1-1.png"; "noext.jpg"; "image.jpg"; "b.png"; "a-2.png";
               "a-1.png"; "a.png"];
            log :=
              [Request "http://x/a.png"; OpenFile "img/a.png"; Sleep;
               Request "http://y/a.png"; Sleep;
               Request "http://z/a.png"; OpenFile "img/a-2.png"; Sleep;
               Request "http://x/dir/"; OpenFile "img/image.jpg"; Sleep;
               Request "http://x/noext"; OpenFile "img/noext.jpg"; Sleep;
               Request "http://x/a-1.png"; OpenFile "img/a-1-1.png"; Sleep] |}.
Proof. vm_compute. reflexivity. Qed.

(* ------------------------------------------------------------------ *)
(** ** Which images are collected, and what rewriting leaves *)

Lemma remote_src_spec (img : node) (v : value) :
  named "img" img = true ->
  (In v (remote_src img) <->
   exists s, v = VStr s /\ In s (src_of img) /\ Str.startswith "http" s = true).
Proof.
  intros Himg. unfold remote_src, src_of. rewrite Himg.
  destruct (node_attr "src" img) as [src|].
  - destruct (Str.is_empty src) eqn:He; destruct (Str.startswith "http" src) eqn:Hs;
      cbn [negb andb In].
    + destruct src; discriminate.
    + split; [intros []|]. intros (s & _ & [<-|[]] & Hs'). congruence.
    + split.
      * intros [<-|[]]. exists src. repeat split; auto.
      * intros (s & -> & [<-|[]] & _). left. reflexivity.
    + split; [intros []|]. intros (s & _ & [<-|[]] & Hs'). congruence.
  - cbn [In]. split; [intros []|]. intros (s & _ & [] & _).
Qed.

Lemma in_image_srcs (body : markup) (s : string) :
  In s (image_srcs body) <->
  exists img, In img (nodes body) /\ named "img" img = true /\ In s (src_of img).
Proof.
  unfold image_srcs. rewrite in_flat_map. split.
  - intros (n & Hn & Hs). exists n. split; [exact Hn|]. split; [|exact Hs].
    unfold src_of in Hs. destruct (named "img" n); [reflexivity | destruct Hs].
  - intros (n & Hn & _ & Hs). exists n. split; assumption.
Qed.

Lemma collect_image_urls_in (post_data : post) (v : value) :
  In v (collect_image_urls post_data) <->
  (v = featured_image post_data /\ Py.truthy (featured_image post_data) = true)
  \/ (exists s, v = VStr s /\ In s (image_srcs (content_html post_data))
                /\ Str.startswith "http" s = true).
Proof.
  assert (Hbody : forall body,
             In v (flat_map remote_src (filter (named "img") (nodes body))) <->
             exists s, v = VStr s /\ In s (image_srcs body)
                       /\ Str.startswith "http" s = true).
  { intros body. rewrite in_flat_map. split.
    - intros (img & Hin & Hv). apply filter_In in Hin. destruct Hin as [Hin Himg].
      apply (@remote_src_spec img v Himg) in Hv. destruct Hv as (s & -> & Hs & Hh).
      exists s. split; [reflexivity|]. split; [|exact Hh].
      apply in_image_srcs. exists img. repeat split; assumption.
    - intros (s & -> & Hs & Hh). apply in_image_srcs in Hs.
      destruct Hs as (img & Hin & Himg & Hs). exists img. split.
      + apply filter_In. split; assumption.
      + apply (@remote_src_spec img (VStr s) Himg). exists s. repeat split; assumption. }
  assert (Hfeat : In v (if Py.truthy (featured_image post_data)
                        then [featured_image post_data] else []) <->
                  v = featured_image post_data
                  /\ Py.truthy (featured_image post_data) = true).
  { destruct (Py.truthy (featured_image post_data)); simpl.
    - split; [intros [<-|[]]; split; reflexivity | intros [-> _]; left; reflexivity].
    - split; [intros [] | intros [_ H]; discriminate]. }
  unfold collect_image_urls.
  destruct (content_html post_data) as [|n body] eqn:Eb.
  - rewrite Hfeat. split; [intros H; left; exact H|].
    intros [H|(s & _ & [] & _)]. exact H.
  - rewrite in_app_iff, Hfeat, (Hbody (n :: body)). reflexivity.
Qed.

(** X14.  What [collect_image_urls] collects: the featured image whenever
    it holds something, whatever that is (it is not tested for a scheme),
    and of the inline images exactly the sources that start with [http]. *)
Theorem collect_image_urls_members :
  forall (post_data : post) (v : value),
    In v (collect_image_urls post_data) <->
    (v = featured_image post_data /\ Py.truthy (featured_image post_data) = true)
    \/ (exists s, v = VStr s /\ In s (image_srcs (content_html post_data))
                  /\ Str.startswith "http" s = true).
Proof. exact collect_image_urls_in. Qed.

(** X15.  Collecting and rewriting fit: when the image map has every URL
    that [collect_image_urls] collects from a record, no inline image of the
    rewritten body keeps a remote source: each source is a local path or
    does not start with [http]. *)
Theorem collected_images_are_rewritten :
  forall (post_data : post) (image_map : image_map_t) (images_prefix : string),
    (forall s, In (VStr s) (collect_image_urls post_data) ->
               Py.assoc s image_map <> None) ->
    forall src,
      In src (image_srcs (rewrite_content_images (content_html post_data)
                            image_map images_prefix)) ->
      Str.startswith "http" src = false
      \/ exists file, src = local_path images_prefix file.
Proof.
  intros post_data m prefix Hall src Hin.
  rewrite rewrite_content_images_srcs in Hin. apply in_map_iff in Hin.
  destruct Hin as (s & <- & Hs).
  unfold rewritten_src, claimed_src.
  destruct (Str.is_empty s) eqn:He.
  - left. destruct s; [reflexivity | discriminate].
  - destruct (Py.assoc s m) as [file|] eqn:Ea.
    + right. exists file. reflexivity.
    + left. destruct (Str.startswith "http" s) eqn:Hh; [exfalso | reflexivity].
      apply (Hall s); [|exact Ea].
      apply collect_image_urls_in. right. exists s. repeat split; assumption.
Qed.

Lemma collected_images_are_rewritten_witness :
  collect_image_urls Sample6.illustrated_post
  = [VStr Sample3.hero; VStr Sample3.hero; VStr "https://other.example/x.png"]
  /\ (Str.startswith "http" "images/hero.png" = false
      \/ exists file, "images/hero.png" = local_path "images" file).
Proof.
  split; [reflexivity|].
  apply (@collected_images_are_rewritten Sample6.illustrated_post Sample6.full_map
           "images").
  - intros s Hs. vm_compute in Hs.
    destruct Hs as [[= <-]|[[= <-]|[[= <-]|[]]]]; discriminate.
  - vm_compute. left. reflexivity.
Defined.

(* ------------------------------------------------------------------ *)
(** ** Metadata: authors, tags, JSON-LD and the slug *)

Lemma collect_names_truthy (name_of : value -> result value) (entries : list value) :
  forall acc,
    Forall (fun v => Py.truthy v = true) acc ->
    Forall (fun v => Py.truthy v = true) (fst (collect_names name_of entries acc)).
Proof.
  induction entries as [|entry rest IH]; intros acc Hacc; simpl; [exact Hacc|].
  destruct (name_of entry) as [name|e]; simpl; [|exact Hacc].
  apply IH. destruct (Py.truthy name) eqn:Hn; [|exact Hacc].
  apply Forall_app. split; [exact Hacc|]. constructor; [exact Hn | constructor].
Qed.

Lemma names_at_key_truthy (list_key : string) (name_of : value -> result value)
  (loader_data key : value) :
  Forall (fun v => Py.truthy v = true)
    (fst (names_at_key list_key name_of loader_data key)).
Proof.
  unfold names_at_key.
  destruct (Py.getitem loader_data key) as [post_data|]; [|constructor].
  destruct (Py.is_dict post_data); [|constructor].
  destruct (Py.get post_data "post" post_data) as [post_obj|]; [|constructor].
  destruct (Py.get post_obj list_key (VList [])) as [entries|]; [|constructor].
  destruct (Py.iter entries) as [l|]; [|constructor].
  apply collect_names_truthy. constructor.
Qed.

Lemma scan_keys_truthy (list_key : string) (name_of : value -> result value)
  (loader_data : value) (keys : list value) :
  Forall (fun v => Py.truthy v = true)
    (fst (scan_keys list_key name_of loader_data keys)).
Proof.
  induction keys as [|key rest IH]; simpl; [constructor|].
  destruct (Py.str_in "p/$slug" key) as [[|]|]; try constructor.
  - apply names_at_key_truthy.
  - destruct (Py.str_in "p/" key) as [[|]|]; try constructor.
    + apply names_at_key_truthy.
    + exact IH.
Qed.

Lemma loader_names_truthy (list_key : string) (name_of : value -> result value)
  (remix_ctx : value) :
  Forall (fun v => Py.truthy v = true)
    (fst (loader_names list_key name_of remix_ctx)).
Proof.
  unfold loader_names.
  destruct (Py.get remix_ctx "state" (VDict [])) as [state|]; [|constructor].
  destruct (Py.get state "loaderData" (VDict [])) as [loader_data|]; [|constructor].
  destruct (Py.iter loader_data) as [keys|]; [|constructor].
  apply scan_keys_truthy.
Qed.

(** X16.  [extract_authors] and [extract_tags] never raise, whatever value
    the client state is: they return a list, and every name in it holds
    something (it is neither [None] nor empty). *)
Theorem extract_names_never_raise :
  forall remix_ctx : value,
    (exists names, extract_authors remix_ctx = Ok names
                   /\ Forall (fun v => Py.truthy v = true) names)
    /\ (exists names, extract_tags remix_ctx = Ok names
                      /\ Forall (fun v => Py.truthy v = true) names).
Proof.
  intros remix_ctx. split.
  - eexists. split; [apply extract_authors_total | apply loader_names_truthy].
  - eexists. split; [apply extract_tags_total | apply loader_names_truthy].
Qed.

Lemma startswith_app (a b s : string) :
  Str.startswith (a ^^ b) s = true -> Str.startswith a s = true.
Proof.
  revert s. induction a as [|x a IH]; intros s H; [destruct s; reflexivity|].
  destruct s as [|y s]; simpl in *; [discriminate|].
  apply andb_prop in H. destruct H as [-> H]. simpl. apply IH. exact H.
Qed.

Lemma contains_app (a b s : string) :
  Str.contains (a ^^ b) s = true -> Str.contains a s = true.
Proof.
  induction s as [|y s IH]; intros H.
  - simpl in H. rewrite orb_false_r in H. apply startswith_app in H.
    simpl. rewrite H. reflexivity.
  - change (Str.contains (a ^^ b) (String y s))
      with (Str.startswith (a ^^ b) (String y s) || Str.contains (a ^^ b) s) in H.
    change (Str.contains a (String y s))
      with (Str.startswith a (String y s) || Str.contains a s).
    apply orb_prop in H. destruct H as [H|H].
    + apply startswith_app in H. rewrite H. reflexivity.
    + rewrite (IH H). apply orb_true_r.
Qed.

Lemma scan_keys_skip (list_key : string) (name_of : value -> result value)
  (loader_data : value) (pre : list (string * value)) (rest : list value) :
  forallb (fun kv => negb (route_key kv)) pre = true ->
  scan_keys list_key name_of loader_data
    (map (fun kv => VStr (fst kv)) pre ++ rest)
  = scan_keys list_key name_of loader_data rest.
Proof.
  induction pre as [|[k v] pre IH]; intros H; [reflexivity|].
  simpl in H. apply andb_prop in H. destruct H as [Hk Hpre].
  apply negb_true_iff in Hk. unfold route_key in Hk. simpl in Hk.
  change (scan_keys list_key name_of loader_data
            (map (fun kv => VStr (fst kv)) ((k, v) :: pre) ++ rest))
    with (match Py.str_in "p/$slug" (VStr k) with
          | Raise e => ([], Some e)
          | Ok true => names_at_key list_key name_of loader_data (VStr k)
          | Ok false =>
              match Py.str_in "p/" (VStr k) with
              | Raise e => ([], Some e)
              | Ok true => names_at_key list_key name_of loader_data (VStr k)
              | Ok false =>
                  scan_keys list_key name_of loader_data
                    (map (fun kv => VStr (fst kv)) pre ++ rest)
              end
          end).
  unfold Py.str_in.
  destruct (Str.contains "p/$slug" k) eqn:Hs.
  - apply (@contains_app "p/" "$slug" k) in Hs. congruence.
  - rewrite Hk. apply IH. exact Hpre.
Qed.

Lemma scan_keys_hit (list_key : string) (name_of : value -> result value)
  (loader_data : value) (k : string) (rest : list value) :
  Str.contains "p/" k = true ->
  scan_keys list_key name_of loader_data (VStr k :: rest)
  = names_at_key list_key name_of loader_data (VStr k).
Proof.
  intros Hk.
  change (scan_keys list_key name_of loader_data (VStr k :: rest))
    with (match Py.str_in "p/$slug" (VStr k) with
          | Raise e => ([], Some e)
          | Ok true => names_at_key list_key name_of loader_data (VStr k)
          | Ok false =>
              match Py.str_in "p/" (VStr k) with
              | Raise e => ([], Some e)
              | Ok true => names_at_key list_key name_of loader_data (VStr k)
              | Ok false => scan_keys list_key name_of loader_data rest
              end
          end).
  unfold Py.str_in. rewrite Hk. destruct (Str.contains "p/$slug" k); reflexivity.
Qed.

Lemma assoc_after (k : string) (v : value) (pre post : list (string * value)) :
  forallb (fun kv => negb (route_key kv)) pre = true ->
  Str.contains "p/" k = true ->
  Py.assoc k (pre ++ (k, v) :: post) = Some v.
Proof.
  intros Hpre Hk. induction pre as [|[k' v'] pre IH]; simpl.
  - rewrite String.eqb_refl. reflexivity.
  - simpl in Hpre. apply andb_prop in Hpre. destruct Hpre as [Hk' Hpre].
    apply negb_true_iff in Hk'. unfold route_key in Hk'. simpl in Hk'.
    destruct (String.eqb k k') eqn:E.
    + apply String.eqb_eq in E. congruence.
    + apply IH. exact Hpre.
Qed.

Lemma loader_names_first_route (list_key : string) (name_of : value -> result value)
  (pre post : list (string * value)) (k : string) (v : value) :
  forallb (fun kv => negb (route_key kv)) pre = true ->
  Str.contains "p/" k = true ->
  loader_names list_key name_of (with_loader_data (pre ++ (k, v) :: post))
  = loader_names list_key name_of (with_loader_data [(k, v)]).
Proof.
  intros Hpre Hk.
  change (loader_names list_key name_of (with_loader_data (pre ++ (k, v) :: post)))
    with (scan_keys list_key name_of (VDict (pre ++ (k, v) :: post))
            (map (fun kv => VStr (fst kv)) (pre ++ (k, v) :: post))).
  change (loader_names list_key name_of (with_loader_data [(k, v)]))
    with (scan_keys list_key name_of (VDict [(k, v)]) [VStr k]).
  rewrite map_app. cbn [map fst].
  rewrite (@scan_keys_skip _ _ _ _ _ Hpre), !(@scan_keys_hit _ _ _ _ _ Hk).
  unfold names_at_key, Py.getitem.
  rewrite (@assoc_after k v pre post Hpre Hk). cbn [Py.assoc].
  rewrite String.eqb_refl. reflexivity.
Qed.

Lemma loader_names_no_route (list_key : string) (name_of : value -> result value)
  (items : list (string * value)) :
  forallb (fun kv => negb (route_key kv)) items = true ->
  loader_names list_key name_of (with_loader_data items) = ([], None).
Proof.
  intros H.
  change (loader_names list_key name_of (with_loader_data items))
    with (scan_keys list_key name_of (VDict items)
            (map (fun kv => VStr (fst kv)) items)).
  rewrite <- (app_nil_r (map _ items)).
  rewrite (@scan_keys_skip _ _ _ _ _ H). reflexivity.
Qed.

(** X17.  Authors and tags are read from one route only: the first key of
    [loaderData] that contains [p/].  Keys before it and everything after
    it are ignored; without such a key both lists are empty. *)
Theorem names_come_from_first_route :
  forall (pre post : list (string * value)) (k : string) (v : value),
    forallb (fun kv => negb (route_key kv)) pre = true ->
    Str.contains "p/" k = true ->
    extract_authors (with_loader_data (pre ++ (k, v) :: post))
    = extract_authors (with_loader_data [(k, v)])
    /\ extract_tags (with_loader_data (pre ++ (k, v) :: post))
       = extract_tags (with_loader_data [(k, v)])
    /\ extract_authors (with_loader_data pre) = Ok []
    /\ extract_tags (with_loader_data pre) = Ok [].
Proof.
  intros pre post k v Hpre Hk. unfold extract_authors, extract_tags.
  rewrite !(@loader_names_first_route _ _ pre post k v Hpre Hk).
  rewrite !(@loader_names_no_route _ _ pre Hpre).
  repeat split; reflexivity.
Qed.

Lemma names_come_from_first_route_witness :
  extract_authors (with_loader_data Sample7.loader_data) = Ok [VStr "Ann"; VStr "Bob"]
  /\ extract_tags (with_loader_data Sample7.loader_data) = Ok [VStr "news"].
Proof.
  destruct (@names_come_from_first_route
              [("root", VDict [("post", VDict [("authors", VList [VDict [("name", VStr "Root")]])])])]
              [("routes/p/other", VDict [("post", VDict [("authors", VList [VDict [("name", VStr "Eve")]])])])]
              "routes/p/$slug"
              (VDict [("post", VDict [("authors", VList [VDict [("name", VStr "Ann")];
                                                         VDict [("display_name", VStr "Bob")];
                                                         VDict [("name", VStr "")]]);
                                      ("content_tags", VList [VDict [("name", VStr "news")]])])])
              eq_refl eq_refl) as (Ha & Ht & _).
  split.
  - exact (eq_trans Ha eq_refl).
  - exact (eq_trans Ht eq_refl).
Defined.

Lemma json_ld_scan_all_fail (json_loads : string -> option value) (scripts : list node) :
  (forall script t, In script scripts -> tag_string script = Some t ->
                    json_loads t = None) ->
  json_ld_scan json_loads scripts = Ok (VDict []).
Proof.
  induction scripts as [|script rest IH]; intros H; [reflexivity|].
  simpl. unfold json_ld_block.
  destruct (tag_string script) as [t|] eqn:Et.
  - rewrite (H script t (or_introl eq_refl) Et). simpl.
    apply IH. intros s t' Hin. apply H. right. exact Hin.
  - simpl. apply IH. intros s t' Hin. apply H. right. exact Hin.
Qed.



Lemma take_while_no_slash (s : string) : no_slash (Str.take_while not_slash s) = true.
Proof.
  induction s as [|c s IH]; [reflexivity|].
  simpl. destruct (not_slash c) eqn:Hc; [|reflexivity].
  unfold no_slash. simpl. rewrite Hc. exact IH.
Qed.

Lemma slug_no_slash (path : string) : no_slash (slug_of_path path) = true.
Proof.
  unfold slug_of_path.
  destruct (find (Re.fullmatch slug_re) (Str.suffixes path)).
  - apply take_while_no_slash.
  - apply rsplit_last_no_slash.
Qed.

Lemma rsplit_last_empty (s : string) :
  Str.rsplit_last "/" s = EmptyString ->
  s = EmptyString \/ exists s', s = s' ^^ "/".
Proof.
  induction s as [|c s IH]; [left; reflexivity|]. right.
  rewrite rsplit_last_cons in H.
  destruct (existsb (Ascii.eqb "/") (list_ascii_of_string s)) eqn:E.
  - destruct (IH H) as [->|[s' ->]]; [discriminate|].
    exists (String c s'). reflexivity.
  - destruct (Ascii.eqb c "/") eqn:Hc; [|discriminate].
    apply Ascii.eqb_eq in Hc. subst. exists EmptyString. reflexivity.
Qed.

(** X19.  The slug of a record never holds a slash, whatever the URL; and
    it is empty only for a path that is empty or ends in a slash. *)
Theorem slug_has_no_slash :
  forall (json_loads : string -> option value) (urlparse_path : string -> string)
         (u : string) (soup : node) (r : post),
    fetch_post json_loads urlparse_path u soup = Ok r ->
    no_slash (slug r) = true
    /\ (slug r = EmptyString ->
        urlparse_path u = EmptyString \/ exists p, urlparse_path u = p ^^ "/").
Proof.
  intros json_loads urlparse_path u soup r H.
  apply fetch_post_slug_url in H. destruct H as [_ ->].
  split; [apply slug_no_slash|].
  unfold slug_of_path.
  destruct (find (Re.fullmatch slug_re) (Str.suffixes (urlparse_path u))) as [t|] eqn:Ef.
  - apply find_some in Ef. destruct Ef as [_ Hm].
    apply fullmatch_lang, lang_slug_re in Hm.
    destruct Hm as (x & seg & t1 & t2 & -> & Hx & _).
    simpl. rewrite Hx. discriminate.
  - apply rsplit_last_empty.
Qed.

Lemma slug_has_no_slash_witness :
  fetch_post Ref.json_loads Ref.urlparse_path Sample.post_url Sample2.bare_page
  = Ok (minimal_post Sample.post_url "hello")
  /\ no_slash "hello" = true.
Proof.
  split; [reflexivity|].
  exact (proj1 (@slug_has_no_slash Ref.json_loads Ref.urlparse_path Sample.post_url
                  Sample2.bare_page (minimal_post Sample.post_url "hello") eq_refl)).
Defined.

Lemma fetch_post_dict (json_loads : string -> option value)
  (urlparse_path : string -> string) (u : string) (soup : node)
  (items : list (string * value)) :
  extract_json_ld json_loads soup = Ok (VDict items) ->
  exists mk : markup -> post,
    fetch_post json_loads urlparse_path u soup
    = match match find_in soup is_content_div with
            | Some content_div => clean_content (Some (node_ref content_div)) [soup]
            | None => Ok []
            end with
      | Ok c => Ok (mk c)
      | Raise e => Raise e
      end
    /\ (forall c, content_html (mk c) = c).
Proof.
  intros Hld. unfold fetch_post.
  rewrite Hld, extract_authors_total, extract_tags_total. simpl.
  destruct (Py.assoc "image" items) as [[| | | | | |img]|]; simpl;
    destruct (fst (loader_names "authors" author_name
                     (extract_remix_context json_loads soup))); simpl;
    try (eexists (fun c => _); split;
         [unfold bind; reflexivity | intros c; reflexivity]);
    destruct (Py.assoc "publisher" items) as [[| | | | | |pub]|]; simpl;
    (eexists (fun c => _); split;
     [unfold bind; reflexivity | intros c; reflexivity]).
Qed.


Lemma slice_ok (v : value) :
  sliceable v = true -> exists w, Py.slice_to 10 v = Ok w.
Proof. destruct v; try discriminate; intros _; eexists; reflexivity. Qed.

Lemma slice_raises (v : value) :
  sliceable v = false -> Py.slice_to 10 v = Raise TypeError.
Proof. destruct v; try discriminate; reflexivity. Qed.

Lemma key_in_ok (v : value) (m : image_map_t) :
  hashable v = true -> exists hit, key_in v m = Ok hit.
Proof. destruct v; try discriminate; intros _; eexists; reflexivity. Qed.

Lemma key_in_raises (v : value) (m : image_map_t) :
  hashable v = false -> key_in v m = Raise TypeError.
Proof. destruct v; try discriminate; reflexivity. Qed.

Lemma frontmatter_outcome (p : post) (m : image_map_t) (prefix : string) :
  if renderable p m
  then exists fm, frontmatter p m prefix = Ok fm
  else frontmatter p m prefix = Raise TypeError.
Proof.
  unfold renderable, frontmatter.
  destruct (Py.truthy (date p)) eqn:Hd; simpl.
  - destruct (sliceable (date p)) eqn:Hs; simpl.
    + destruct (slice_ok _ Hs) as [w ->]. simpl.
      destruct (Py.truthy (featured_image p)) eqn:Hf; simpl.
      * destruct m as [|kv m]; simpl; [eexists; reflexivity|].
        destruct (hashable (featured_image p)) eqn:Hh.
        -- destruct (@key_in_ok _ (kv :: m) Hh) as [hit ->]. simpl.
           destruct hit; simpl; eexists; reflexivity.
        -- rewrite (@key_in_raises _ (kv :: m) Hh). reflexivity.
      * eexists; reflexivity.
    + rewrite (slice_raises _ Hs). reflexivity.
  - destruct (Py.truthy (featured_image p)) eqn:Hf; simpl.
    + destruct m as [|kv m]; simpl; [eexists; reflexivity|].
      destruct (hashable (featured_image p)) eqn:Hh.
      * destruct (@key_in_ok _ (kv :: m) Hh) as [hit ->]. simpl.
        destruct hit; simpl; eexists; reflexivity.
      * rewrite (@key_in_raises _ (kv :: m) Hh). reflexivity.
    + eexists; reflexivity.
Qed.


(** A date given as the number 20240301 makes the rendering fail. *)
Example post_to_markdown_numeric_date :
  forall (yaml_dump : list (string * value) -> string) (html2text : markup -> string),
    post_to_markdown yaml_dump html2text Sample8.numeric_date_post [] "images"
    = Raise TypeError.
Proof. reflexivity. Qed.

(* ------------------------------------------------------------------ *)
(** ** The text of a tag *)

Lemma rstrip_head (c : ascii) (r : string) :
  Str.is_space c = false -> exists r', Str.rstrip (String c r) = String c r'.
Proof.
  intros Hc. simpl. destruct (Str.rstrip r) as [|y r'].
  - rewrite Hc. exists EmptyString. reflexivity.
  - exists (String y r'). reflexivity.
Qed.

Lemma strip_head (s : string) :
  Str.strip s = EmptyString
  \/ exists c r, Str.strip s = String c r /\ Str.is_space c = false.
Proof.
  unfold Str.strip. destruct (lstrip_head s) as [->|(c & r & -> & Hc)].
  - left. reflexivity.
  - right. destruct (@rstrip_head c r Hc) as [r' ->]. exists c, r'. split; [reflexivity | exact Hc].
Qed.

Lemma stripped_head (n : node) (p : string) :
  In p (stripped n) -> exists c r, p = String c r /\ Str.is_space c = false.
Proof.
  destruct n as [r k s|r name attrs cs]; simpl; [|intros []].
  destruct (interesting k); [|intros []].
  destruct (strip_head s) as [->|(c & t & -> & Hc)]; simpl; [intros []|].
  intros [<-|[]]. exists c, t. split; [reflexivity | exact Hc].
Qed.

Lemma concat_head (l : list string) :
  (forall p, In p l -> exists c r, p = String c r /\ Str.is_space c = false) ->
  String.concat "" l = EmptyString
  \/ exists c r, String.concat "" l = String c r /\ Str.is_space c = false.
Proof.
  destruct l as [|p l]; intros H; [left; reflexivity|]. right.
  destruct (H p (or_introl eq_refl)) as (c & r & -> & Hc).
  destruct l as [|q l]; simpl.
  - exists c, r. split; [reflexivity | exact Hc].
  - eexists c, _. split; [reflexivity | exact Hc].
Qed.

Lemma get_text_head (n : node) :
  get_text n = EmptyString
  \/ exists c r, get_text n = String c r /\ Str.is_space c = false.
Proof.
  unfold get_text. apply concat_head.
  intros p Hp. apply in_flat_map in Hp. destruct Hp as (m & _ & Hp).
  apply (@stripped_head m p Hp).
Qed.

Lemma lstrip_blank (s : string) :
  forallb Str.is_space (list_ascii_of_string s) = true -> Str.lstrip s = EmptyString.
Proof.
  induction s as [|c s IH]; [reflexivity|]. simpl. intros H.
  apply andb_prop in H. destruct H as [-> H]. apply IH. exact H.
Qed.

(** X22.  The text of a tag, as [get_text(strip=True)] gives it, is empty or
    starts with a character that is not white space.  So it is never the
    single no-break space the empty-paragraph pass also tests for: a
    paragraph that holds nothing but white space, no-break spaces included,
    has empty text. *)
Theorem get_text_is_never_nbsp :
  forall n : node,
    (get_text n = EmptyString
     \/ exists c r, get_text n = String c r /\ Str.is_space c = false)
    /\ get_text n <> nbsp
    /\ Py.in_strs (get_text n) [nbsp; "&nbsp;"] = String.eqb (get_text n) "&nbsp;"
    /\ (forall r r' name attrs k s,
           n = Elem r name attrs [Text r' k s] ->
           forallb Str.is_space (list_ascii_of_string s) = true ->
           get_text n = EmptyString).
Proof.
  intros n.
  assert (Hn : get_text n <> nbsp).
  { destruct (get_text_head n) as [->|(c & r & -> & Hc)]; [discriminate|].
    unfold nbsp. intros [= -> _]. discriminate Hc. }
  split; [apply get_text_head|]. split; [exact Hn|]. split.
  - unfold Py.in_strs. cbn [existsb]. rewrite orb_false_r.
    destruct (String.eqb (get_text n) nbsp) eqn:E; [|reflexivity].
    apply String.eqb_eq in E. contradiction.
  - intros r r' name attrs k s -> Hs.
    unfold get_text, descendants, nodes. simpl.
    destruct (interesting k); [|reflexivity].
    unfold Str.strip. rewrite (@lstrip_blank s Hs). reflexivity.
Qed.

Lemma get_text_is_never_nbsp_witness :
  get_text (Elem 1 "p" [] [Text 2 NavigableString (String.append nbsp " ")]) = EmptyString.
Proof.
  apply (proj2 (proj2 (proj2 (get_text_is_never_nbsp
           (Elem 1 "p" [] [Text 2 NavigableString (String.append nbsp " ")]))))
           1 2 "p" [] NavigableString (String.append nbsp " ") eq_refl eq_refl).
Defined.

(* ------------------------------------------------------------------ *)
(** ** The client state *)

Lemma startswith_append (a b : string) : Str.startswith a (a ^^ b) = true.
Proof.
  induction a as [|c a IH]; simpl; [destruct b; reflexivity|].
  rewrite Ascii.eqb_refl. exact IH.
Qed.

Lemma drop_append (a b : string) : Str.drop (String.length a) (a ^^ b) = b.
Proof. induction a as [|c a IH]; simpl; [destruct b; reflexivity | exact IH]. Qed.

Lemma lstrip_blank_prefix (w : string) (c : ascii) (r : string) :
  blank w = true -> Str.is_space c = false ->
  Str.lstrip (w ^^ String c r) = String c r.
Proof.
  unfold blank. induction w as [|x w IH]; simpl; intros Hw Hc.
  - rewrite Hc. reflexivity.
  - apply andb_prop in Hw. destruct Hw as [-> Hw]. apply IH; assumption.
Qed.

Lemma rpartition_none (c : ascii) (r : string) :
  existsb (Ascii.eqb c) (list_ascii_of_string r) = false -> Str.rpartition c r = None.
Proof.
  induction r as [|a r IH]; simpl; intros H; [reflexivity|].
  apply orb_false_elim in H. destruct H as [Ha Hr].
  rewrite (IH Hr). rewrite Ascii.eqb_sym, Ha. reflexivity.
Qed.

Lemma rpartition_last (c : ascii) (l r : string) :
  existsb (Ascii.eqb c) (list_ascii_of_string r) = false ->
  Str.rpartition c (l ^^ String c r) = Some (l, r).
Proof.
  intros Hr. induction l as [|a l IH]; simpl.
  - rewrite (@rpartition_none c r Hr), Ascii.eqb_refl. reflexivity.
  - rewrite IH. reflexivity.
Qed.

Lemma blank_without (c : ascii) (w : string) :
  Str.is_space c = false -> blank w = true ->
  existsb (Ascii.eqb c) (list_ascii_of_string w) = false.
Proof.
  unfold blank. intros Hc. induction w as [|x w IH]; simpl; intros Hw; [reflexivity|].
  apply andb_prop in Hw. destruct Hw as [Hx Hw]. rewrite (IH Hw), orb_false_r.
  destruct (Ascii.eqb c x) eqn:E; [|reflexivity].
  apply Ascii.eqb_eq in E. congruence.
Qed.

Lemma lang_star_space (w : string) : blank w = true -> Re.lang (Re.Star Re.space) w.
Proof. intros H. apply star_class_lang. exact H. Qed.

Lemma assignment_matches (w1 w2 body w3 semi w4 : string) :
  blank w1 = true -> blank w2 = true -> blank w3 = true -> blank w4 = true ->
  semi = EmptyString \/ semi = ";" -> body <> EmptyString ->
  Re.fullmatch remix_re (assignment w1 w2 body w3 semi w4) = true.
Proof.
  intros H1 H2 H3 H4 Hs Hb. apply fullmatch_lang.
  unfold remix_re, Re.seq, assignment, braces.
  apply Re.lang_cat; [apply lang_lit; reflexivity|].
  apply Re.lang_cat; [apply lang_star_space; exact H1|].
  apply (@Re.lang_cat (Re.chr "=") _ "="); [apply lang_chr; reflexivity|].
  apply Re.lang_cat; [apply lang_star_space; exact H2|].
  change (String "{" (body ^^ "}") ^^ w3 ^^ semi ^^ w4)
    with ("{" ^^ (body ^^ "}") ^^ w3 ^^ semi ^^ w4).
  apply (@Re.lang_cat (Re.chr "{") _ "{"); [apply lang_chr; reflexivity|].
  rewrite append_assoc.
  apply Re.lang_cat.
  { apply lang_plus_class. split; [exact Hb|].
    apply forallb_forall. intros; reflexivity. }
  apply (@Re.lang_cat (Re.chr "}") _ "}"); [apply lang_chr; reflexivity|].
  apply Re.lang_cat; [apply lang_star_space; exact H3|].
  apply Re.lang_cat; [apply lang_opt_chr; exact Hs|].
  rewrite <- (append_empty_r w4).
  apply Re.lang_cat; [apply lang_star_space; exact H4 | constructor].
Qed.

Lemma remix_group_assignment (w1 w2 body w3 semi w4 : string) :
  blank w1 = true -> blank w2 = true -> blank w3 = true -> blank w4 = true ->
  semi = EmptyString \/ semi = ";" -> body <> EmptyString ->
  remix_group (assignment w1 w2 body w3 semi w4) = Some (braces body).
Proof.
  intros H1 H2 H3 H4 Hs Hb. unfold remix_group.
  destruct (suffixes_head (assignment w1 w2 body w3 semi w4)) as [rest ->].
  cbn [find]. rewrite (@assignment_matches w1 w2 body w3 semi w4 H1 H2 H3 H4 Hs Hb).
  unfold assignment at 1. rewrite drop_append.
  rewrite (@lstrip_blank_prefix w1 "=" _ H1 eq_refl).
  cbn [Str.drop].
  change (braces body ^^ w3 ^^ semi ^^ w4)
    with (String "{" ((body ^^ "}") ^^ w3 ^^ semi ^^ w4)).
  rewrite (@lstrip_blank_prefix w2 "{" _ H2 eq_refl).
  change (String "{" ((body ^^ "}") ^^ w3 ^^ semi ^^ w4))
    with ("{" ^^ (body ^^ "}") ^^ w3 ^^ semi ^^ w4).
  rewrite append_assoc, <- append_assoc.
  change ("}" ^^ w3 ^^ semi ^^ w4) with (String "}" (w3 ^^ semi ^^ w4)).
  rewrite rpartition_last.
  - unfold braces. reflexivity.
  - rewrite !chars_append, !existsb_app.
    rewrite (@blank_without "}" w3 eq_refl H3), (@blank_without "}" w4 eq_refl H4).
    destruct Hs as [-> | ->]; reflexivity.
Qed.

(** X23.  From a script whose text is the assignment
    [window.__remixContext = {...};] (white space anywhere around the equals
    sign and the semicolon, which may be left out), the text between the
    first opening and the last closing brace is what goes to the JSON
    parser, and what it parses to is the client state, whatever scripts
    follow. *)
Theorem remix_context_of_assignment :
  forall (json_loads : string -> option value) (w1 w2 body w3 semi w4 : string)
         (script : node) (rest : list node) (data : value),
    blank w1 = true -> blank w2 = true -> blank w3 = true -> blank w4 = true ->
    semi = EmptyString \/ semi = ";" -> body <> EmptyString ->
    tag_string script = Some (assignment w1 w2 body w3 semi w4) ->
    json_loads (braces body) = Some data ->
    remix_group (assignment w1 w2 body w3 semi w4) = Some (braces body)
    /\ remix_scan json_loads (script :: rest) = data.
Proof.
  intros json_loads w1 w2 body w3 semi w4 script rest data H1 H2 H3 H4 Hs Hb Ht Hj.
  pose proof (@remix_group_assignment w1 w2 body w3 semi w4 H1 H2 H3 H4 Hs Hb) as Hg.
  split; [exact Hg|].
  cbn [remix_scan]. rewrite Ht.
  assert (Hc : Str.contains remix_lhs (assignment w1 w2 body w3 semi w4) = true).
  { unfold assignment.
    destruct (remix_lhs ^^ w1 ^^ String "=" (w2 ^^ braces body ^^ w3 ^^ semi ^^ w4))
      as [|c s] eqn:E; [discriminate E|].
    rewrite <- E. clear E.
    set (t := w1 ^^ String "=" (w2 ^^ braces body ^^ w3 ^^ semi ^^ w4)).
    pose proof (startswith_append remix_lhs t) as Hsw.
    destruct (remix_lhs ^^ t) as [|c' s']; [discriminate Hsw|].
    change (Str.contains remix_lhs (String c' s'))
      with (Str.startswith remix_lhs (String c' s') || Str.contains remix_lhs s').
    rewrite Hsw. reflexivity. }
  rewrite Hc.
  assert (He : Str.is_empty (assignment w1 w2 body w3 semi w4) = false) by reflexivity.
  rewrite He, Hg, Hj. reflexivity.
Qed.

Lemma remix_context_of_assignment_witness :
  extract_remix_context Ref.json_loads
    (Sample.page
       [Elem 10 "script" []
          [Text 11 Script
             (assignment " " " "
                (String.concat "" [Sample.q "state"; ": {"; Sample.q "loaderData"; ": {}}"])
                "" ";" nl)]] [])
  = with_loader_data [].
Proof.
  apply (@remix_context_of_assignment Ref.json_loads " " " "
           (String.concat "" [Sample.q "state"; ": {"; Sample.q "loaderData"; ": {}}"])
           "" ";" nl
           (Elem 10 "script" []
              [Text 11 Script
                 (assignment " " " "
                    (String.concat "" [Sample.q "state"; ": {"; Sample.q "loaderData"; ": {}}"])
                    "" ";" nl)])
           [] (with_loader_data []));
    try reflexivity.
  - right. reflexivity.
  - discriminate.
Defined.

(* ------------------------------------------------------------------ *)
(** ** The boilerplate filter only removes *)

Lemma labels_app (f g : forest) : labels (f ++ g) = labels f ++ labels g.
Proof. unfold labels. rewrite nodes_app, map_app. reflexivity. Qed.

Lemma labels_cons (n : node) (f : forest) : labels (n :: f) = labels [n] ++ labels f.
Proof. apply (labels_app [n] f). Qed.

Lemma labels_elem (r : ref) (name : string) (attrs : list (string * string))
  (cs : list node) :
  labels [Elem r name attrs cs] = Elem r name attrs [] :: labels cs.
Proof.
  unfold labels, nodes. simpl. rewrite app_nil_r. reflexivity.
Qed.

Lemma labels_prune_set (rs : list ref) (n : node) :
  subseq (labels [prune_set rs n]) (labels [n]).
Proof.
  induction n as [r k s|r name attrs cs IH] using node_induction.
  - apply subseq_refl.
  - simpl. rewrite !labels_elem. constructor.
    induction cs as [|c cs IHcs]; [apply subseq_refl|].
    inversion IH as [|? ? Hc Hcs]; subst. simpl.
    rewrite (labels_cons c cs).
    destruct (kept rs (prune_set rs c)).
    + rewrite labels_cons. apply subseq_app; [exact Hc | apply IHcs; exact Hcs].
    + apply subseq_app_l. apply IHcs. exact Hcs.
Qed.

Lemma labels_decompose_set (rs : list ref) (f : forest) :
  subseq (labels (decompose_set rs f)) (labels f).
Proof.
  unfold decompose_set. induction f as [|n f IH]; [apply subseq_refl|].
  simpl. rewrite (labels_cons n f).
  destruct (kept rs (prune_set rs n)).
  - rewrite labels_cons. apply subseq_app; [apply labels_prune_set | exact IH].
  - apply subseq_app_l. exact IH.
Qed.

Lemma labels_decompose (r : ref) (f : forest) :
  subseq (labels (decompose r f)) (labels f).
Proof. rewrite decompose_as_set. apply labels_decompose_set. Qed.

Lemma labels_decompose_all (rs : list ref) (f : forest) :
  subseq (labels (decompose_all rs f)) (labels f).
Proof. rewrite decompose_all_as_set. apply labels_decompose_set. Qed.

(** A loop whose every step only removes, only removes. *)
Lemma for_each_removes {A} (body : A -> forest -> result forest) (xs : list A) :
  (forall x f f', body x f = Ok f' -> subseq (labels f') (labels f)) ->
  forall f f', for_each xs body f = Ok f' -> subseq (labels f') (labels f).
Proof.
  intros Hbody. induction xs as [|x xs IH]; intros f f' H; simpl in H.
  - injection H as <-. apply subseq_refl.
  - apply bind_ok in H. destruct H as (f1 & H1 & H2).
    eapply subseq_trans; [apply (IH _ _ H2) | apply (Hbody _ _ _ H1)].
Qed.

Ltac removes :=
  repeat match goal with
         | H : Ok _ = Ok _ |- _ => injection H as <-
         | H : Raise _ = Ok _ |- _ => discriminate H
         | H : bind _ _ = Ok _ |- _ => apply bind_ok in H; destruct H as (? & _ & H)
         | H : (let _ := _ in _) = Ok _ |- _ => cbv zeta in H
         | H : (if ?b then _ else _) = Ok _ |- _ => destruct b
         | H : match ?x with Some _ => _ | None => _ end = Ok _ |- _ => destruct x
         | H : match ?x with [] => _ | _ :: _ => _ end = Ok _ |- _ => destruct x
         | |- subseq (labels (decompose _ ?f)) (labels ?f) => apply labels_decompose
         | |- subseq (labels (decompose_all _ ?f)) (labels ?f) => apply labels_decompose_all
         | |- subseq (labels (decompose_all ?l (decompose ?x ?f))) (labels ?f) =>
             apply (labels_decompose_all (x :: l) f)
         | |- subseq (labels ?f) (labels ?f) => apply subseq_refl
         end.

Lemma hidden_pass_removes (c : ref) (f f' : forest) :
  hidden_pass c f = Ok f' -> subseq (labels f') (labels f).
Proof.
  apply for_each_removes. intros x g g' H. removes.
Qed.

Lemma tracking_pass_removes (c : ref) (f f' : forest) :
  tracking_pass c f = Ok f' -> subseq (labels f') (labels f).
Proof.
  apply for_each_removes. intros x g g' H. unfold tracking_step in H. removes.
Qed.

Lemma rp_pass_removes (c : ref) (f f' : forest) :
  rp_pass c f = Ok f' -> subseq (labels f') (labels f).
Proof.
  apply for_each_removes. intros x g g' H. unfold rp_step in H.
  apply bind_ok in H. destruct H as (p & _ & H). removes.
Qed.

Lemma link_pass_removes (c : ref) (f f' : forest) :
  link_pass c f = Ok f' -> subseq (labels f') (labels f).
Proof.
  apply for_each_removes. intros x g g' H. unfold link_step in H. removes.
Qed.

Lemma class_pass_removes (c : ref) (f f' : forest) :
  class_pass c f = Ok f' -> subseq (labels f') (labels f).
Proof.
  apply for_each_removes. intros cls g g'.
  apply for_each_removes. intros x h h' H. removes.
Qed.

Lemma footer_pass_removes (c : ref) (f f' : forest) :
  footer_pass c f = Ok f' -> subseq (labels f') (labels f).
Proof.
  apply for_each_removes. intros pattern g g'.
  apply for_each_removes. intros x h h' H. unfold footer_step in H.
  apply bind_ok in H. destruct H as (p & _ & H). removes.
Qed.

Lemma cta_image_pass_removes (c : ref) (f f' : forest) :
  cta_image_pass c f = Ok f' -> subseq (labels f') (labels f).
Proof.
  apply for_each_removes. intros x g g' H. unfold cta_image_step in H. removes.
Qed.

Lemma empty_pass_removes (c : ref) (f f' : forest) :
  empty_pass c f = Ok f' -> subseq (labels f') (labels f).
Proof.
  apply for_each_removes. intros x g g' H. unfold empty_step in H. removes.
Qed.

Lemma preorder_sub (m n : node) :
  In n (preorder m) -> subseq (labels [n]) (labels [m]).
Proof.
  induction m as [r k s|r name attrs cs IH] using node_induction; intros Hin.
  - destruct Hin as [<-|[]]. apply subseq_refl.
  - destruct Hin as [<-|Hin]; [apply subseq_refl|].
    rewrite labels_elem. apply subseq_drop.
    apply in_flat_map in Hin. destruct Hin as (c & Hc & Hn).
    rewrite Forall_forall in IH. specialize (IH c Hc Hn).
    destruct (in_split _ _ Hc) as (l1 & l2 & ->).
    rewrite labels_app, (labels_cons c l2).
    apply subseq_app_l, subseq_app_r. exact IH.
Qed.

Lemma nodes_sub (f : forest) (n : node) :
  In n (nodes f) -> subseq (labels [n]) (labels f).
Proof.
  intros Hin. apply in_flat_map in Hin. destruct Hin as (m & Hm & Hn).
  destruct (in_split _ _ Hm) as (l1 & l2 & ->).
  rewrite labels_app, (labels_cons m l2).
  apply subseq_app_l, subseq_app_r. apply preorder_sub. exact Hn.
Qed.

(** X24.  [clean_content] only removes: when it returns, the tree it has
    worked on holds nodes of the input tree only, with their names,
    attributes and strings unchanged and in the same order; and the markup
    it returns is the container as it stands in that tree. *)
Theorem clean_content_only_removes :
  forall (c : ref) (f : forest) (body : markup),
    clean_content (Some c) f = Ok body ->
    exists f',
      body = str_of f' c
      /\ subseq (labels f') (labels f)
      /\ (attached f' c = true -> subseq (labels body) (labels f)).
Proof.
  intros c f body H. unfold clean_content in H.
  apply bind_ok in H. destruct H as (f1 & H1 & H).
  apply bind_ok in H. destruct H as (f2 & H2 & H).
  apply bind_ok in H. destruct H as (f3 & H3 & H).
  apply bind_ok in H. destruct H as (f4 & H4 & H).
  apply bind_ok in H. destruct H as (f5 & H5 & H).
  apply bind_ok in H. destruct H as (f6 & H6 & H).
  apply bind_ok in H. destruct H as (f7 & H7 & H).
  apply bind_ok in H. destruct H as (f8 & H8 & H).
  injection H as <-.
  assert (Hs : subseq (labels f8) (labels f)).
  { apply hidden_pass_removes in H1. apply tracking_pass_removes in H2.
    apply rp_pass_removes in H3. apply link_pass_removes in H4.
    apply class_pass_removes in H5. apply footer_pass_removes in H6.
    apply cta_image_pass_removes in H7. apply empty_pass_removes in H8.
    repeat (eapply subseq_trans; [eassumption|]). apply subseq_refl. }
  exists f8. split; [reflexivity|]. split; [exact Hs|].
  unfold attached, str_of. destruct (lookup f8 c) as [n|] eqn:E; [|discriminate].
  intros _. apply lookup_some in E. destruct E as [Hin _].
  eapply subseq_trans; [apply nodes_sub; exact Hin | exact Hs].
Qed.

Lemma clean_content_only_removes_witness :
  clean_content (Some 1) Sample9.newsletter = Ok Sample9.newsletter_cleaned
  /\ exists f',
      Sample9.newsletter_cleaned = str_of f' 1
      /\ subseq (labels f') (labels Sample9.newsletter)
      /\ (attached f' 1 = true ->
          subseq (labels Sample9.newsletter_cleaned) (labels Sample9.newsletter)).
Proof.
  assert (H : clean_content (Some 1) Sample9.newsletter = Ok Sample9.newsletter_cleaned)
    by (vm_compute; reflexivity).
  split; [exact H|].
  exact (@clean_content_only_removes 1 Sample9.newsletter Sample9.newsletter_cleaned H).
Defined.

(* ------------------------------------------------------------------ *)
(** ** Climbing from a direct child of the container *)

Lemma preorder_self (n : node) : In n (preorder n).
Proof. destruct n; left; reflexivity. Qed.

Lemma preorder_trans (a b c : node) :
  In a (preorder b) -> In b (preorder c) -> In a (preorder c).
Proof.
  revert a b. induction c as [r k s|r name attrs cs IH] using node_induction;
    intros a b Hab Hbc.
  - destruct Hbc as [<-|[]]. exact Hab.
  - destruct Hbc as [<-|Hbc]; [exact Hab|].
    right. apply in_flat_map in Hbc. destruct Hbc as (x & Hx & Hb).
    apply in_flat_map. exists x. split; [exact Hx|].
    rewrite Forall_forall in IH. apply (IH x Hx a b Hab Hb).
Qed.

Lemma descendants_preorder (a b : node) : In a (descendants b) -> In a (preorder b).
Proof.
  destruct b as [r k s|r name attrs cs]; [intros []|].
  intros H. right. exact H.
Qed.

Lemma child_descendant (n p : node) : In n (contents p) -> In n (descendants p).
Proof.
  intros H. unfold descendants, nodes. apply in_flat_map.
  exists n. split; [exact H | apply preorder_self].
Qed.

Lemma descendants_trans (a b c : node) :
  In a (descendants b) -> In b (descendants c) -> In a (descendants c).
Proof.
  intros Hab Hbc. unfold descendants, nodes in Hbc |- *.
  apply in_flat_map in Hbc. destruct Hbc as (y & Hy & Hb).
  apply in_flat_map. exists y. split; [exact Hy|].
  apply (@preorder_trans a b y); [apply descendants_preorder; exact Hab | exact Hb].
Qed.

Lemma descendant_ref_differs (f : forest) (na nc : node) :
  distinct_refs f -> In na (nodes f) -> In nc (descendants na) ->
  node_ref nc <> node_ref na.
Proof.
  intros Hd Hna Hnc.
  pose proof (@seg_at_distinct [na] f (@in_nodes_seg_at f na Hna) Hd) as H.
  unfold distinct_refs in H. rewrite refs_cons in H.
  inversion H as [|? ? Hnot _]; subst.
  intros E. apply Hnot. rewrite <- E. apply in_or_app. left.
  unfold refs. apply in_map. exact Hnc.
Qed.

Lemma parent_child (f : forest) (c : ref) (nc pg : node) :
  distinct_refs f -> lookup f c = Some nc -> parent_node f c = Some pg ->
  In pg (nodes f) /\ In nc (contents pg).
Proof.
  intros Hd Hc Hp. apply parent_node_some in Hp.
  destruct Hp as (Hpg & n & Hn & E). split; [exact Hpg|].
  apply lookup_some in Hc. destruct Hc as [Hnc Hr].
  assert (Hin : In n (contents pg)).
  { rewrite E. apply in_or_app. right. left. reflexivity. }
  assert (n = nc).
  { apply (@same_ref_same_node f n nc Hd (@in_contents_nodes f pg n Hpg Hin) Hnc).
    congruence. }
  subst n. exact Hin.
Qed.

Lemma ancestor_step (k : nat) (f : forest) :
  forall (c p g : ref),
    ancestor k f c = Some p -> tag_parent f p = Some g ->
    ancestor (S k) f c = Some g.
Proof.
  induction k as [|k IH]; intros c p g H Hg.
  - injection H as ->. simpl. rewrite Hg. reflexivity.
  - change (ancestor (S k) f c) with
      (match tag_parent f c with Some x => ancestor k f x | None => None end) in H.
    change (ancestor (S (S k)) f c) with
      (match tag_parent f c with Some x => ancestor (S k) f x | None => None end).
    destruct (tag_parent f c) as [x|]; [|discriminate].
    apply (IH x p g H Hg).
Qed.

(** A proper ancestor holds the node below it. *)
Lemma ancestor_below (f : forest) (k : nat) :
  distinct_refs f ->
  forall (c a : ref) (nc : node),
    lookup f c = Some nc -> ancestor (S k) f c = Some a ->
    exists na, lookup f a = Some na /\ In nc (descendants na).
Proof.
  intros Hd. induction k as [|k IH]; intros c a nc Hc Ha.
  - simpl in Ha. unfold tag_parent in Ha.
    destruct (parent_node f c) as [pg|] eqn:Hp; [|discriminate].
    simpl in Ha. injection Ha as <-.
    destruct (@parent_child f c nc pg Hd Hc Hp) as [Hpg Hin].
    exists pg. split; [apply lookup_in; assumption | apply child_descendant; exact Hin].
  - change (ancestor (S (S k)) f c) with
      (match tag_parent f c with Some x => ancestor (S k) f x | None => None end) in Ha.
    unfold tag_parent in Ha.
    destruct (parent_node f c) as [pg|] eqn:Hp; [|discriminate].
    simpl in Ha.
    destruct (@parent_child f c nc pg Hd Hc Hp) as [Hpg Hin].
    destruct (IH (node_ref pg) a pg (@lookup_in f pg Hd Hpg) Ha) as (na & Hna & Hbelow).
    exists na. split; [exact Hna|].
    apply (@descendants_trans nc pg na); [apply child_descendant; exact Hin | exact Hbelow].
Qed.

Lemma ancestor_is_not_self (f : forest) (k : nat) (c a : ref) (nc : node) :
  distinct_refs f -> lookup f c = Some nc -> ancestor (S k) f c = Some a -> a <> c.
Proof.
  intros Hd Hc Ha.
  destruct (@ancestor_below f k Hd c a nc Hc Ha) as (na & Hna & Hbelow).
  apply lookup_some in Hna. destruct Hna as [Hin <-].
  apply lookup_some in Hc. destruct Hc as [_ <-].
  intros E. apply (@descendant_ref_differs f na nc Hd Hin Hbelow). symmetry. exact E.
Qed.

Lemma node_ref_shallow (n : node) : node_ref (shallow n) = node_ref n.
Proof. destruct n; reflexivity. Qed.

(** Removing a tag removes what is below it. *)
Lemma decompose_detaches (f : forest) (a : ref) (na nc : node) :
  distinct_refs f -> lookup f a = Some na -> In nc (preorder na) ->
  attached (decompose a f) (node_ref nc) = false.
Proof.
  intros Hd Ha Hnc.
  destruct (@decompose_tokens f a na Hd Ha) as (pre & post & E & E').
  assert (Hrefs : forall g, refs g = map node_ref (opened (markup_tokens g))).
  { intros g. rewrite refs_labels, labels_tokens. reflexivity. }
  pose proof Hd as Hnd. unfold distinct_refs in Hnd.
  rewrite Hrefs, E, !opened_app, !map_app, opened_tokens in Hnd.
  assert (Hmid : In (node_ref nc) (map node_ref (map shallow (preorder na)))).
  { rewrite map_map. apply in_map_iff. exists nc. split; [apply node_ref_shallow | exact Hnc]. }
  unfold attached. destruct (lookup (decompose a f) (node_ref nc)) as [n'|] eqn:El;
    [exfalso | reflexivity].
  apply lookup_some in El. destruct El as [Hin Hr].
  assert (Hc : In (node_ref nc) (refs (decompose a f))).
  { rewrite <- Hr. unfold refs. apply in_map. exact Hin. }
  rewrite Hrefs, E', opened_app, map_app in Hc.
  apply in_app_or in Hc. destruct Hc as [Hc|Hc].
  - apply (@NoDup_app_disjoint _ _ _ (node_ref nc) Hnd Hc).
    apply in_or_app. left. exact Hmid.
  - apply NoDup_app_remove_l in Hnd.
    apply (@NoDup_app_disjoint _ _ _ (node_ref nc) Hnd Hmid Hc).
Qed.

Lemma string_parent_lookup (f : forest) (el c : ref) :
  distinct_refs f -> string_parent f el = Ok (Some c) ->
  exists nc, lookup f c = Some nc.
Proof.
  intros Hd H. unfold string_parent in H.
  destruct (attached f el); [|discriminate]. injection H as H.
  apply (@tag_parent_attached f el c Hd H).
Qed.

(** The climb of the referral pass from the container or above it: it goes
    on to the root, or for all its steps. *)
Lemma rp_ascend_from_container (f : forest) (c : ref) (nc : node) (n : nat) :
  distinct_refs f -> lookup f c = Some nc ->
  forall (j0 : nat) (p : ref),
    ancestor j0 f c = Some p ->
    exists j, j <= n
              /\ ancestor (j0 + j) f c = Some (rp_ascend n f c p)
              /\ (j = n \/ tag_parent f (rp_ascend n f c p) = None).
Proof.
  intros Hd Hc. induction n as [|n IH]; intros j0 p Hp.
  - exists 0. rewrite Nat.add_0_r. repeat split; auto.
  - simpl. destruct (tag_parent f p) as [g|] eqn:Hg.
    + pose proof (@ancestor_step j0 f c p g Hp Hg) as Hg'.
      assert (Hne : (g =? c) = false).
      { apply Nat.eqb_neq. apply (@ancestor_is_not_self f j0 c g nc Hd Hc Hg'). }
      rewrite Hne. destruct (IH (S j0) g Hg') as (j & Hj & Ha & Hstop).
      exists (S j). split; [lia|]. split.
      * replace (j0 + S j) with (S j0 + j) by lia. exact Ha.
      * destruct Hstop as [->|Hstop]; [left; reflexivity | right; exact Hstop].
    + exists 0. rewrite Nat.add_0_r. split; [lia|]. split; [exact Hp|].
      right. exact Hg.
Qed.



(** The whole document goes. *)
Example rp_step_referral_doc : rp_step 2 3 Sample9.referral_doc = Ok [].
Proof. vm_compute. reflexivity. Qed.

Lemma link_ascend_from_container (f : forest) (c : ref) (nc : node) (n : nat) :
  distinct_refs f -> lookup f c = Some nc ->
  forall (j0 : nat) (p : ref),
    ancestor j0 f c = Some p ->
    exists j, j <= n /\ ancestor (j0 + j) f c = Some (link_ascend n f c p).
Proof.
  intros Hd Hc. induction n as [|n IH]; intros j0 p Hp.
  - exists 0. rewrite Nat.add_0_r. split; [lia | exact Hp].
  - simpl. destruct (tag_parent f p) as [g|] eqn:Hg.
    + pose proof (@ancestor_step j0 f c p g Hp Hg) as Hg'.
      assert (Hne : (g =? c) = false).
      { apply Nat.eqb_neq. apply (@ancestor_is_not_self f j0 c g nc Hd Hc Hg'). }
      rewrite Hne. destruct (String.length (tag_get_text f p) <? 200).
      * destruct (IH (S j0) g Hg') as (j & Hj & Ha).
        exists (S j). split; [lia|].
        replace (j0 + S j) with (S j0 + j) by lia. exact Ha.
      * exists 0. rewrite Nat.add_0_r. split; [lia | exact Hp].
    + exists 0. rewrite Nat.add_0_r. split; [lia | exact Hp].
Qed.



(** The link, the story and everything around them go. *)
Example link_step_short_doc : link_step 3 4 Sample9.short_doc = Ok [].
Proof. vm_compute. reflexivity. Qed.

(* ------------------------------------------------------------------ *)
(** ** Passes that remove every match *)

Lemma kept_prune_set (rs rs' : list ref) (n : node) :
  kept rs (prune_set rs' n) = kept rs n.
Proof. apply kept_same_ref. apply prune_set_ref. Qed.

Lemma in_descendants_prune_set (rs : list ref) (m : node) :
  forall n', In n' (descendants (prune_set rs m)) ->
             exists n, In n (descendants m) /\ n' = prune_set rs n /\ kept rs n = true.
Proof.
  induction m as [r k s|r name attrs cs IH] using node_induction; intros n' H.
  - destruct H.
  - simpl in H. unfold descendants, nodes in H. simpl in H.
    apply in_flat_map in H. destruct H as (x' & Hx' & Hn').
    apply filter_In in Hx'. destruct Hx' as [Hx' Hk].
    apply in_map_iff in Hx'. destruct Hx' as (x & <- & Hx).
    rewrite kept_prune_set in Hk.
    rewrite Forall_forall in IH. specialize (IH x Hx).
    assert (Hcase : n' = prune_set rs x \/ In n' (descendants (prune_set rs x))).
    { destruct (prune_set rs x) as [r0 k0 s0|r0 name0 attrs0 cs0] eqn:E.
      - destruct Hn' as [<-|[]]. left. reflexivity.
      - destruct Hn' as [<-|Hn']; [left; reflexivity | right; exact Hn']. }
    destruct Hcase as [->|Hd].
    + exists x. split; [apply child_descendant; exact Hx|]. split; [reflexivity | exact Hk].
    + destruct (IH n' Hd) as (n & Hn & -> & Hkn).
      exists n. split; [|split; [reflexivity | exact Hkn]].
      apply (@descendants_trans n x (Elem r name attrs cs) Hn).
      apply child_descendant. exact Hx.
Qed.

Lemma in_nodes_decompose_set (rs : list ref) (f : forest) (n' : node) :
  In n' (nodes (decompose_set rs f)) ->
  exists n, In n (nodes f) /\ n' = prune_set rs n /\ kept rs n = true.
Proof.
  intros H. unfold nodes, decompose_set in H.
  apply in_flat_map in H. destruct H as (x' & Hx' & Hn').
  apply filter_In in Hx'. destruct Hx' as [Hx' Hk].
  apply in_map_iff in Hx'. destruct Hx' as (x & <- & Hx).
  rewrite kept_prune_set in Hk.
  assert (Hcase : n' = prune_set rs x \/ In n' (descendants (prune_set rs x))).
  { destruct (prune_set rs x) as [r0 k0 s0|r0 name0 attrs0 cs0] eqn:E.
    - destruct Hn' as [<-|[]]. left. reflexivity.
    - destruct Hn' as [<-|Hn']; [left; reflexivity | right; exact Hn']. }
  destruct Hcase as [->|Hd].
  - exists x. split; [|split; [reflexivity | exact Hk]].
    apply in_flat_map. exists x. split; [exact Hx | apply preorder_self].
  - destruct (@in_descendants_prune_set rs x n' Hd) as (n & Hn & -> & Hkn).
    exists n. split; [|split; [reflexivity | exact Hkn]].
    apply in_flat_map. exists x. split; [exact Hx|].
    apply descendants_preorder. exact Hn.
Qed.

Lemma distinct_refs_decompose_set (rs : list ref) (f : forest) :
  distinct_refs f -> distinct_refs (decompose_set rs f).
Proof.
  unfold distinct_refs. rewrite !refs_labels.
  apply subseq_NoDup. apply subseq_map. apply labels_decompose_set.
Qed.

Lemma lookup_decompose_set (rs : list ref) (f : forest) (c : ref) (n' : node) :
  distinct_refs f -> lookup (decompose_set rs f) c = Some n' ->
  exists n, lookup f c = Some n /\ n' = prune_set rs n.
Proof.
  intros Hd H. apply lookup_some in H. destruct H as [Hin Hr].
  apply in_nodes_decompose_set in Hin. destruct Hin as (n & Hn & -> & _).
  exists n. split; [|reflexivity].
  rewrite prune_set_ref in Hr. rewrite <- Hr. apply lookup_in; assumption.
Qed.

Lemma map_nil_inv {A B} (g : A -> B) (l : list A) : map g l = [] -> l = [].
Proof. destruct l; [reflexivity | discriminate]. Qed.

(** A removal does not bring a match about. *)
Lemma find_all_decompose_set_none (rs : list ref) (f : forest) (c : ref)
  (Q : node -> bool) :
  distinct_refs f -> (forall n, Q (prune_set rs n) = Q n) ->
  find_all f c Q = [] -> find_all (decompose_set rs f) c Q = [].
Proof.
  intros Hd HQ H. unfold find_all.
  destruct (lookup (decompose_set rs f) c) as [n'|] eqn:E; [|reflexivity].
  destruct (@lookup_decompose_set rs f c n' Hd E) as (n & Hl & ->).
  unfold find_all in H. rewrite Hl in H. apply map_nil_inv in H.
  unfold find_all_in in *. rewrite filter_nothing; [reflexivity|].
  intros d' Hd'. apply in_descendants_prune_set in Hd'.
  destruct Hd' as (d & Hdn & -> & _). rewrite HQ.
  destruct (Q d) eqn:Eq; [exfalso | reflexivity].
  assert (Hin : In d (filter Q (descendants n))) by (apply filter_In; split; assumption).
  rewrite H in Hin. destruct Hin.
Qed.

(** Once the matches of a pattern are removed, nothing matches it. *)
Lemma find_all_after_removal (f : forest) (c : ref) (P : node -> bool) :
  distinct_refs f -> (forall rs n, P (prune_set rs n) = P n) ->
  find_all (decompose_set (find_all f c P) f) c P = [].
Proof.
  intros Hd HP. unfold find_all at 1.
  destruct (lookup (decompose_set (find_all f c P) f) c) as [n'|] eqn:E; [|reflexivity].
  destruct (@lookup_decompose_set (find_all f c P) f c n' Hd E) as (n & Hl & ->).
  unfold find_all_in. rewrite filter_nothing; [reflexivity|].
  intros d' Hd'. apply in_descendants_prune_set in Hd'.
  destruct Hd' as (d & Hdn & -> & Hk). rewrite HP.
  destruct (P d) eqn:Ep; [exfalso | reflexivity].
  apply kept_spec in Hk. apply Hk.
  unfold find_all. rewrite Hl. apply in_map. apply filter_In. split; assumption.
Qed.

Lemma for_each_decompose (rs : list ref) :
  forall f, for_each rs (fun el f => Ok (decompose el f)) f = Ok (decompose_set rs f).
Proof.
  intros f. rewrite <- decompose_all_as_set. revert f.
  induction rs as [|r rs IH]; intros f; [reflexivity|].
  simpl. apply IH.
Qed.

Lemma attr_matches_prune_set (key : string) (p : Re.regex) (rs : list ref) (n : node) :
  attr_matches key p (prune_set rs n) = attr_matches key p n.
Proof. destruct n; reflexivity. Qed.

(** X27.  The hidden-element pass removes exactly the elements of the
    container whose [style] matches [display:none], with what is below them,
    and nothing else; after it the container has no such element. *)
Theorem hidden_pass_removes_hidden :
  forall (f : forest) (c : ref),
    distinct_refs f ->
    exists f',
      hidden_pass c f = Ok f'
      /\ f' = decompose_set (find_all f c hidden) f
      /\ find_all f' c hidden = []
      /\ subseq (labels f') (labels f).
Proof.
  intros f c Hd. exists (decompose_set (find_all f c hidden) f).
  split; [apply for_each_decompose|]. split; [reflexivity|]. split.
  - apply find_all_after_removal; [exact Hd|].
    intros rs n. apply attr_matches_prune_set.
  - apply labels_decompose_set.
Qed.

Lemma hidden_pass_removes_hidden_witness :
  exists f',
    hidden_pass 1 Sample9.newsletter = Ok f'
    /\ f' = decompose_set (find_all Sample9.newsletter 1 hidden) Sample9.newsletter
    /\ find_all f' 1 hidden = []
    /\ subseq (labels f') (labels Sample9.newsletter).
Proof.
  apply (@hidden_pass_removes_hidden Sample9.newsletter 1).
  apply distinct_NoDup. vm_compute. reflexivity.
Defined.

Lemma class_rounds (c : ref) (classes : list string) :
  forall f,
    distinct_refs f ->
    exists f',
      for_each classes
        (fun cls f =>
           for_each (find_all f c (attr_matches "class" (Re.lit_i cls)))
             (fun el f => Ok (decompose el f)) f) f = Ok f'
      /\ distinct_refs f'
      /\ subseq (labels f') (labels f)
      /\ (forall cls, In cls classes -> find_all f' c (has_class cls) = [])
      /\ (forall Q, (forall rs n, Q (prune_set rs n) = Q n) ->
                    find_all f c Q = [] -> find_all f' c Q = []).
Proof.
  induction classes as [|cls classes IH]; intros f Hd.
  - exists f. split; [reflexivity|]. split; [exact Hd|]. split; [apply subseq_refl|].
    split; [intros cls []|]. intros Q _ H. exact H.
  - simpl. rewrite for_each_decompose. simpl.
    set (f1 := decompose_set (find_all f c (attr_matches "class" (Re.lit_i cls))) f).
    assert (Hd1 : distinct_refs f1) by (apply distinct_refs_decompose_set; exact Hd).
    destruct (IH f1 Hd1) as (f' & E & Hd' & Hs & Hall & Hmono).
    exists f'. split; [exact E|]. split; [exact Hd'|]. split.
    { eapply subseq_trans; [exact Hs | apply labels_decompose_set]. }
    split.
    + intros cls' [<-|Hin]; [|apply Hall; exact Hin].
      apply Hmono.
      * intros rs n. apply attr_matches_prune_set.
      * apply (@find_all_after_removal f c (has_class cls) Hd).
        intros rs n. apply attr_matches_prune_set.
    + intros Q HQ H. apply (Hmono Q HQ).
      apply find_all_decompose_set_none; [exact Hd | apply HQ | exact H].
Qed.

(** X28.  After the class pass the container has no element whose [class]
    attribute matches one of the six boilerplate names (as a pattern, in any
    case, anywhere in the attribute); and the pass only removes. *)
Theorem class_pass_removes_classes :
  forall (f : forest) (c : ref),
    distinct_refs f ->
    exists f',
      class_pass c f = Ok f'
      /\ (forall cls, In cls boilerplate_classes -> find_all f' c (has_class cls) = [])
      /\ subseq (labels f') (labels f).
Proof.
  intros f c Hd.
  destruct (@class_rounds c boilerplate_classes f Hd) as (f' & E & _ & Hs & Hall & _).
  exists f'. split; [exact E|]. split; assumption.
Qed.

Lemma class_pass_removes_classes_witness :
  exists f',
    class_pass 1 Sample9.newsletter = Ok f'
    /\ (forall cls, In cls boilerplate_classes -> find_all f' 1 (has_class cls) = [])
    /\ subseq (labels f') (labels Sample9.newsletter).
Proof.
  apply (@class_pass_removes_classes Sample9.newsletter 1).
  apply distinct_NoDup. vm_compute. reflexivity.
Defined.

(** The footer block of the sample goes, its class being [email-Footer]. *)
Example class_pass_newsletter :
  exists f', class_pass 1 Sample9.newsletter = Ok f' /\ attached f' 7 = false
             /\ attached f' 4 = true.
Proof. eexists. split; [vm_compute; reflexivity|]. split; reflexivity. Qed.

(* ------------------------------------------------------------------ *)
(** ** Call-to-action images *)

Lemma lang_star_any (s : string) : Re.lang (Re.Star Re.anychar) s.
Proof. apply star_class_lang. apply forallb_forall. intros; reflexivity. Qed.

Lemma search_lang (r : Re.regex) (pre m post : string) :
  Re.lang r m -> Re.search r (pre ^^ m ^^ post) = true.
Proof.
  intros H. unfold Re.search. apply fullmatch_lang.
  apply Re.lang_cat; [apply lang_star_any|].
  apply Re.lang_cat; [exact H | apply lang_star_any].
Qed.

Lemma lang_lit_i_self (w : string) : Re.lang (Re.lit_i w) w.
Proof.
  induction w as [|c w IH]; simpl; [constructor|].
  change (String c w) with (String c EmptyString ^^ w).
  apply Re.lang_cat; [|exact IH].
  constructor. apply Ascii.eqb_refl.
Qed.

(** A source that has [cta], [footer] or [divider] somewhere before [.png],
    [.jpg] or [.gif], on one line, matches the pattern. *)
Lemma cta_image_matches (pre word mid ext post : string) :
  In word ["cta"; "footer"; "divider"] ->
  forallb (fun c => negb (Ascii.eqb c newline)) (list_ascii_of_string mid) = true ->
  In ext ["png"; "jpg"; "gif"] ->
  Re.search cta_image (pre ^^ (word ^^ mid ^^ "." ^^ ext) ^^ post) = true.
Proof.
  intros Hw Hm He. apply search_lang. unfold cta_image, Re.seq, Re.alts.
  apply Re.lang_cat.
  { destruct Hw as [<-|[<-|[<-|[]]]].
    - apply Re.lang_alt_l. apply lang_lit_i_self.
    - apply Re.lang_alt_r, Re.lang_alt_l. apply lang_lit_i_self.
    - apply Re.lang_alt_r, Re.lang_alt_r. apply lang_lit_i_self. }
  apply Re.lang_cat; [apply star_class_lang; exact Hm|].
  apply (@Re.lang_cat (Re.chr ".") _ "."); [apply lang_chr; reflexivity|].
  rewrite <- (append_empty_r ext). apply Re.lang_cat; [|constructor].
  destruct He as [<-|[<-|[<-|[]]]].
  - apply Re.lang_alt_l. apply lang_lit_i_self.
  - apply Re.lang_alt_r, Re.lang_alt_l. apply lang_lit_i_self.
  - apply Re.lang_alt_r, Re.lang_alt_r. apply lang_lit_i_self.
Qed.

(** X29.  An image whose source matches the call-to-action pattern is
    removed by its step of the pass: alone, or with its parent when the
    parent is not the container and has no text.  The pattern looks for
    [cta], [footer] or [divider] anywhere in the source before an image
    extension, so that the source need only hold such letters, as in
    "spectacular-view.jpg". *)
Theorem cta_image_step_removes :
  forall (f : forest) (c img : ref) (n : node),
    distinct_refs f ->
    lookup f img = Some n ->
    Re.search cta_image (attr_or_empty "src" n) = true ->
    (exists x,
        (x = img
         \/ (tag_parent f img = Some x /\ x <> c /\ tag_get_text f x = EmptyString))
        /\ cta_image_step c img f = Ok (decompose x f)
        /\ attached (decompose x f) img = false)
    /\ (forall pre word mid ext post,
           In word ["cta"; "footer"; "divider"] ->
           forallb (fun ch => negb (Ascii.eqb ch newline)) (list_ascii_of_string mid) = true ->
           In ext ["png"; "jpg"; "gif"] ->
           Re.search cta_image (pre ^^ (word ^^ mid ^^ "." ^^ ext) ^^ post) = true).
Proof.
  intros f c img n Hd Hl Hs. split; [|apply cta_image_matches].
  pose proof (lookup_some f img Hl) as [Hin Hr].
  assert (Hself : attached (decompose img f) img = false).
  { pose proof (@decompose_detaches f img n n Hd Hl (preorder_self n)) as H.
    rewrite Hr in H. exact H. }
  unfold cta_image_step, tag_get. rewrite Hl. cbn [bind].
  change (match node_attr "src" n with Some v => v | None => EmptyString end)
    with (attr_or_empty "src" n).
  rewrite Hs.
  destruct (tag_parent f img) as [p|] eqn:Hp.
  - destruct (p =? c) eqn:Hpc; cbn [negb].
    + exists img. split; [left; reflexivity|]. split; [reflexivity | exact Hself].
    + destruct (Str.is_empty (tag_get_text f p)) eqn:He.
      * exists p. split.
        { right. split; [reflexivity|]. split; [apply Nat.eqb_neq; exact Hpc|].
          destruct (tag_get_text f p); [reflexivity | discriminate]. }
        split; [reflexivity|].
        unfold tag_parent in Hp.
        destruct (parent_node f img) as [np|] eqn:Hnp; [|discriminate].
        simpl in Hp. injection Hp as <-.
        destruct (@parent_child f img n np Hd Hl Hnp) as [Hnpin Hchild].
        pose proof (@decompose_detaches f (node_ref np) np n Hd (@lookup_in f np Hd Hnpin)
                      (@descendants_preorder n np (@child_descendant n np Hchild))) as H.
        rewrite Hr in H. exact H.
      * exists img. split; [left; reflexivity|]. split; [reflexivity | exact Hself].
  - exists img. split; [left; reflexivity|]. split; [reflexivity | exact Hself].
Qed.

Lemma cta_image_step_removes_witness :
  exists x,
    (x = 5
     \/ (tag_parent Sample9.view_doc 5 = Some x /\ x <> 1
         /\ tag_get_text Sample9.view_doc x = EmptyString))
    /\ cta_image_step 1 5 Sample9.view_doc = Ok (decompose x Sample9.view_doc)
    /\ attached (decompose x Sample9.view_doc) 5 = false.
Proof.
  apply (@cta_image_step_removes Sample9.view_doc 1 5
           (Elem 5 "img" [("src", "https://cdn.example.com/spectacular-view.jpg")] [])).
  - apply distinct_NoDup. vm_compute. reflexivity.
  - vm_compute. reflexivity.
  - vm_compute. reflexivity.
Defined.

(** The picture goes, and the block around it. *)
Example cta_image_pass_view :
  cta_image_pass 1 Sample9.view_doc
  = Ok [Elem 0 "[document]" [] [Sample4.container 1 [Sample4.para 2 "Story"]]].
Proof. vm_compute. reflexivity. Qed.
